(** * The diagnostic gossip service of go-ipfs (package [diagnostic])

    A shallow embedding of [diagnostic/diag.go] and a verification of the
    properties its specification states.

    Conventions of the embedding.
    - A Go [string] is a [string]; a Go [[]byte] is a [list ascii], one
      [ascii] per byte.  A nil slice and an empty slice are both the empty
      list: every slice of the program is built from nil by [append] or by a
      buffer, so the two never need to be told apart.
    - [time.Time] and [time.Duration] are integers ([Z]), nanoseconds; a
      [time.Duration] is an [int64].
    - A Go [error] is known by its message, which is all the [error]
      interface shows.
    - A function returning [(T, error)] returns a [Result T]; where the
      program itself tests both components for nil it returns the pair.
    - What the node asks of its environment (the clock, the random source,
      the swarm's peer list, a peer's latency, the sender, the logger) is an
      event of a program tree [Prog]; [run] interprets a tree against a
      handler over a state of the environment. *)

From Stdlib Require Import ZArith List Ascii String Lia Bool.
From Stdlib Require Import DecimalZ DecimalFacts.
From stdpp Require Import gmap strings.

Import ListNotations.

Set Warnings "-register-all".

(** A byte, and its value as an integer. *)
Abbreviation byte := ascii (only parsing).

Definition byte_val (b : byte) : Z := Z.of_N (N_of_ascii b).

(** Go's conversion [byte(x)]: the low eight bits. *)
Definition byte_of (x : Z) : byte := ascii_of_N (Z.to_N (x mod 256)).

(** ** Package [unicode/utf8] (Go standard library)

    The snapshot encoding is "streaming structured-text decoding"; the
    program obtains it from [encoding/json], which is not part of the
    repository and rests on [unicode/utf8].  The definitions follow the
    library's functions of the same names. *)
Module utf8.

Local Open Scope Z_scope.

Definition rune := Z.

Definition RuneError : rune := 0xFFFD.
Definition RuneSelf : Z := 0x80.
Definition MaxRune : rune := 0x10FFFF.

Definition surrogateMin : rune := 0xD800.
Definition surrogateMax : rune := 0xDFFF.

Definition tx : Z := 0x80.
Definition t2 : Z := 0xC0.
Definition t3 : Z := 0xE0.
Definition t4 : Z := 0xF0.
Definition t5 : Z := 0xF8.

Definition maskx : Z := 0x3F.
Definition mask2 : Z := 0x1F.
Definition mask3 : Z := 0x0F.
Definition mask4 : Z := 0x07.

Definition rune1Max : rune := 2 ^ 7 - 1.
Definition rune2Max : rune := 2 ^ 11 - 1.
Definition rune3Max : rune := 2 ^ 16 - 1.

(** A continuation byte lies in [tx, t2). *)
Definition notcont (c : Z) : bool := (c <? tx) || (t2 <=? c).

(** Modelled from the spec: [utf8.DecodeRune], of Go's standard library,
    is not in the repository.  [DecodeRune p] is the first rune of [p] and
    its width in bytes.  An
    ill-formed or truncated encoding gives [(RuneError, 1)], the empty input
    [(RuneError, 0)]. *)
Definition DecodeRune (p : list byte) : rune * nat :=
  match p with
  | [] => (RuneError, 0%nat)
  | b0 :: p1 =>
    let c0 := byte_val b0 in
    if c0 <? tx then (c0, 1%nat)
    else if c0 <? t2 then (RuneError, 1%nat)
    else
      match p1 with
      | [] => (RuneError, 1%nat)
      | b1 :: p2 =>
        let c1 := byte_val b1 in
        if notcont c1 then (RuneError, 1%nat)
        else if c0 <? t3 then
          let r := Z.lor (Z.shiftl (Z.land c0 mask2) 6) (Z.land c1 maskx) in
          if r <=? rune1Max then (RuneError, 1%nat) else (r, 2%nat)
        else
          match p2 with
          | [] => (RuneError, 1%nat)
          | b2 :: p3 =>
            let c2 := byte_val b2 in
            if notcont c2 then (RuneError, 1%nat)
            else if c0 <? t4 then
              let r := Z.lor (Z.lor (Z.shiftl (Z.land c0 mask3) 12)
                                    (Z.shiftl (Z.land c1 maskx) 6))
                             (Z.land c2 maskx) in
              if r <=? rune2Max then (RuneError, 1%nat)
              else if (surrogateMin <=? r) && (r <=? surrogateMax)
                   then (RuneError, 1%nat)
              else (r, 3%nat)
            else
              match p3 with
              | [] => (RuneError, 1%nat)
              | b3 :: _ =>
                let c3 := byte_val b3 in
                if notcont c3 then (RuneError, 1%nat)
                else if c0 <? t5 then
                  let r := Z.lor (Z.lor (Z.lor (Z.shiftl (Z.land c0 mask4) 18)
                                               (Z.shiftl (Z.land c1 maskx) 12))
                                        (Z.shiftl (Z.land c2 maskx) 6))
                                 (Z.land c3 maskx) in
                  if (r <=? rune3Max) || (MaxRune <? r) then (RuneError, 1%nat)
                  else (r, 4%nat)
                else (RuneError, 1%nat)
              end
          end
      end
  end.

(** Go's conversion [uint32(r)] of an [int32]. *)
Definition uint32 (r : rune) : Z := r mod 2 ^ 32.

(** Modelled from the spec: [utf8.EncodeRune], of Go's standard library,
    is not in the repository.  [EncodeRune r] is the UTF-8 encoding of [r];
    a rune out of range or a surrogate half is encoded as [RuneError]. *)
Definition EncodeRune (r : rune) : list byte :=
  if uint32 r <=? rune1Max then [byte_of r]
  else if uint32 r <=? rune2Max then
    [byte_of (Z.lor t2 (Z.shiftr r 6)); byte_of (Z.lor tx (Z.land r maskx))]
  else
    let r := if MaxRune <? uint32 r then RuneError else r in
    let r := if (surrogateMin <=? r) && (r <=? surrogateMax) then RuneError else r in
    if uint32 r <=? rune3Max then
      [byte_of (Z.lor t3 (Z.shiftr r 12));
       byte_of (Z.lor tx (Z.land (Z.shiftr r 6) maskx));
       byte_of (Z.lor tx (Z.land r maskx))]
    else
      [byte_of (Z.lor t4 (Z.shiftr r 18));
       byte_of (Z.lor tx (Z.land (Z.shiftr r 12) maskx));
       byte_of (Z.lor tx (Z.land (Z.shiftr r 6) maskx));
       byte_of (Z.lor tx (Z.land r maskx))].

(** The decoding at the head of [p] is the error sentinel: one byte that
    starts no well-formed encoding. *)
Definition isError (d : rune * nat) : bool :=
  (fst d =? RuneError) && Nat.eqb (snd d) 1.

(** [Valid p]: [p] consists of well-formed encodings only.  The loop over
    the runes of [p]; [fuel] bounds its iterations, and each consumes at
    least one byte. *)
Fixpoint Valid_from (fuel : nat) (p : list byte) : bool :=
  match fuel, p with
  | _, [] => true
  | O, _ => true
  | S fuel', _ :: _ =>
    let d := DecodeRune p in
    if isError d then false else Valid_from fuel' (skipn (snd d) p)
  end.

Definition Valid (p : list byte) : bool := Valid_from (length p) p.

Definition ValidString (s : string) : bool := Valid (list_ascii_of_string s).

End utf8.

(** ** Errors

    A Go [error], known by its message.  [errors_New] is [errors.New]. *)
Record error : Type := errors_New { Error : string }.

#[global]
Instance error_eq_dec : EqDecision error.
Proof. solve_decision. Defined.

(** The result of a function that returns [(T, error)] and whose callers
    use the value only when the error is nil. *)
Definition Result (A : Type) : Type := (A + error)%type.

(** The range of an [int64]. *)
Definition int64 (i : Z) : bool := (- 2 ^ 63 <=? i)%Z && (i <? 2 ^ 63)%Z.

(** ** Package [strconv] (Go standard library): decimal integers *)
Module strconv.

Local Open Scope Z_scope.

Definition digit (d : Z) : byte := byte_of (48 + d).

(** [formatBits]: the digits of [u], least significant first, each pushed
    in front of what is already written.  [fuel] bounds the loop; a 64-bit
    number has at most twenty digits. *)
Fixpoint formatBits (fuel : nat) (u : Z) (a : list byte) : list byte :=
  match fuel with
  | O => a
  | S fuel' =>
    if 10 <=? u then formatBits fuel' (u / 10) (digit (u mod 10) :: a)
    else digit u :: a
  end.

(** Modelled from the spec: [strconv.FormatInt], of Go's standard library,
    is not in the repository.  This is [FormatInt i 10], which the encoder
    writes for a "duration". *)
Definition FormatInt (i : Z) : list byte :=
  if i <? 0 then "-"%char :: formatBits 20 (- i) [] else formatBits 20 i [].

Definition isDigit (b : byte) : bool :=
  (48 <=? byte_val b) && (byte_val b <=? 57).

(** [ParseUint s 10 64] without its overflow test, which [ParseInt]'s
    range test subsumes: [None] is a syntax error. *)
Fixpoint parseDigits (s : list byte) (n : Z) : option Z :=
  match s with
  | [] => Some n
  | b :: s' => if isDigit b then parseDigits s' (10 * n + (byte_val b - 48)) else None
  end.

Definition ParseUint (s : list byte) : option Z :=
  match s with
  | [] => None
  | _ :: _ => parseDigits s 0
  end.

(** Modelled from the spec: [strconv.ParseInt], of Go's standard library,
    is not in the repository.  This is [ParseInt s 10 64], by which the
    decoder reads a "duration"; [None] is a syntax or a range error. *)
Definition ParseInt (s : list byte) : option Z :=
  match s with
  | [] => None
  | b :: s' =>
    let neg := Ascii.eqb b "-" in
    let digits := if Ascii.eqb b "+" || neg then s' else s in
    match ParseUint digits with
    | None => None
    | Some un =>
      let cutoff := 2 ^ 63 in
      if negb neg && (cutoff <=? un) then None
      else if neg && (cutoff <? un) then None
      else Some (if neg then - un else un)
    end
  end.

End strconv.

(** ** Package [encoding/json] (Go standard library)

    The spec: "Snapshot encoding (conceptually): { id: string,
    connections: [{id: string, latency: duration}], keys: [string], lifespan:
    duration, code_version: string }", decoded by "streaming structured-text
    decoding that consumes exactly one object and reports a clean
    end-of-stream when no more objects remain".  The program calls
    [json.Marshal] and [json.NewDecoder(..).Decode]; the library itself is
    not part of the repository.  The definitions below follow the library's
    encoder ([encodeState]), its scanner and its decoder for the kinds of
    value the program hands them. *)
Module json.

Local Open Scope Z_scope.

Definition dquote : byte := "034"%char.
Definition backslash : byte := "092"%char.

(** *** Encoding *)

(** A Go value as reflection shows it to the encoder.  [VInt] is any
    signed integer kind ([time.Duration] is an [int64]); [VSlice []] is the
    nil slice; [VStruct] lists the exported fields in declaration order. *)
Inductive Value : Type :=
| VString (s : string)
| VInt (i : Z)
| VSlice (elems : list Value)
| VStruct (fields : list (string * Value))
| VChan
| VFunc.

Definition hex (n : Z) : byte :=
  nth (Z.to_nat n) (list_ascii_of_string "0123456789abcdef") "0"%char.

(** A byte that [encodeState.string] copies as it is. *)
Definition plain (b : byte) : bool :=
  (0x20 <=? byte_val b) && negb (Ascii.eqb b backslash) && negb (Ascii.eqb b dquote)
  && negb (Ascii.eqb b "<") && negb (Ascii.eqb b ">") && negb (Ascii.eqb b "&").

(** The escape [encodeState.string] writes for a byte below [RuneSelf] that
    is not [plain]. *)
Definition escape (b : byte) : list byte :=
  if Ascii.eqb b backslash || Ascii.eqb b dquote then [backslash; b]
  else if Ascii.eqb b "010" then [backslash; "n"%char]
  else if Ascii.eqb b "013" then [backslash; "r"%char]
  else [backslash; "u"%char; "0"%char; "0"%char;
        hex (Z.shiftr (byte_val b) 4); hex (Z.land (byte_val b) 0xF)].

(** Modelled from the spec: [encodeState.string] of [encoding/json] is not
    in the repository; the spec's "id: string" is a Go [string], any
    sequence of bytes.  This is the loop of [encodeState.string] from index
    [i] on, [s] being [s[i:]].  The package's documentation: "String values
    encode as JSON strings coerced to valid UTF-8, replacing invalid bytes
    with the Unicode replacement rune."  So invalid UTF-8 is written as the
    escape of U+FFFD; U+2028 and U+2029 are escaped; every other rune is
    copied. *)
Fixpoint string_from (fuel : nat) (s : list byte) : list byte :=
  match fuel, s with
  | _, [] => []
  | O, _ => []
  | S fuel', b :: s' =>
    if byte_val b <? utf8.RuneSelf then
      if plain b then b :: string_from fuel' s'
      else escape b ++ string_from fuel' s'
    else
      let d := utf8.DecodeRune s in
      if utf8.isError d then
        backslash :: list_ascii_of_string "ufffd"
          ++ string_from fuel' (skipn (snd d) s)
      else if (fst d =? 0x2028) || (fst d =? 0x2029) then
        backslash :: list_ascii_of_string "u202" ++ hex (Z.land (fst d) 0xF)
          :: string_from fuel' (skipn (snd d) s)
      else firstn (snd d) s ++ string_from fuel' (skipn (snd d) s)
  end.

(** [encodeState.string]: a JSON string literal for [s]. *)
Definition encode_string (s : string) : list byte :=
  let p := list_ascii_of_string s in
  dquote :: string_from (length p) p ++ [dquote].

(** [json.Marshal]'s errors. *)
Definition UnsupportedTypeError (kind : string) : error :=
  errors_New ("json: unsupported type: " +:+ kind).

(** The separator before an element or a field that is not the first. *)
Definition comma (first : bool) : list byte :=
  if first then [] else [","%char].

(** Modelled from the spec: the encoder of [encoding/json] is not in the
    repository; it writes the spec's "snapshot encoding", an object with
    the fields of the snapshot.  A signed integer is written in decimal, a
    nil slice as
    [null], a slice as an array and a struct as an object whose keys are the
    field names; a channel or a function has no encoding. *)
Fixpoint encode (v : Value) : Result (list byte) :=
  match v with
  | VString s => inl (encode_string s)
  | VInt i => inl (strconv.FormatInt i)
  | VSlice [] => inl (list_ascii_of_string "null")
  | VSlice es =>
    let fix elems (first : bool) (es : list Value) : Result (list byte) :=
      match es with
      | [] => inl ["]"%char]
      | e :: es' =>
        match encode e with
        | inr err => inr err
        | inl x =>
          match elems false es' with
          | inr err => inr err
          | inl xs => inl (comma first ++ x ++ xs)
          end
        end
      end in
    match elems true es with
    | inr err => inr err
    | inl xs => inl ("["%char :: xs)
    end
  | VStruct fs =>
    let fix fields (first : bool) (fs : list (string * Value)) : Result (list byte) :=
      match fs with
      | [] => inl ["}"%char]
      | (name, fv) :: fs' =>
        match encode fv with
        | inr err => inr err
        | inl x =>
          match fields false fs' with
          | inr err => inr err
          | inl xs => inl (comma first ++ encode_string name ++ ":"%char :: x ++ xs)
          end
        end
      end in
    match fields true fs with
    | inr err => inr err
    | inl xs => inl ("{"%char :: xs)
    end
  | VChan => inr (UnsupportedTypeError "chan")
  | VFunc => inr (UnsupportedTypeError "func")
  end.

(** The two loops of [encode], as functions of their own. *)
Fixpoint encode_elems (first : bool) (es : list Value) : Result (list byte) :=
  match es with
  | [] => inl ["]"%char]
  | e :: es' =>
    match encode e with
    | inr err => inr err
    | inl x =>
      match encode_elems false es' with
      | inr err => inr err
      | inl xs => inl (comma first ++ x ++ xs)
      end
    end
  end.

Fixpoint encode_fields (first : bool) (fs : list (string * Value)) : Result (list byte) :=
  match fs with
  | [] => inl ["}"%char]
  | (name, fv) :: fs' =>
    match encode fv with
    | inr err => inr err
    | inl x =>
      match encode_fields false fs' with
      | inr err => inr err
      | inl xs => inl (comma first ++ encode_string name ++ ":"%char :: x ++ xs)
      end
    end
  end.

(** A value with no channel and no function in it. *)
Fixpoint supported (v : Value) : bool :=
  match v with
  | VString _ | VInt _ => true
  | VSlice es => forallb supported es
  | VStruct fs => forallb (fun f => supported (snd f)) fs
  | VChan | VFunc => false
  end.

(** Modelled from the spec: [json.Marshal] is not in the repository; the
    spec's "serialization" of a snapshot, which may fail. *)
Definition Marshal (v : Value) : Result (list byte) := encode v.

(** A value the decoder reads back as it is: its strings, the names of its
    fields included, are well-formed UTF-8, and its integers are in the range
    of an [int64]. *)
Fixpoint wellFormed (v : Value) : bool :=
  match v with
  | VString s => utf8.ValidString s
  | VInt i => int64 i
  | VSlice es => forallb wellFormed es
  | VStruct fs => forallb (fun f => utf8.ValidString (fst f) && wellFormed (snd f)) fs
  | VChan | VFunc => false
  end.

(** *** Decoding: the scanner

    A JSON text as the scanner reads it.  A number keeps its literal: the
    decoder converts it according to the kind of the field it stores it
    in.  A string holds the bytes the literal stands for. *)
Inductive Json : Type :=
| JNull
| JTrue
| JFalse
| JNumber (lit : list byte)
| JString (s : list byte)
| JArray (elems : list Json)
| JObject (members : list (list byte * Json)).

(** The JSON text the encoder writes for a well-formed value, as the
    scanner reads it. *)
Fixpoint tree_of (v : Value) : Json :=
  match v with
  | VString s => JString (list_ascii_of_string s)
  | VInt i => JNumber (strconv.FormatInt i)
  | VSlice [] => JNull
  | VSlice es => JArray (map tree_of es)
  | VStruct fs => JObject (map (fun f => (list_ascii_of_string (fst f), tree_of (snd f))) fs)
  | VChan | VFunc => JNull
  end.

(** [isSpace]. *)
Definition isSpace (b : byte) : bool :=
  Ascii.eqb b " " || Ascii.eqb b "009" || Ascii.eqb b "013" || Ascii.eqb b "010".

Fixpoint skipSpace (s : list byte) : list byte :=
  match s with
  | b :: s' => if isSpace b then skipSpace s' else s
  | [] => []
  end.

(** The value of a hexadecimal digit. *)
Definition unhex (b : byte) : option Z :=
  let c := byte_val b in
  if (48 <=? c) && (c <=? 57) then Some (c - 48)
  else if (97 <=? c) && (c <=? 102) then Some (c - 97 + 10)
  else if (65 <=? c) && (c <=? 70) then Some (c - 65 + 10)
  else None.

(** The four hexadecimal digits after a backslash and a [u]. *)
Definition hex4 (s : list byte) : option (utf8.rune * list byte) :=
  match s with
  | h1 :: h2 :: h3 :: h4 :: s' =>
    match unhex h1, unhex h2, unhex h3, unhex h4 with
    | Some a, Some b, Some c, Some d => Some (((a * 16 + b) * 16 + c) * 16 + d, s')
    | _, _, _, _ => None
    end
  | _ => None
  end.

(** [getu4 s]: the code unit of the escape that [s] starts with, or [-1]. *)
Definition getu4 (s : list byte) : utf8.rune * list byte :=
  match s with
  | b :: u :: s' =>
    if Ascii.eqb b backslash && Ascii.eqb u "u" then
      match hex4 s' with
      | Some r => r
      | None => (-1, s)
      end
    else (-1, s)
  | _ => (-1, s)
  end.

(** Package [unicode/utf16]. *)
Definition surr1 : utf8.rune := 0xd800.
Definition surr2 : utf8.rune := 0xdc00.
Definition surr3 : utf8.rune := 0xe000.
Definition ReplacementChar : utf8.rune := 0xFFFD.

Definition IsSurrogate (r : utf8.rune) : bool := (surr1 <=? r) && (r <? surr3).

Definition utf16_DecodeRune (r1 r2 : utf8.rune) : utf8.rune :=
  if (surr1 <=? r1) && (r1 <? surr2) && (surr2 <=? r2) && (r2 <? surr3)
  then Z.lor (Z.shiftl (r1 - surr1) 10) (r2 - surr2) + 0x10000
  else ReplacementChar.

(** The byte an escape of one letter stands for. *)
Definition unescape (e : byte) : option byte :=
  if Ascii.eqb e dquote || Ascii.eqb e backslash || Ascii.eqb e "/" then Some e
  else if Ascii.eqb e "b" then Some "008"%char
  else if Ascii.eqb e "f" then Some "012"%char
  else if Ascii.eqb e "n" then Some "010"%char
  else if Ascii.eqb e "r" then Some "013"%char
  else if Ascii.eqb e "t" then Some "009"%char
  else None.

Definition prepend (x : list byte) (r : option (list byte * list byte))
  : option (list byte * list byte) :=
  match r with
  | Some (t, rest) => Some (x ++ t, rest)
  | None => None
  end.

(** A string literal after its opening quote: the scanner's states inside a
    string together with [unquoteBytes].  The result is the bytes the
    literal stands for and the input after the closing quote; [None] is a
    syntax error or the end of the input.  Ill-formed UTF-8 is coerced to
    U+FFFD. *)
Fixpoint unquote_from (fuel : nat) (s : list byte) : option (list byte * list byte) :=
  match fuel, s with
  | O, _ => None
  | _, [] => None
  | S fuel', b :: r =>
    if Ascii.eqb b dquote then Some ([], r)
    else if Ascii.eqb b backslash then
      match r with
      | [] => None
      | e :: r' =>
        if Ascii.eqb e "u" then
          match hex4 r' with
          | None => None
          | Some (rr, r2) =>
            if IsSurrogate rr then
              let (rr1, r3) := getu4 r2 in
              let dec := utf16_DecodeRune rr rr1 in
              if negb (dec =? ReplacementChar) then
                prepend (utf8.EncodeRune dec) (unquote_from fuel' r3)
              else prepend (utf8.EncodeRune ReplacementChar) (unquote_from fuel' r2)
            else prepend (utf8.EncodeRune rr) (unquote_from fuel' r2)
          end
        else
          match unescape e with
          | Some x => prepend [x] (unquote_from fuel' r')
          | None => None
          end
      end
    else if byte_val b <? 0x20 then None
    else if byte_val b <? utf8.RuneSelf then prepend [b] (unquote_from fuel' r)
    else
      let d := utf8.DecodeRune s in
      prepend (utf8.EncodeRune (fst d)) (unquote_from fuel' (skipn (snd d) s))
  end.

Definition unquote (s : list byte) : option (list byte * list byte) :=
  unquote_from (length s) s.

(** The longest run of digits at the head of the input. *)
Fixpoint digits (s : list byte) : list byte * list byte :=
  match s with
  | b :: s' =>
    if strconv.isDigit b then let (ds, rest) := digits s' in (b :: ds, rest)
    else ([], s)
  | [] => ([], [])
  end.

(** The scanner's number states: an optional minus, [0] or a run of digits
    that does not start with [0], an optional fraction, an optional
    exponent.  Each part gives the bytes it read and the input after
    them. *)
Definition integer (s : list byte) : option (list byte * list byte) :=
  match s with
  | [] => None
  | b :: s' =>
    if negb (strconv.isDigit b) then None
    else if Ascii.eqb b "0" then Some ([b], s')
    else Some (digits s)
  end.

Definition fraction (s : list byte) : option (list byte * list byte) :=
  match s with
  | dot :: s' =>
    if Ascii.eqb dot "." then
      match digits s' with
      | ([], _) => None
      | (ds, rest) => Some (dot :: ds, rest)
      end
    else Some ([], s)
  | [] => Some ([], s)
  end.

Definition exponent (s : list byte) : option (list byte * list byte) :=
  match s with
  | e :: s' =>
    if Ascii.eqb e "e" || Ascii.eqb e "E" then
      let (sign, s'') :=
        match s' with
        | sg :: s'' =>
          if Ascii.eqb sg "+" || Ascii.eqb sg "-" then ([sg], s'') else ([], s')
        | [] => ([], s')
        end in
      match digits s'' with
      | ([], _) => None
      | (ds, rest) => Some (e :: sign ++ ds, rest)
      end
    else Some ([], s)
  | [] => Some ([], s)
  end.

(** A number: the literal and the input after it. *)
Definition number (s : list byte) : option (list byte * list byte) :=
  let (sign, s1) :=
    match s with
    | b :: s' => if Ascii.eqb b "-" then ([b], s') else ([], s)
    | [] => ([], s)
    end in
  match integer s1 with
  | None => None
  | Some (int, s2) =>
    match fraction s2 with
    | None => None
    | Some (fr, s3) =>
      match exponent s3 with
      | None => None
      | Some (ex, s4) => Some (sign ++ int ++ fr ++ ex, s4)
      end
    end
  end.

(** The input after a number ends it: it is empty or starts with a byte
    that continues no number. *)
Definition endsNumber (rest : list byte) : bool :=
  match rest with
  | [] => true
  | b :: _ =>
    negb (strconv.isDigit b || Ascii.eqb b "." || Ascii.eqb b "e" || Ascii.eqb b "E")
  end.

(** The rest of a literal name ([true], [false], [null]) after its first
    letter. *)
Fixpoint literal (name : list byte) (s : list byte) : option (list byte) :=
  match name, s with
  | [], _ => Some s
  | c :: name', b :: s' => if Ascii.eqb b c then literal name' s' else None
  | _ :: _, [] => None
  end.

(** Modelled from the spec: the scanner of [encoding/json] is not in the
    repository; it is the spec's "self-delimiting encoding ... that consumes
    exactly one object".  One JSON value at the head of the input, after any
    white space, and the input that follows it; [None] is a syntax error or an unexpected end of
    the input.  [fuel] bounds the depth of the recursion and the number of
    elements read; the length of the input is enough. *)
Fixpoint value (fuel : nat) (s : list byte) {struct fuel} : option (Json * list byte) :=
  match fuel with
  | O => None
  | S fuel' =>
    match skipSpace s with
    | [] => None
    | b :: r =>
      if Ascii.eqb b "{" then
        match skipSpace r with
        | c :: r' =>
          if Ascii.eqb c "}" then Some (JObject [], r')
          else
            match members fuel' (c :: r') with
            | Some (ms, rest) => Some (JObject ms, rest)
            | None => None
            end
        | [] => None
        end
      else if Ascii.eqb b "[" then
        match skipSpace r with
        | c :: r' =>
          if Ascii.eqb c "]" then Some (JArray [], r')
          else
            match elements fuel' (c :: r') with
            | Some (es, rest) => Some (JArray es, rest)
            | None => None
            end
        | [] => None
        end
      else if Ascii.eqb b dquote then
        match unquote r with
        | Some (t, rest) => Some (JString t, rest)
        | None => None
        end
      else if Ascii.eqb b "-" || strconv.isDigit b then
        match number (b :: r) with
        | Some (lit, rest) => Some (JNumber lit, rest)
        | None => None
        end
      else if Ascii.eqb b "t" then
        match literal (list_ascii_of_string "rue") r with
        | Some rest => Some (JTrue, rest)
        | None => None
        end
      else if Ascii.eqb b "f" then
        match literal (list_ascii_of_string "alse") r with
        | Some rest => Some (JFalse, rest)
        | None => None
        end
      else if Ascii.eqb b "n" then
        match literal (list_ascii_of_string "ull") r with
        | Some rest => Some (JNull, rest)
        | None => None
        end
      else None
    end
  end

(** The elements of an array after its opening bracket, up to and with the
    closing bracket. *)
with elements (fuel : nat) (s : list byte) {struct fuel} : option (list Json * list byte) :=
  match fuel with
  | O => None
  | S fuel' =>
    match value fuel' s with
    | None => None
    | Some (v, r) =>
      match skipSpace r with
      | c :: r' =>
        if Ascii.eqb c "," then
          match elements fuel' r' with
          | Some (vs, rest) => Some (v :: vs, rest)
          | None => None
          end
        else if Ascii.eqb c "]" then Some ([v], r')
        else None
      | [] => None
      end
    end
  end

(** The members of an object from the opening quote of a key, up to and
    with the closing brace. *)
with members (fuel : nat) (s : list byte) {struct fuel}
  : option (list (list byte * Json) * list byte) :=
  match fuel with
  | O => None
  | S fuel' =>
    match s with
    | q :: r =>
      if negb (Ascii.eqb q dquote) then None
      else
        match unquote r with
        | None => None
        | Some (key, r1) =>
          match skipSpace r1 with
          | colon :: r2 =>
            if negb (Ascii.eqb colon ":") then None
            else
              match value fuel' r2 with
              | None => None
              | Some (v, r3) =>
                match skipSpace r3 with
                | c :: r4 =>
                  if Ascii.eqb c "," then
                    match members fuel' (skipSpace r4) with
                    | Some (ms, rest) => Some ((key, v) :: ms, rest)
                    | None => None
                    end
                  else if Ascii.eqb c "}" then Some ([(key, v)], r4)
                  else None
                | [] => None
                end
              end
          | [] => None
          end
        end
    | [] => None
    end
  end.

(** [enough parse fuel]: a result of [parse] with this fuel takes at least
    one byte of the input, and is the result with any fuel that is at least
    the number of bytes taken. *)
Definition enough {A : Type} (parse : nat -> list byte -> option (A * list byte))
    (fuel : nat) : Prop :=
  forall s a rest, parse fuel s = Some (a, rest) ->
    (length rest < length s)%nat /\
    forall fuel', (length s - length rest <= fuel')%nat -> parse fuel' s = Some (a, rest).

(** The first byte of an encoded value: no white space and no closing
    bracket. *)
Definition startsValue (b : list byte) : bool :=
  match b with
  | c :: _ => negb (isSpace c) && negb (Ascii.eqb c "]")
  | [] => false
  end.

(** What follows an encoded value delimits it: a number ends where no
    number goes on; every other value ends by itself. *)
Definition delimits (v : Value) (rest : list byte) : bool :=
  match v with
  | VInt _ => endsNumber rest
  | _ => true
  end.

(** The scanner reads back the encoding of [v], whatever follows it, with
    fuel no more than the length of the encoding. *)
Definition readsBack (v : Value) : Prop :=
  forall b, encode v = inl b ->
    startsValue b = true /\
    exists n, (n <= length b)%nat /\
      forall fuel rest, (n <= fuel)%nat -> delimits v rest = true ->
        value fuel (b ++ rest) = Some (tree_of v, rest).

End json.

(** ** The data of the package *)

(** [time.Time] and [time.Duration], in nanoseconds. *)
Definition Time : Type := Z.
Definition Duration : Type := Z.

Definition minDuration : Duration := (- 2 ^ 63)%Z.
Definition maxDuration : Duration := (2 ^ 63 - 1)%Z.

(** [t.Sub(u)]: the difference, kept within the range of a [Duration]. *)
Definition Time_Sub (t u : Time) : Duration :=
  Z.max minDuration (Z.min maxDuration (t - u)).

(** [peer.Peer]: the identity of a peer.  Its latency changes while the
    node runs and is read through [GetLatency]. *)
Record Peer : Type := { peer_ID : list byte }.

(** [connDiagInfo]. *)
Record connDiagInfo : Type := {
  c_Latency : Duration;
  c_ID : string
}.

(** [diagInfo]: the snapshot of one node. *)
Record diagInfo : Type := {
  ID : string;
  Connections : list connDiagInfo;
  Keys : list string;
  LifeSpan : Duration;
  CodeVersion : string
}.

(** [new(diagInfo)]. *)
Definition new_diagInfo : diagInfo :=
  {| ID := ""; Connections := []; Keys := []; LifeSpan := 0%Z;
     CodeVersion := "" |}.

Definition new_connDiagInfo : connDiagInfo :=
  {| c_Latency := 0%Z; c_ID := "" |}.

(** [Message]: the protocol message, [DiagID] an optional field. *)
Record Message : Type := {
  DiagID : option string;
  Data : list byte
}.

Definition GetDiagID (m : Message) : string :=
  match DiagID m with
  | Some id => id
  | None => ""
  end.

Definition GetData (m : Message) : list byte := Data m.

(** [msg.NetMessage]: what the network delivers and takes, a payload and
    the peer it comes from or goes to; either may be nil. *)
Record NetMessage : Type := {
  mes_Peer : option Peer;
  mes_Data : option (list byte)
}.

(** [net.Network]: the node lists its peers only when its network is an
    [*net.IpfsNetwork]. *)
Inductive Network : Type :=
| IpfsNetwork
| OtherNetwork.

(** [Diagnostics].  The [sender] of the Go struct is the environment (see
    [SendRequest] below); [diagLock] guards [diagMap], whose every access is
    one of the two critical sections [ledgerRegister] and [ledgerClaim]. *)
Record Diagnostics : Type := {
  network : Network;
  self : Peer;
  diagMap : gmap string Time;
  birth : Time
}.

Definition set_diagMap (d : Diagnostics) (m : gmap string Time) : Diagnostics :=
  {| network := network d; self := self d; diagMap := m; birth := birth d |}.

(** ** Snapshots and [encoding/json] *)

(** The snapshot as reflection shows it to [json.Marshal]. *)
Definition value_of_connDiagInfo (c : connDiagInfo) : json.Value :=
  json.VStruct [("Latency", json.VInt (c_Latency c)); ("ID", json.VString (c_ID c))].

Definition value_of_diagInfo (di : diagInfo) : json.Value :=
  json.VStruct
    [("ID", json.VString (ID di));
     ("Connections", json.VSlice (map value_of_connDiagInfo (Connections di)));
     ("Keys", json.VSlice (map json.VString (Keys di)));
     ("LifeSpan", json.VInt (LifeSpan di));
     ("CodeVersion", json.VString (CodeVersion di))].

(** A snapshot that the encoding keeps as it is: its strings are
    well-formed UTF-8 and its durations are in the range of an [int64]. *)
Definition validConnection (c : connDiagInfo) : bool :=
  int64 (c_Latency c) && utf8.ValidString (c_ID c).

Definition validSnapshot (di : diagInfo) : bool :=
  utf8.ValidString (ID di)
  && forallb validConnection (Connections di)
  && forallb utf8.ValidString (Keys di)
  && int64 (LifeSpan di)
  && utf8.ValidString (CodeVersion di).

Module Unmarshal.

Import json.

Local Open Scope Z_scope.

(** Modelled from the spec: the decoder of [encoding/json] (see [json]),
    here its [value], [object], [array] and [literalStore] at the types of
    the snapshot.  A mismatch between the JSON value and the Go type is
    saved and the decoding goes on; the first such error is the result. *)
Definition UnmarshalTypeError (value type : string) : error :=
  errors_New ("json: cannot unmarshal " +:+ value +:+ " into Go value of type " +:+ type).

Definition saveError (saved new : option error) : option error :=
  match saved with
  | Some _ => saved
  | None => new
  end.

(** The name of a JSON value in an [UnmarshalTypeError]. *)
Definition describe (j : Json) : string :=
  match j with
  | JNull => "null"
  | JTrue | JFalse => "bool"
  | JNumber lit => "number " +:+ string_of_list_ascii lit
  | JString _ => "string"
  | JArray _ => "array"
  | JObject _ => "object"
  end.

(** Into a [string]. *)
Definition into_string (j : Json) (v : string) : string * option error :=
  match j with
  | JNull => (v, None)
  | JString s => (string_of_list_ascii s, None)
  | _ => (v, Some (UnmarshalTypeError (describe j) "string"))
  end.

(** Into an [int64]. *)
Definition into_int64 (type : string) (j : Json) (v : Z) : Z * option error :=
  match j with
  | JNull => (v, None)
  | JNumber lit =>
    match strconv.ParseInt lit with
    | Some n => (n, None)
    | None => (v, Some (UnmarshalTypeError (describe j) type))
    end
  | _ => (v, Some (UnmarshalTypeError (describe j) type))
  end.

(** Into a slice: [null] gives the nil slice; the [i]-th element of an
    array is decoded into the [i]-th element of the slice when it has one
    and into a zero element otherwise. *)
Fixpoint into_elems {T : Type} (into : Json -> T -> T * option error) (zero : T)
    (es : list Json) (v : list T) : list T * option error :=
  match es with
  | [] => ([], None)
  | e :: es' =>
    let (x, err) := into e (hd zero v) in
    let (xs, err') := into_elems into zero es' (tl v) in
    (x :: xs, saveError err err')
  end.

Definition into_slice {T : Type} (type : string)
    (into : Json -> T -> T * option error) (zero : T)
    (j : Json) (v : list T) : list T * option error :=
  match j with
  | JNull => ([], None)
  | JArray es => into_elems into zero es v
  | _ => (v, Some (UnmarshalTypeError (describe j) type))
  end.

(** [caseMask]: clearing it maps an ASCII letter to its upper case. *)
Definition upper (b : byte) : Z := Z.land (byte_val b) 0xDF.

Definition isLetter (b : byte) : bool := (65 <=? upper b) && (upper b <=? 90).

Definition kelvin : utf8.rune := 0x212A.
Definition smallLongEss : utf8.rune := 0x017F.

(** [equalFoldRight s t]: [s], a field name in ASCII, and the key [t] are
    equal under Unicode case folding; of the letters only [K] and [S] have
    a partner outside ASCII. *)
Fixpoint equalFoldRight (s t : list byte) : bool :=
  match s with
  | [] => match t with [] => true | _ :: _ => false end
  | sb :: s' =>
    match t with
    | [] => false
    | tb :: t' =>
      if byte_val tb <? utf8.RuneSelf then
        if Ascii.eqb sb tb then equalFoldRight s' t'
        else if isLetter sb && (upper sb =? upper tb) then equalFoldRight s' t'
        else false
      else
        let d := utf8.DecodeRune t in
        let ok :=
          if Ascii.eqb sb "s" || Ascii.eqb sb "S" then fst d =? smallLongEss
          else if Ascii.eqb sb "k" || Ascii.eqb sb "K" then fst d =? kelvin
          else false in
        if ok then equalFoldRight s' (skipn (snd d) t) else false
    end
  end.

(** [asciiEqualFold]. *)
Fixpoint asciiEqualFold (s t : list byte) : bool :=
  match s, t with
  | [], [] => true
  | sb :: s', tb :: t' =>
    if Ascii.eqb sb tb then asciiEqualFold s' t'
    else if isLetter sb && (upper sb =? upper tb) then asciiEqualFold s' t'
    else false
  | _, _ => false
  end.

(** [simpleLetterEqualFold]. *)
Fixpoint simpleLetterEqualFold (s t : list byte) : bool :=
  match s, t with
  | [], [] => true
  | sb :: s', tb :: t' => (upper sb =? upper tb) && simpleLetterEqualFold s' t'
  | _, _ => false
  end.

(** [foldFunc s]: the folding equality for the field name [s], which is in
    ASCII here. *)
Definition foldFunc (s : list byte) : list byte -> list byte -> bool :=
  if existsb (fun b => (upper b =? 75) || (upper b =? 83)) s then equalFoldRight
  else if existsb (fun b => negb (isLetter b)) s then asciiEqualFold
  else simpleLetterEqualFold.

Definition bytes_eqb (s t : list byte) : bool :=
  if decide (s = t) then true else false.

(** The field a key names, by its index: the field whose name is the key
    if there is one, and otherwise the first whose name equals the key
    under case folding. *)
Fixpoint foldField (i : nat) (names : list string) (key : list byte) : option nat :=
  match names with
  | [] => None
  | n :: names' =>
    let nb := list_ascii_of_string n in
    if foldFunc nb nb key then Some i else foldField (S i) names' key
  end.

Fixpoint exactField (i : nat) (names : list string) (key : list byte) : option nat :=
  match names with
  | [] => None
  | n :: names' =>
    if bytes_eqb (list_ascii_of_string n) key then Some i
    else exactField (S i) names' key
  end.

Definition field (names : list string) (key : list byte) : option nat :=
  match exactField 0 names key with
  | Some i => Some i
  | None => foldField 0 names key
  end.

(** Into a struct: each member in turn is decoded into the field its key
    names; a member that names no field is skipped. *)
Fixpoint into_fields {T : Type} (set : option nat -> Json -> T -> T * option error)
    (names : list string) (ms : list (list byte * Json)) (v : T) : T * option error :=
  match ms with
  | [] => (v, None)
  | (key, j) :: ms' =>
    let (v', err) := set (field names key) j v in
    let (v'', err') := into_fields set names ms' v' in
    (v'', saveError err err')
  end.

Definition into_struct {T : Type} (type : string)
    (set : option nat -> Json -> T -> T * option error) (names : list string)
    (j : Json) (v : T) : T * option error :=
  match j with
  | JNull => (v, None)
  | JObject ms => into_fields set names ms v
  | _ => (v, Some (UnmarshalTypeError (describe j) type))
  end.

(** Into a [connDiagInfo]. *)
Definition set_connDiagInfo (f : option nat) (j : Json) (c : connDiagInfo)
  : connDiagInfo * option error :=
  match f with
  | Some 0%nat =>
    let (x, err) := into_int64 "time.Duration" j (c_Latency c) in
    ({| c_Latency := x; c_ID := c_ID c |}, err)
  | Some 1%nat =>
    let (x, err) := into_string j (c_ID c) in
    ({| c_Latency := c_Latency c; c_ID := x |}, err)
  | _ => (c, None)
  end.

Definition into_connDiagInfo : Json -> connDiagInfo -> connDiagInfo * option error :=
  into_struct "diagnostic.connDiagInfo" set_connDiagInfo ["Latency"; "ID"]%string.

(** Into a [diagInfo]. *)
Definition set_diagInfo (f : option nat) (j : Json) (di : diagInfo)
  : diagInfo * option error :=
  match f with
  | Some 0%nat =>
    let (x, err) := into_string j (ID di) in
    ({| ID := x; Connections := Connections di; Keys := Keys di;
        LifeSpan := LifeSpan di; CodeVersion := CodeVersion di |}, err)
  | Some 1%nat =>
    let (x, err) :=
      into_slice "[]diagnostic.connDiagInfo" into_connDiagInfo new_connDiagInfo
        j (Connections di) in
    ({| ID := ID di; Connections := x; Keys := Keys di;
        LifeSpan := LifeSpan di; CodeVersion := CodeVersion di |}, err)
  | Some 2%nat =>
    let (x, err) := into_slice "[]string" into_string ""%string j (Keys di) in
    ({| ID := ID di; Connections := Connections di; Keys := x;
        LifeSpan := LifeSpan di; CodeVersion := CodeVersion di |}, err)
  | Some 3%nat =>
    let (x, err) := into_int64 "time.Duration" j (LifeSpan di) in
    ({| ID := ID di; Connections := Connections di; Keys := Keys di;
        LifeSpan := x; CodeVersion := CodeVersion di |}, err)
  | Some 4%nat =>
    let (x, err) := into_string j (CodeVersion di) in
    ({| ID := ID di; Connections := Connections di; Keys := Keys di;
        LifeSpan := LifeSpan di; CodeVersion := x |}, err)
  | _ => (di, None)
  end.

(** Modelled from the spec: the decoder of [encoding/json] at the type
    [diagInfo], the spec's snapshot with its five fields. *)
Definition into_diagInfo : Json -> diagInfo -> diagInfo * option error :=
  into_struct "diagnostic.diagInfo" set_diagInfo
    ["ID"; "Connections"; "Keys"; "LifeSpan"; "CodeVersion"]%string.

End Unmarshal.

(** [io.EOF]. *)
Definition io_EOF : error := errors_New "EOF".

(** The scanner's error.  One message stands for all of the library's
    syntax errors and for [io.ErrUnexpectedEOF]; the program only tells
    [io.EOF] from the rest. *)
Definition SyntaxError : error := errors_New "json: syntax error".

(** Modelled from the spec: [json.Decoder] is not in the repository; it is
    the spec's "streaming structured-text decoding that consumes exactly one
    object and reports a clean end-of-stream when no more objects remain".
    A decoder is the bytes not yet read.  [Decode dec] is
    [dec.Decode(di)] for a fresh [di := new(diagInfo)]: the next JSON value
    of the stream stored into [di], and the decoder after it.  At the end of
    the stream, white space apart, the error is [io.EOF]. *)
Definition Decoder : Type := list byte.

Definition NewDecoder (buf : list byte) : Decoder := buf.

Definition Decode (dec : Decoder) : Result diagInfo * Decoder :=
  match json.skipSpace dec with
  | [] => (inr io_EOF, [])
  | s =>
    match json.value (length s) s with
    | None => (inr SyntaxError, s)
    | Some (j, rest) =>
      match Unmarshal.into_diagInfo j new_diagInfo with
      | (di, None) => (inl di, rest)
      | (_, Some err) => (inr err, rest)
      end
    end
  end.

(** ** The environment of a node *)

(** [context.Context]: the deadline of a round of requests. *)
Record Context : Type := { deadline : Time }.

Inductive Level : Type :=
| Debug
| Info
| Error_.

(** What the node asks of its collaborators.
    - [time_Now]: [time.Now()].
    - [rand_Read n]: [rand.Read] on a buffer of [n] bytes; the answer is the
      buffer after the call.
    - [GetPeerList]: [n.GetSwarm().GetPeerList()].
    - [GetLatency p]: [p.GetLatency()].
    - [SendRequest ctx mes]: [d.sender.SendRequest(ctx, mes)], the response
      and the error, either of which may be nil.
    - [Log level format]: a line of the log; the arguments of the format
      are left out. *)
Inductive Event : Type -> Type :=
| time_Now : Event Time
| rand_Read (n : nat) : Event (list byte)
| GetPeerList : Event (list Peer)
| GetLatency (p : Peer) : Event Duration
| SendRequest (ctx : Context) (mes : NetMessage)
  : Event (option NetMessage * option error)
| Log (level : Level) (format : string) : Event unit.

(** A program: it returns, panics, or asks the environment and goes on
    with the answer. *)
Inductive Prog (A : Type) : Type :=
| Ret (a : A)
| Panic (e : error)
| Vis (X : Type) (e : Event X) (k : X -> Prog A).

Arguments Ret {A} a.
Arguments Panic {A} e.
Arguments Vis {A X} e k.

Fixpoint bind {A B : Type} (m : Prog A) (f : A -> Prog B) : Prog B :=
  match m with
  | Ret a => f a
  | Panic e => Panic e
  | Vis e k => Vis e (fun x => bind (k x) f)
  end.

Definition trigger {X : Type} (e : Event X) : Prog X := Vis e Ret.

Declare Scope prog_scope.
Delimit Scope prog_scope with prog.
Bind Scope prog_scope with Prog.

Notation "x <- m ;; k" := (bind m (fun x => k))
  (at level 100, m at next level, k at level 200, right associativity) : prog_scope.
Notation "m ;; k" := (bind m (fun _ => k))
  (at level 100, k at level 200, right associativity) : prog_scope.

Local Open Scope prog_scope.

(** How a run of a program ends. *)
Inductive Outcome (A : Type) : Type :=
| Returned (a : A)
| Panicked (e : error).

Arguments Returned {A} a.
Arguments Panicked {A} e.

(** [run handle p w]: the program [p] run in the environment whose state is
    [w] and which answers the event [e] in state [w] with [handle _ e w]. *)
Fixpoint run {W A : Type} (handle : forall X, Event X -> W -> X * W)
    (p : Prog A) (w : W) : Outcome A * W :=
  match p with
  | Ret a => (Returned a, w)
  | Panic e => (Panicked e, w)
  | Vis e k => let (x, w') := handle _ e w in run handle (k x) w'
  end.

(** The events of one run, in order. *)
Inductive AnyEvent : Type :=
| anEvent (X : Type) (e : Event X).

Arguments anEvent {X} e.

Fixpoint trace {W A : Type} (handle : forall X, Event X -> W -> X * W)
    (p : Prog A) (w : W) : list AnyEvent :=
  match p with
  | Ret _ | Panic _ => []
  | Vis e k => anEvent e :: let (x, w') := handle _ e w in trace handle (k x) w'
  end.

(** [returns handle p w]: the program returns, it does not panic. *)
Definition returns {W A : Type} (handle : forall X, Event X -> W -> X * W)
    (p : Prog A) (w : W) : Prop :=
  exists a w', run handle p w = (Returned a, w').

(** ** The package [diagnostic] *)

Section Diagnostic.

(** What the package takes from the rest of the repository and from
    [goprotobuf]: [ID.Pretty], [msg.FromObject] and [proto.Unmarshal]. *)
Variable Pretty : list byte -> string.
Variable msg_FromObject : Peer -> Message -> Result NetMessage.
Variable proto_Unmarshal : list byte -> Result Message.

(** [NewDiagnostics]: the ledger starts empty. *)
Definition NewDiagnostics (self : Peer) (inet : Network) : Prog Diagnostics :=
  now <- trigger time_Now ;;
  Ret {| network := inet; self := self; diagMap := ∅; birth := now |}.

(** [diagInfo.Marshal]. *)
Definition Marshal (di : diagInfo) : Prog (list byte) :=
  match json.Marshal (value_of_diagInfo di) with
  | inr err => Panic err
  | inl b => Ret b
  end.

(** [getPeers]. *)
Definition getPeers (d : Diagnostics) : Prog (list Peer) :=
  match network d with
  | IpfsNetwork => trigger GetPeerList
  | OtherNetwork => Ret []
  end.

(** [time.Since]. *)
Definition time_Since (t : Time) : Prog Duration :=
  now <- trigger time_Now ;;
  Ret (Time_Sub now t).

(** The loop of [getDiagInfo] over the peers. *)
Fixpoint connections (peers : list Peer) (conns : list connDiagInfo)
  : Prog (list connDiagInfo) :=
  match peers with
  | [] => Ret conns
  | p :: peers' =>
    latency <- trigger (GetLatency p) ;;
    connections peers'
      (conns ++ [{| c_Latency := latency; c_ID := Pretty (peer_ID p) |}])
  end.

(** [getDiagInfo]. *)
Definition getDiagInfo (d : Diagnostics) : Prog diagInfo :=
  lifeSpan <- time_Since (birth d) ;;
  peers <- getPeers d ;;
  conns <- connections peers [] ;;
  Ret {| ID := Pretty (peer_ID (self d));
         Connections := conns;
         Keys := [];
         LifeSpan := lifeSpan;
         CodeVersion := "github.com/jbenet/go-ipfs" |}.

(** [newID]. *)
Definition newID : Prog string :=
  id <- trigger (rand_Read 4) ;;
  Ret (string_of_list_ascii id).

(** [newMessage]. *)
Definition newMessage (diagID : string) : Message :=
  {| DiagID := Some diagID; Data := [] |}.

(** [context.WithTimeout(context.TODO(), timeout)]. *)
Definition context_WithTimeout (timeout : Duration) : Prog Context :=
  now <- trigger time_Now ;;
  Ret {| deadline := (now + timeout)%Z |}.

(** [sendRequest]. *)
Definition sendRequest (ctx : Context) (p : Peer) (pmes : Message)
  : Prog (Result Message) :=
  match msg_FromObject p pmes with
  | inr err => Ret (inr err)
  | inl mes =>
    start <- trigger time_Now ;;
    r <- trigger (SendRequest ctx mes) ;;
    let '(rmes, err) := r in
    match err with
    | Some err => Ret (inr err)
    | None =>
      match rmes with
      | None => Ret (inr (errors_New "no response to request"))
      | Some rmes =>
        rtt <- time_Since start ;;
        trigger (Log Info "diagnostic request took: %s") ;;
        match proto_Unmarshal (default [] (mes_Data rmes)) with
        | inr err => Ret (inr err)
        | inl rpmes => Ret (inl rpmes)
        end
      end
    end
  end.

(** [getDiagnosticFromPeer]. *)
Definition getDiagnosticFromPeer (ctx : Context) (p : Peer) (mes : Message)
  : Prog (Result (list byte)) :=
  r <- sendRequest ctx p mes ;;
  match r with
  | inr err => Ret (inr err)
  | inl rpmes => Ret (inl (GetData rpmes))
  end.

(** The critical section of [GetDiagnostic] (lines 101 to 103): the
    originator enters its request in the ledger. *)
Definition ledgerRegister (m : gmap string Time) (diagID : string) (now : Time)
  : gmap string Time :=
  <[diagID := now]> m.

(** The critical section of [handleDiagnostic] (lines 184 to 191): whether
    the request was in the ledger already, and the ledger after the call.
    The clock is read only to enter a new request. *)
Definition ledgerClaim (m : gmap string Time) (diagID : string)
  : Prog (bool * gmap string Time) :=
  match m !! diagID with
  | Some _ => Ret (true, m)
  | None =>
    now <- trigger time_Now ;;
    Ret (false, <[diagID := now]> m)
  end.

(** The inner loop of [GetDiagnostic]: the snapshots of one response.
    [fuel] bounds the iterations; each decodes at least one byte, so one
    more than the length of the response is enough. *)
Fixpoint decodeAll (fuel : nat) (dec : Decoder) (out : list diagInfo)
  : Prog (list diagInfo) :=
  match fuel with
  | O => Ret out
  | S fuel' =>
    match Decode dec with
    | (inr err, _) =>
      (if decide (err = io_EOF) then Ret tt
       else trigger (Log Error_ "error decoding diagInfo: %v")) ;;
      Ret out
    | (inl di, dec') => decodeAll fuel' dec' (out ++ [di])
    end
  end.

(** The loop of [GetDiagnostic] over the peers. *)
Fixpoint gather (ctx : Context) (pmes : Message) (peers : list Peer)
    (out : list diagInfo) : Prog (list diagInfo) :=
  match peers with
  | [] => Ret out
  | p :: peers' =>
    r <- getDiagnosticFromPeer ctx p pmes ;;
    match r with
    | inr err =>
      trigger (Log Error_ "GetDiagnostic error: %v") ;;
      gather ctx pmes peers' out
    | inl data =>
      out' <- decodeAll (S (length data)) (NewDecoder data) out ;;
      gather ctx pmes peers' out'
    end
  end.

(** [GetDiagnostic]: the node after the call, the snapshots and the
    error. *)
Definition GetDiagnostic (d : Diagnostics) (timeout : Duration)
  : Prog (Diagnostics * (list diagInfo * option error)) :=
  ctx <- context_WithTimeout timeout ;;
  diagID <- newID ;;
  now <- trigger time_Now ;;
  let d := set_diagMap d (ledgerRegister (diagMap d) diagID now) in
  trigger (Log Debug "Begin Diagnostic") ;;
  peers <- getPeers d ;;
  trigger (Log Debug "Sending diagnostic request to %d peers.") ;;
  di <- getDiagInfo d ;;
  let out := [di] in
  let pmes := newMessage diagID in
  out <- gather ctx pmes peers out ;;
  Ret (d, (out, None)).

(** The loop of [handleDiagnostic] over the peers.  [buf.Write] returns no
    error. *)
Fixpoint relay (ctx : Context) (pmes : Message) (peers : list Peer)
    (buf : list byte) : Prog (list byte) :=
  match peers with
  | [] => Ret buf
  | p :: peers' =>
    r <- getDiagnosticFromPeer ctx p pmes ;;
    match r with
    | inr err =>
      trigger (Log Error_ "getDiagnostic error: %v") ;;
      relay ctx pmes peers' buf
    | inl out => relay ctx pmes peers' (buf ++ out)
    end
  end.

(** [handleDiagnostic]: the node after the call, the response and the
    error. *)
Definition handleDiagnostic (d : Diagnostics) (p : Peer) (pmes : Message)
  : Prog (Diagnostics * (option Message * option error)) :=
  let resp := newMessage (GetDiagID pmes) in
  c <- ledgerClaim (diagMap d) (GetDiagID pmes) ;;
  let '(found, m) := c in
  if found : bool then Ret (d, (Some resp, None))
  else
    let d := set_diagMap d m in
    di <- getDiagInfo d ;;
    b <- Marshal di ;;
    let buf := b in
    ctx <- context_WithTimeout (10 * 1000000000)%Z ;;
    peers <- getPeers d ;;
    buf <- relay ctx pmes peers buf ;;
    Ret (d, (Some {| DiagID := DiagID resp; Data := buf |}, None)).

(** [fmt.Errorf] with one argument, an error. *)
Definition fmt_Errorf (before : string) (err : error) (after : string) : error :=
  errors_New (before +:+ Error err +:+ after).

(** The line feed that ends some of the formats. *)
Definition newline : string := String "010" EmptyString.

(** [HandleMessage]: the node after the call, the response and the
    error.  The context is not used. *)
Definition HandleMessage (d : Diagnostics) (ctx : Context) (mes : NetMessage)
  : Prog (Diagnostics * (option NetMessage * option error)) :=
  match mes_Data mes with
  | None => Ret (d, (None, Some (errors_New "message did not include Data")))
  | Some mData =>
    match mes_Peer mes with
    | None => Ret (d, (None, Some (errors_New "message did not include a Peer")))
    | Some mPeer =>
      match proto_Unmarshal mData with
      | inr err =>
        Ret (d, (None, Some (fmt_Errorf "Failed to decode protobuf message: " err newline)))
      | inl pmes =>
        trigger (Log Info ("[peer: %s] Got message from [%s]" +:+ newline)) ;;
        r <- handleDiagnostic d mPeer pmes ;;
        let '(d, (rpmes, err)) := r in
        match err with
        | Some err => Ret (d, (None, Some err))
        | None =>
          match rpmes with
          | None => Ret (d, (None, None))
          | Some rpmes =>
            match msg_FromObject mPeer rpmes with
            | inr err =>
              Ret (d, (None, Some (fmt_Errorf "Failed to encode protobuf message: " err newline)))
            | inl rmes => Ret (d, (Some rmes, None))
            end
          end
        end
      end
    end
  end.

(** [snapshotOf handle d di]: [di] is the node's own snapshot, what
    [getDiagInfo] builds for [d] in some state of the environment. *)
Definition snapshotOf {W : Type} (handle : forall X, Event X -> W -> X * W)
    (d : Diagnostics) (di : diagInfo) : Prop :=
  exists w w', run handle (getDiagInfo d) w = (Returned di, w').

End Diagnostic.


(** ** Environments to run the programs in

    [silent]: an environment with no peers, whose clock stands at [0] and
    whose sender gets no response.  [refusing text]: the same, except that
    the sender fails with an error of the given text. *)
Definition silent (X : Type) (e : Event X) (w : unit) : X * unit :=
  match e in Event X return X * unit with
  | time_Now => (0%Z, w)
  | rand_Read n => (repeat "000"%char n, w)
  | GetPeerList => ([], w)
  | GetLatency _ => (0%Z, w)
  | SendRequest _ _ => ((None, None), w)
  | Log _ _ => (tt, w)
  end.

Definition refusing (text : string) (X : Type) (e : Event X) (w : unit) : X * unit :=
  match e in Event X return X * unit with
  | SendRequest _ _ => ((None, Some (errors_New text)), w)
  | e' => silent _ e' w
  end.

(** [answering peers data]: an environment with the peers [peers], whose
    sender gets from every peer a response that carries [data]. *)
Definition answering (peers : list Peer) (data : list byte)
    (X : Type) (e : Event X) (w : unit) : X * unit :=
  match e in Event X return X * unit with
  | GetPeerList => (peers, w)
  | SendRequest _ mes =>
    ((Some {| mes_Peer := mes_Peer mes; mes_Data := Some data |}, None), w)
  | e' => silent _ e' w
  end.

(** Stand-ins for the collaborators: the identity of a peer printed as it
    is, an envelope with an empty payload, a decoder that accepts nothing
    and a decoder that takes the bytes for the payload of a response. *)
Definition plainPretty (id : list byte) : string := string_of_list_ascii id.

Definition emptyEnvelope (p : Peer) (m : Message) : Result NetMessage :=
  inl {| mes_Peer := Some p; mes_Data := Some [] |}.

Definition rejectAll (b : list byte) : Result Message :=
  inr (errors_New "proto: cannot decode").

Definition payloadOnly (b : list byte) : Result Message :=
  inl {| DiagID := None; Data := b |}.

(** ** Snapshots to encode and decode

    [okSnapshot]: a snapshot in ASCII.  [rawSnapshot]: a snapshot whose
    identity is the one byte [0xFF], which is not well-formed UTF-8, and
    [coercedSnapshot], the same with U+FFFD in its place. *)
Definition okSnapshot : diagInfo :=
  {| ID := "QmNode";
     Connections := [{| c_Latency := 1500000%Z; c_ID := "QmPeer" |}];
     Keys := [];
     LifeSpan := 42000000000%Z;
     CodeVersion := "github.com/jbenet/go-ipfs" |}.

Definition rawSnapshot : diagInfo :=
  {| ID := String "255" EmptyString;
     Connections := [];
     Keys := [];
     LifeSpan := 1%Z;
     CodeVersion := "github.com/jbenet/go-ipfs" |}.

Definition coercedSnapshot : diagInfo :=
  {| ID := String "239" (String "191" (String "189" EmptyString));
     Connections := [];
     Keys := [];
     LifeSpan := 1%Z;
     CodeVersion := "github.com/jbenet/go-ipfs" |}.

(** The bytes [json.Marshal] writes for a snapshot; empty if it fails. *)
Definition bytesOf (di : diagInfo) : list byte :=
  match json.Marshal (value_of_diagInfo di) with
  | inl b => b
  | inr _ => []
  end.

(** ** The requests of a run

    [requests evs]: the calls of the sender among the events [evs], in
    order, each with its context and its envelope. *)
Definition request (ev : AnyEvent) : list (Context * NetMessage) :=
  match ev with
  | anEvent e =>
    match e with
    | SendRequest ctx mes => [(ctx, mes)]
    | _ => []
    end
  end.

Definition requests (evs : list AnyEvent) : list (Context * NetMessage) :=
  flat_map request evs.

(** [envelopes FromObject ctx pmes peers]: the message [pmes] in its
    envelope for each of [peers] in order, the peers left out for which the
    envelope cannot be built. *)
Definition envelopes (FromObject : Peer -> Message -> Result NetMessage)
    (ctx : Context) (pmes : Message) (peers : list Peer)
  : list (Context * NetMessage) :=
  flat_map (fun p => match FromObject p pmes with
                     | inl mes => [(ctx, mes)]
                     | inr _ => []
                     end) peers.

(** [answered answer peers]: what the peers that answer hold, in the order
    of the peers; a peer with no answer adds nothing. *)
Definition answered {A : Type} (answer : Peer -> option (list A))
    (peers : list Peer) : list A :=
  flat_map (fun p => default [] (answer p)) peers.

(** ** The errors of a run

    [errorLines evs]: the formats of the lines written to the log at the
    level of an error among the events [evs], in order. *)
Definition errorLine (ev : AnyEvent) : list string :=
  match ev with
  | anEvent e =>
    match e with
    | Log Error_ format => [format]
    | _ => []
    end
  end.

Definition errorLines (evs : list AnyEvent) : list string :=
  flat_map errorLine evs.


(** ** A round seen from outside

    What a round returns is told from what the sender answered.  The
    definitions below are not taken from the program: they say what a round
    is to return, for the theorems to compare with what it does return. *)

(** [responses handle p w]: what the sender returned to each request of the
    run of [p] from the state [w], in order. *)
Fixpoint responses {W A : Type} (handle : forall X, Event X -> W -> X * W)
    (p : Prog A) (w : W) : list (option NetMessage * option error) :=
  match p with
  | Ret _ | Panic _ => []
  | Vis e k =>
    let (x, w') := handle _ e w in
    match e in Event X return X -> list (option NetMessage * option error) with
    | SendRequest _ _ => fun a => [a]
    | _ => fun _ => []
    end x ++ responses handle (k x) w'
  end.

(** [payloadOf Unmarshal a]: what a request comes to when the sender
    returns [a].  It fails with the error of the sender (a failure of the
    transport), with "no response to request" when the sender returns
    neither a response nor an error, and with the error of [Unmarshal] when
    the response does not decode; otherwise it is the payload of the
    response. *)
Definition payloadOf (Unmarshal : list byte -> Result Message)
    (a : option NetMessage * option error) : Result (list byte) :=
  match a with
  | (_, Some err) => inr err
  | (None, None) => inr (errors_New "no response to request")
  | (Some rmes, None) =>
    match Unmarshal (default [] (mes_Data rmes)) with
    | inr err => inr err
    | inl rpmes => inl (GetData rpmes)
    end
  end.

(** [outcomes FromObject Unmarshal pmes peers answers]: what the request
    [pmes] came to for each of [peers], in order, when the sender returned
    [answers].  A peer for which the envelope cannot be built fails with the
    error of the envelope and takes no answer, since the sender is not
    called for it; every other peer takes the next answer.  The list stops
    short when the answers run out. *)
Fixpoint outcomes (FromObject : Peer -> Message -> Result NetMessage)
    (Unmarshal : list byte -> Result Message) (pmes : Message)
    (peers : list Peer) (answers : list (option NetMessage * option error))
  : list (Result (list byte)) :=
  match peers with
  | [] => []
  | p :: peers' =>
    match FromObject p pmes with
    | inr err => inr err :: outcomes FromObject Unmarshal pmes peers' answers
    | inl _ =>
      match answers with
      | [] => []
      | a :: answers' =>
        payloadOf Unmarshal a :: outcomes FromObject Unmarshal pmes peers' answers'
      end
    end
  end.

(** [decoded fuel dec]: the snapshots at the head of the stream [dec], up to
    the end of the stream or to the first value that does not decode as a
    snapshot, and the error that ended them if it is not [io.EOF].  What
    follows that error in the stream is not read. *)
Fixpoint decoded (fuel : nat) (dec : Decoder) : list diagInfo * option error :=
  match fuel with
  | O => ([], None)
  | S fuel' =>
    match Decode dec with
    | (inr err, _) => ([], if decide (err = io_EOF) then None else Some err)
    | (inl di, dec') =>
      let (ds, e) := decoded fuel' dec' in (di :: ds, e)
    end
  end.

(** The snapshots in a payload. *)
Definition snapshotsIn (data : list byte) : list diagInfo :=
  fst (decoded (S (length data)) (NewDecoder data)).

(** What the originator is to gather from the outcome of a request, and
    what it is to log at the level of an error. *)
Definition gathered (o : Result (list byte)) : list diagInfo :=
  match o with
  | inl data => snapshotsIn data
  | inr _ => []
  end.

Definition gatherLines (o : Result (list byte)) : list string :=
  match o with
  | inr _ => ["GetDiagnostic error: %v"%string]
  | inl data =>
    match snd (decoded (S (length data)) (NewDecoder data)) with
    | Some _ => ["error decoding diagInfo: %v"%string]
    | None => []
    end
  end.

(** What the responder is to relay from the outcome of a request, and what
    it is to log at the level of an error. *)
Definition relayed (o : Result (list byte)) : list byte :=
  match o with
  | inl data => data
  | inr _ => []
  end.

Definition relayLines (o : Result (list byte)) : list string :=
  match o with
  | inr _ => ["getDiagnostic error: %v"%string]
  | inl _ => []
  end.

(** ** The life of a node

    [Call]: a call of one of the operations that reach the ledger.
    [calls cs d]: the calls [cs] made one after the other on the node [d],
    each on the node the one before left; the result is the node after the
    last. *)
Inductive Call : Type :=
| CallGetDiagnostic (timeout : Duration)
| CallHandleDiagnostic (p : Peer) (pmes : Message)
| CallHandleMessage (ctx : Context) (mes : NetMessage).

Definition call (Pretty : list byte -> string)
    (FromObject : Peer -> Message -> Result NetMessage)
    (Unmarshal : list byte -> Result Message)
    (c : Call) (d : Diagnostics) : Prog Diagnostics :=
  match c with
  | CallGetDiagnostic timeout =>
    bind (GetDiagnostic Pretty FromObject Unmarshal d timeout) (fun r => Ret (fst r))
  | CallHandleDiagnostic p pmes =>
    bind (handleDiagnostic Pretty FromObject Unmarshal d p pmes) (fun r => Ret (fst r))
  | CallHandleMessage ctx mes =>
    bind (HandleMessage Pretty FromObject Unmarshal d ctx mes) (fun r => Ret (fst r))
  end.

Fixpoint calls (Pretty : list byte -> string)
    (FromObject : Peer -> Message -> Result NetMessage)
    (Unmarshal : list byte -> Result Message)
    (cs : list Call) (d : Diagnostics) : Prog Diagnostics :=
  match cs with
  | [] => Ret d
  | c :: cs' =>
    bind (call Pretty FromObject Unmarshal c d)
         (fun d' => calls Pretty FromObject Unmarshal cs' d')
  end.

(** [answeringOnly who peers data]: as [answering peers data], except that
    the sender fails for every peer but [who], as when the deadline of the
    context has passed.  It tells the peer from the envelope. *)
Definition answeringOnly (who : Peer) (peers : list Peer) (data : list byte)
    (X : Type) (e : Event X) (w : unit) : X * unit :=
  match e in Event X return X * unit with
  | SendRequest _ mes =>
    if decide (option_map peer_ID (mes_Peer mes) = Some (peer_ID who))
    then ((Some {| mes_Peer := mes_Peer mes; mes_Data := Some data |}, None), w)
    else ((None, Some (errors_New "context deadline exceeded")), w)
  | e' => answering peers data _ e' w
  end.
(** * Properties *)

(** ** Programs and their runs *)

Section Runs.

Context {W : Type} (handle : forall X, Event X -> W -> X * W).

Lemma run_bind {A B : Type} (m : Prog A) (f : A -> Prog B) (w : W) :
  run handle (bind m f) w =
  match run handle m w with
  | (Returned a, w') => run handle (f a) w'
  | (Panicked e, w') => (Panicked e, w')
  end.
Proof.
  revert w. induction m as [a | e | X e k IH]; intros w; simpl; try reflexivity.
  destruct (handle X e w) as [x w']. apply IH.
Qed.

Lemma run_trigger {X : Type} (e : Event X) (w : W) :
  run handle (trigger e) w = (Returned (fst (handle X e w)), snd (handle X e w)).
Proof. unfold trigger. simpl. destruct (handle X e w); reflexivity. Qed.

Lemma trace_bind {A B : Type} (m : Prog A) (f : A -> Prog B) (w : W) :
  trace handle (bind m f) w =
  trace handle m w ++
  match run handle m w with
  | (Returned a, w') => trace handle (f a) w'
  | (Panicked e, w') => []
  end.
Proof.
  revert w. induction m as [a | e | X e k IH]; intros w; simpl; try reflexivity.
  destruct (handle X e w) as [x w']. f_equal. apply IH.
Qed.

Lemma returns_bind {A B : Type} (m : Prog A) (f : A -> Prog B) (w : W) :
  returns handle m w -> (forall a w', returns handle (f a) w') -> returns handle (bind m f) w.
Proof.
  intros (a & w' & Hm) Hf. unfold returns. rewrite run_bind, Hm. apply Hf.
Qed.

Lemma returns_trigger {X : Type} (e : Event X) (w : W) : returns handle (trigger e) w.
Proof. unfold returns. rewrite run_trigger. eauto. Qed.

Lemma returns_Ret {A : Type} (a : A) (w : W) : returns handle (Ret a) w.
Proof. unfold returns. simpl. eauto. Qed.

End Runs.

(** ** The encoder of [encoding/json] *)

(** Induction on a value and on the values inside it. *)
Lemma Value_nested_ind (P : json.Value -> Prop) :
  (forall s, P (json.VString s)) ->
  (forall i, P (json.VInt i)) ->
  (forall es, Forall P es -> P (json.VSlice es)) ->
  (forall fs, Forall (fun f => P (snd f)) fs -> P (json.VStruct fs)) ->
  P json.VChan ->
  P json.VFunc ->
  forall v, P v.
Proof.
  intros Hs Hi Hsl Hst Hc Hf.
  fix IH 1. intros [s | i | es | fs | |].
  - apply Hs.
  - apply Hi.
  - apply Hsl. induction es as [| e es IHes]; constructor.
    + apply IH.
    + exact IHes.
  - apply Hst. induction fs as [| [n v] fs IHfs]; constructor.
    + apply IH.
    + exact IHfs.
  - exact Hc.
  - exact Hf.
Qed.

Lemma encode_VSlice (es : list json.Value) :
  json.encode (json.VSlice es) =
  match es with
  | [] => inl (list_ascii_of_string "null")
  | _ :: _ =>
    match json.encode_elems true es with
    | inr err => inr err
    | inl xs => inl ("["%char :: xs)
    end
  end.
Proof.
  destruct es as [| e es]; [reflexivity |].
  change (json.encode (json.VSlice (e :: es))) with
    (match (fix elems (first : bool) (es : list json.Value) : Result (list ascii) :=
              match es with
              | [] => inl ["]"%char]
              | e :: es' =>
                match json.encode e with
                | inr err => inr err
                | inl x =>
                  match elems false es' with
                  | inr err => inr err
                  | inl xs => inl (json.comma first ++ x ++ xs)
                  end
                end
              end) true (e :: es) with
     | inr err => inr err
     | inl xs => inl ("["%char :: xs)
     end).
  reflexivity.
Qed.

Lemma encode_VStruct (fs : list (string * json.Value)) :
  json.encode (json.VStruct fs) =
  match json.encode_fields true fs with
  | inr err => inr err
  | inl xs => inl ("{"%char :: xs)
  end.
Proof. reflexivity. Qed.

Lemma encode_elems_supported (es : list json.Value) :
  Forall (fun v => json.supported v = true -> exists b, json.encode v = inl b) es ->
  forallb json.supported es = true ->
  forall first, exists xs, json.encode_elems first es = inl xs.
Proof.
  induction es as [| e es IHes]; intros IH Hv first; simpl; [eauto |].
  simpl in Hv. apply andb_true_iff in Hv as [He Hes].
  inversion IH as [| ? ? IHe IHes']; subst.
  destruct (IHe He) as [x ->].
  destruct (IHes IHes' Hes false) as [xs ->]. eauto.
Qed.

Lemma encode_fields_supported (fs : list (string * json.Value)) :
  Forall (fun f => json.supported (snd f) = true ->
                   exists b, json.encode (snd f) = inl b) fs ->
  forallb (fun f => json.supported (snd f)) fs = true ->
  forall first, exists xs, json.encode_fields first fs = inl xs.
Proof.
  induction fs as [| [n v] fs IHfs]; intros IH Hv first; simpl; [eauto |].
  simpl in Hv. apply andb_true_iff in Hv as [He Hes].
  inversion IH as [| ? ? IHe IHes']; subst. simpl in IHe.
  destruct (IHe He) as [x ->].
  destruct (IHfs IHes' Hes false) as [xs ->]. eauto.
Qed.

(** The encoder fails on channels and functions only. *)
Lemma encode_supported (v : json.Value) :
  json.supported v = true -> exists b, json.encode v = inl b.
Proof.
  induction v as [s | i | es IH | fs IH | |] using Value_nested_ind;
    intros Hv; try discriminate; try (simpl; eauto; fail).
  - rewrite encode_VSlice. destruct es as [| e0 es0]; [eauto |].
    destruct (encode_elems_supported _ IH Hv true) as [xs ->]. eauto.
  - rewrite encode_VStruct.
    destruct (encode_fields_supported _ IH Hv true) as [xs ->]. eauto.
Qed.

Lemma supported_diagInfo (di : diagInfo) :
  json.supported (value_of_diagInfo di) = true.
Proof.
  unfold value_of_diagInfo. simpl. rewrite !andb_true_r.
  apply andb_true_iff. split.
  - induction (Connections di); simpl; auto.
  - induction (Keys di); simpl; auto.
Qed.

Lemma Marshal_diagInfo (di : diagInfo) :
  exists b, json.Marshal (value_of_diagInfo di) = inl b.
Proof. apply encode_supported, supported_diagInfo. Qed.

(** ** The package [diagnostic]: its programs return *)

Section DiagnosticRuns.

Context {W : Type} (handle : forall X, Event X -> W -> X * W).

Variable Pretty : list byte -> string.
Variable msg_FromObject : Peer -> Message -> Result NetMessage.
Variable proto_Unmarshal : list byte -> Result Message.

(** Runs one step of a program: an event, or a [bind]. *)
Ltac run_step :=
  match goal with
  | |- context [run handle (bind _ _) _] => rewrite run_bind
  | |- context [run handle (trigger _) _] => rewrite run_trigger
  | |- context [run handle (Ret _) _] => progress simpl
  end.

Lemma Marshal_returns (di : diagInfo) :
  exists b, Marshal di = Ret b /\ json.Marshal (value_of_diagInfo di) = inl b.
Proof.
  destruct (Marshal_diagInfo di) as [b Hb]. exists b. split; [| exact Hb].
  unfold Marshal. rewrite Hb. reflexivity.
Qed.

Lemma getPeers_returns (d : Diagnostics) (w : W) : returns handle (getPeers d) w.
Proof.
  unfold getPeers. destruct (network d).
  - apply returns_trigger.
  - apply returns_Ret.
Qed.

Lemma run_connections (peers : list Peer) (conns : list connDiagInfo) (w : W) :
  exists more w',
    run handle (connections Pretty peers conns) w = (Returned (conns ++ more), w') /\
    map c_ID more = map (fun p => Pretty (peer_ID p)) peers.
Proof.
  revert conns w. induction peers as [| p peers IH]; intros conns w.
  - exists [], w. simpl. rewrite app_nil_r. auto.
  - simpl. destruct (handle Duration (GetLatency p) w) as [latency w1].
    destruct (IH (conns ++ [{| c_Latency := latency; c_ID := Pretty (peer_ID p) |}]) w1)
      as (more & w' & Hrun & Hids).
    exists ({| c_Latency := latency; c_ID := Pretty (peer_ID p) |} :: more), w'.
    rewrite Hrun, <- app_assoc. simpl. rewrite Hids. auto.
Qed.

(** The snapshot [getDiagInfo] builds: the identity of the node, no key,
    the version of the code, the time since the birth of the node, and one
    connection for each peer of the list. *)
Lemma run_getDiagInfo (d : Diagnostics) (w : W) :
  exists di w',
    run handle (getDiagInfo Pretty d) w = (Returned di, w') /\
    ID di = Pretty (peer_ID (self d)) /\
    Keys di = [] /\
    CodeVersion di = "github.com/jbenet/go-ipfs"%string /\
    LifeSpan di = Time_Sub (fst (handle _ time_Now w)) (birth d) /\
    exists peers,
      fst (run handle (getPeers d) (snd (handle _ time_Now w))) = Returned peers /\
      map c_ID (Connections di) = map (fun p => Pretty (peer_ID p)) peers.
Proof.
  unfold getDiagInfo, time_Since. simpl.
  destruct (handle Time time_Now w) as [now w1]. simpl.
  rewrite run_bind.
  destruct (getPeers_returns d w1) as (peers & w2 & Hpeers). rewrite Hpeers.
  rewrite run_bind.
  destruct (run_connections peers [] w2) as (conns & w3 & Hconns & Hids).
  rewrite Hconns. simpl.
  eexists _, w3. repeat split; try reflexivity.
  exists peers. simpl. auto.
Qed.

Lemma getDiagInfo_returns (d : Diagnostics) (w : W) :
  returns handle (getDiagInfo Pretty d) w.
Proof. destruct (run_getDiagInfo d w) as (di & w' & H & _). exists di, w'. exact H. Qed.

Lemma sendRequest_returns (ctx : Context) (p : Peer) (pmes : Message) (w : W) :
  returns handle (sendRequest msg_FromObject proto_Unmarshal ctx p pmes) w.
Proof.
  unfold sendRequest. destruct (msg_FromObject p pmes) as [mes | err].
  2: apply returns_Ret.
  unfold returns. simpl.
  destruct (handle Time time_Now w) as [start w1].
  destruct (handle _ (SendRequest ctx mes) w1) as [[rmes err] w2].
  destruct err as [err |]; [simpl; eauto |].
  destruct rmes as [rmes |]; [| simpl; eauto].
  unfold time_Since. simpl.
  destruct (handle Time time_Now w2) as [now w3]. simpl.
  destruct (handle unit (Log Info _) w3) as [[] w4].
  destruct (proto_Unmarshal _); simpl; eauto.
Qed.

Lemma getDiagnosticFromPeer_returns (ctx : Context) (p : Peer) (mes : Message) (w : W) :
  returns handle (getDiagnosticFromPeer msg_FromObject proto_Unmarshal ctx p mes) w.
Proof.
  unfold getDiagnosticFromPeer. apply returns_bind.
  - apply sendRequest_returns.
  - intros [rpmes | err] w'; apply returns_Ret.
Qed.

(** The decoding loop keeps what was gathered before it and adds to it. *)
Lemma run_decodeAll (fuel : nat) (dec : Decoder) (out : list diagInfo) (w : W) :
  exists more w',
    run handle (decodeAll fuel dec out) w = (Returned (out ++ more), w').
Proof.
  revert dec out w. induction fuel as [| fuel IH]; intros dec out w.
  - exists [], w. simpl. rewrite app_nil_r. reflexivity.
  - simpl. destruct (Decode dec) as [[di | err] dec'].
    + destruct (IH dec' (out ++ [di]) w) as (more & w' & Hrun).
      exists (di :: more), w'. rewrite Hrun, <- app_assoc. reflexivity.
    + exists []. rewrite app_nil_r. destruct (decide (err = io_EOF)); simpl.
      * eauto.
      * destruct (handle unit _ w) as [[] w']. eauto.
Qed.

(** The loop over the peers keeps what was gathered before it. *)
Lemma run_gather (ctx : Context) (pmes : Message) (peers : list Peer)
    (out : list diagInfo) (w : W) :
  exists more w',
    run handle (gather msg_FromObject proto_Unmarshal ctx pmes peers out) w =
    (Returned (out ++ more), w').
Proof.
  revert out w. induction peers as [| p peers IH]; intros out w.
  - exists [], w. simpl. rewrite app_nil_r. reflexivity.
  - cbn [gather]. rewrite run_bind.
    destruct (getDiagnosticFromPeer_returns ctx p pmes w) as ([data | err] & w1 & Hp);
      rewrite Hp.
    + rewrite run_bind.
      destruct (run_decodeAll (S (length data)) (NewDecoder data) out w1)
        as (more1 & w2 & Hdec).
      rewrite Hdec.
      destruct (IH (out ++ more1) w2) as (more2 & w3 & Hrest).
      exists (more1 ++ more2), w3. rewrite Hrest, app_assoc. reflexivity.
    + simpl. destruct (handle unit _ w1) as [[] w2]. apply IH.
Qed.

(** The relaying loop keeps what the buffer holds and adds to it. *)
Lemma run_relay (ctx : Context) (pmes : Message) (peers : list Peer)
    (buf : list byte) (w : W) :
  exists more w',
    run handle (relay msg_FromObject proto_Unmarshal ctx pmes peers buf) w =
    (Returned (buf ++ more), w').
Proof.
  revert buf w. induction peers as [| p peers IH]; intros buf w.
  - exists [], w. simpl. rewrite app_nil_r. reflexivity.
  - simpl. rewrite run_bind.
    destruct (getDiagnosticFromPeer_returns ctx p pmes w) as ([data | err] & w1 & Hp);
      rewrite Hp.
    + destruct (IH (buf ++ data) w1) as (more & w2 & Hrest).
      exists (data ++ more), w2. rewrite Hrest, app_assoc. reflexivity.
    + simpl. destruct (handle unit _ w1) as [[] w2]. apply IH.
Qed.

End DiagnosticRuns.

(** ** The package [diagnostic]: what its operations do *)

Section DiagnosticProperties.

Context {W : Type} (handle : forall X, Event X -> W -> X * W).

Variable Pretty : list byte -> string.
Variable msg_FromObject : Peer -> Message -> Result NetMessage.
Variable proto_Unmarshal : list byte -> Result Message.

Lemma ledgerRegister_grows (m : gmap string Time) (diagID : string) (now : Time) :
  dom m ⊆ dom (ledgerRegister m diagID now).
Proof. unfold ledgerRegister. rewrite dom_insert_L. set_solver. Qed.

(** A claim: the answer says whether the request was in the ledger; the
    ledger afterwards holds it and everything it held before. *)
Lemma run_ledgerClaim (m : gmap string Time) (diagID : string) (w : W) :
  exists found m' w',
    run handle (ledgerClaim m diagID) w = (Returned (found, m'), w') /\
    (found = false <-> m !! diagID = None) /\
    is_Some (m' !! diagID) /\
    m ⊆ m' /\
    (found = true -> m' = m /\ w' = w) /\
    (found = false -> m' = <[diagID := fst (handle _ time_Now w)]> m).
Proof.
  unfold ledgerClaim. destruct (m !! diagID) as [t |] eqn:Hm.
  - exists true, m, w. simpl. repeat split; eauto; done.
  - simpl. destruct (handle Time time_Now w) as [now w'].
    exists false, (<[diagID := now]> m), w'. simpl.
    split; [reflexivity |]. split; [done |]. split; [| split; [| done]].
    + rewrite lookup_insert_eq. eauto.
    + by apply insert_subseteq.
Qed.

Lemma ledgerClaim_present (m : gmap string Time) (diagID : string) :
  diagID ∈ dom m -> ledgerClaim m diagID = Ret (true, m).
Proof.
  intros [t Ht]%elem_of_dom. unfold ledgerClaim. rewrite Ht. reflexivity.
Qed.

(** [handleDiagnostic] in full.  It returns a response that carries the
    identifier of the request.  When the request is in the ledger already
    the node and the environment are left as they were and the payload is
    empty; otherwise the request is entered and the payload is the
    encoding of the node's own snapshot followed by what the peers sent. *)
Lemma run_handleDiagnostic (d : Diagnostics) (p : Peer) (pmes : Message) (w : W) :
  exists d' resp w',
    run handle (handleDiagnostic Pretty msg_FromObject proto_Unmarshal d p pmes) w =
    (Returned (d', (Some resp, None)), w') /\
    DiagID resp = Some (GetDiagID pmes) /\
    match diagMap d !! GetDiagID pmes with
    | Some _ => d' = d /\ Data resp = [] /\ w' = w
    | None =>
      d' = set_diagMap d (<[GetDiagID pmes := fst (handle _ time_Now w)]> (diagMap d)) /\
      exists di b more,
        snapshotOf Pretty handle d' di /\
        json.Marshal (value_of_diagInfo di) = inl b /\
        Data resp = b ++ more
    end.
Proof.
  unfold handleDiagnostic. rewrite run_bind. unfold ledgerClaim.
  destruct (diagMap d !! GetDiagID pmes) as [t |] eqn:Hm.
  - simpl. eexists d, _, w. repeat split; reflexivity.
  - cbn [bind trigger run]. destruct (handle Time time_Now w) as [now w1]. cbn [fst].
    set (d1 := set_diagMap d (<[GetDiagID pmes := now]> (diagMap d))).
    rewrite run_bind.
    destruct (run_getDiagInfo handle Pretty d1 w1) as (di & w2 & Hdi & _).
    rewrite Hdi.
    destruct (Marshal_returns di) as (b & Hb & Hjson). rewrite Hb. cbn [bind].
    unfold context_WithTimeout. cbn [bind trigger run].
    destruct (handle Time time_Now w2) as [now2 w3].
    rewrite run_bind.
    destruct (getPeers_returns handle d1 w3) as (peers & w4 & Hpeers). rewrite Hpeers.
    rewrite run_bind.
    destruct (run_relay handle msg_FromObject proto_Unmarshal
                {| deadline := (now2 + 10 * 1000000000)%Z |} pmes peers b w4)
      as (more & w5 & Hrelay).
    rewrite Hrelay. cbn [run].
    eexists d1, _, w5. split; [reflexivity |]. split; [reflexivity |].
    split; [reflexivity |]. exists di, b, more. repeat split; try done.
    exists w1, w2. exact Hdi.
Qed.

(** [GetDiagnostic] in full: it returns, with no error, the node's own
    snapshot followed by what the peers sent, and it has entered one
    request in the ledger. *)
Lemma run_GetDiagnostic (d : Diagnostics) (timeout : Duration) (w : W) :
  exists d' di more w',
    run handle (GetDiagnostic Pretty msg_FromObject proto_Unmarshal d timeout) w =
    (Returned (d', (di :: more, None)), w') /\
    snapshotOf Pretty handle d' di /\
    (exists diagID now, d' = set_diagMap d (ledgerRegister (diagMap d) diagID now)) /\
    ((forall w0, fst (run handle (getPeers d) w0) = Returned []) ->
     more = [] /\ Connections di = []).
Proof.
  unfold GetDiagnostic, context_WithTimeout, newID. cbn [bind trigger run].
  destruct (handle Time time_Now w) as [t0 w1].
  destruct (handle _ (rand_Read 4) w1) as [id w2].
  destruct (handle Time time_Now w2) as [now w3].
  destruct (handle unit (Log Debug "Begin Diagnostic") w3) as [[] w4].
  set (d1 := set_diagMap d (ledgerRegister (diagMap d) (string_of_list_ascii id) now)).
  rewrite run_bind.
  destruct (getPeers_returns handle d1 w4) as (peers & w5 & Hpeers). rewrite Hpeers.
  cbn [bind run].
  destruct (handle unit (Log Debug _) w5) as [[] w6].
  rewrite run_bind.
  destruct (run_getDiagInfo handle Pretty d1 w6)
    as (di & w7 & Hdi & _ & _ & _ & _ & peers' & Hpeers' & Hconns).
  rewrite Hdi. rewrite run_bind.
  destruct (run_gather handle msg_FromObject proto_Unmarshal
              {| deadline := (t0 + timeout)%Z |}
              (newMessage (string_of_list_ascii id)) peers [di] w7)
    as (more & w8 & Hgather).
  rewrite Hgather. cbn [run app].
  exists d1, di, more, w8. split; [reflexivity |]. split; [| split].
  - exists w6, w7. exact Hdi.
  - eauto.
  - intros Hnone. split.
    + pose proof (Hnone w4) as H4. change (getPeers d) with (getPeers d1) in H4.
      rewrite Hpeers in H4. simpl in H4. injection H4 as ->.
      simpl in Hgather. injection Hgather as Hmore _.
      destruct more; [reflexivity | discriminate].
    + pose proof (Hnone (snd (handle Time time_Now w6))) as H6.
      change (getPeers d) with (getPeers d1) in H6.
      rewrite H6 in Hpeers'. injection Hpeers' as <-.
      destruct (Connections di); [reflexivity | discriminate].
Qed.

(** [HandleMessage] returns; it changes the node only through
    [handleDiagnostic]. *)
Lemma run_HandleMessage (d : Diagnostics) (ctx : Context) (mes : NetMessage) (w : W) :
  exists d' r w',
    run handle (HandleMessage Pretty msg_FromObject proto_Unmarshal d ctx mes) w =
    (Returned (d', r), w') /\
    (d' = d \/
     exists p pmes w0 r0 w0',
       run handle (handleDiagnostic Pretty msg_FromObject proto_Unmarshal d p pmes) w0 =
       (Returned (d', r0), w0')).
Proof.
  unfold HandleMessage.
  destruct (mes_Data mes) as [mData |]; [| simpl; eauto 10].
  destruct (mes_Peer mes) as [mPeer |]; [| simpl; eauto 10].
  destruct (proto_Unmarshal mData) as [pmes | err]; [| simpl; eauto 10].
  cbn [bind trigger run].
  destruct (handle unit _ w) as [[] w1].
  rewrite run_bind.
  destruct (run_handleDiagnostic d mPeer pmes w1) as (d' & resp & w2 & Hrun & _).
  rewrite Hrun.
  destruct (msg_FromObject mPeer resp) as [rmes | err]; simpl;
    eexists d', _, w2; (split; [reflexivity |]); right; eauto 10.
Qed.

End DiagnosticProperties.

(** ** The responder *)

(** C2.  When the identifier of an inbound request is in the ledger of the
    node already, [handleDiagnostic] is the program that returns at once:
    the node is unchanged, there is no error, and the response carries the
    identifier and an empty payload.  It asks nothing of its environment:
    no clock, no peer list, no latency, no request to a peer. *)
Theorem handleDiagnostic_duplicate :
  forall (Pretty : list byte -> string)
         (msg_FromObject : Peer -> Message -> Result NetMessage)
         (proto_Unmarshal : list byte -> Result Message)
         (d : Diagnostics) (p : Peer) (pmes : Message),
  GetDiagID pmes ∈ dom (diagMap d) ->
  handleDiagnostic Pretty msg_FromObject proto_Unmarshal d p pmes =
  Ret (d, (Some {| DiagID := Some (GetDiagID pmes); Data := [] |}, None)) /\
  forall (W : Type) (handle : forall X, Event X -> W -> X * W) (w : W),
    trace handle (handleDiagnostic Pretty msg_FromObject proto_Unmarshal d p pmes) w = [].
Proof.
  intros Pretty msg_FromObject proto_Unmarshal d p pmes Hin.
  assert (handleDiagnostic Pretty msg_FromObject proto_Unmarshal d p pmes =
          Ret (d, (Some {| DiagID := Some (GetDiagID pmes); Data := [] |}, None))) as ->.
  { unfold handleDiagnostic. rewrite (ledgerClaim_present _ _ Hin). reflexivity. }
  split; reflexivity.
Qed.

Lemma handleDiagnostic_duplicate_witness :
  let d := {| network := IpfsNetwork; self := {| peer_ID := [] |};
              diagMap := {[ "abcd"%string := 7%Z ]}; birth := 0%Z |} in
  let pmes := {| DiagID := Some "abcd"%string; Data := [] |} in
  handleDiagnostic plainPretty emptyEnvelope rejectAll d {| peer_ID := [] |} pmes =
  Ret (d, (Some {| DiagID := Some "abcd"%string; Data := [] |}, None)) /\
  trace silent (handleDiagnostic plainPretty emptyEnvelope rejectAll d {| peer_ID := [] |} pmes) tt = [].
Proof.
  intros d pmes.
  destruct (handleDiagnostic_duplicate plainPretty emptyEnvelope rejectAll d
              {| peer_ID := [] |} pmes) as [H1 H2].
  - apply elem_of_dom. exists 7%Z. reflexivity.
  - split; [exact H1 | apply H2].
Defined.

(** ** The originator *)

(** C3.  When the node has no connected peer (its peer list is empty in
    every state of the environment), [GetDiagnostic] returns one snapshot,
    the node's own, and no error. *)
Theorem GetDiagnostic_no_peers :
  forall (W : Type) (handle : forall X, Event X -> W -> X * W)
         (Pretty : list byte -> string)
         (msg_FromObject : Peer -> Message -> Result NetMessage)
         (proto_Unmarshal : list byte -> Result Message)
         (d : Diagnostics) (timeout : Duration) (w : W),
  (forall w0, fst (run handle (getPeers d) w0) = Returned []) ->
  exists d' di w',
    run handle (GetDiagnostic Pretty msg_FromObject proto_Unmarshal d timeout) w =
    (Returned (d', ([di], None)), w') /\
    snapshotOf Pretty handle d' di /\
    ID di = Pretty (peer_ID (self d)) /\
    Connections di = [].
Proof.
  intros W handle Pretty msg_FromObject proto_Unmarshal d timeout w Hnone.
  destruct (run_GetDiagnostic handle Pretty msg_FromObject proto_Unmarshal d timeout w)
    as (d' & di & more & w' & Hrun & Hown & (id & now & Hd') & Hmore).
  destruct (Hmore Hnone) as [-> Hconns].
  exists d', di, w'. repeat split; try assumption.
  destruct Hown as (w1 & w2 & Hdi).
  destruct (run_getDiagInfo handle Pretty d' w1) as (di' & w2' & Hdi' & HID & _).
  rewrite Hdi in Hdi'. injection Hdi' as <- _. rewrite HID, Hd'. reflexivity.
Qed.

Lemma GetDiagnostic_no_peers_witness :
  exists d' di,
    run silent
      (GetDiagnostic plainPretty emptyEnvelope rejectAll
         {| network := IpfsNetwork; self := {| peer_ID := ["Q"%char; "m"%char] |};
            diagMap := ∅; birth := 0%Z |} 1000%Z) tt =
    (Returned (d', ([di], None)), tt) /\
    ID di = "Qm"%string /\
    Connections di = [].
Proof.
  destruct (GetDiagnostic_no_peers unit silent plainPretty emptyEnvelope rejectAll
              {| network := IpfsNetwork; self := {| peer_ID := ["Q"%char; "m"%char] |};
                 diagMap := ∅; birth := 0%Z |} 1000%Z tt)
    as (d' & di & [] & Hrun & _ & HID & Hconns).
  - intros []. reflexivity.
  - exists d', di. split; [exact Hrun |]. split; [exact HID | exact Hconns].
Defined.

(** The three ways a request to a peer fails, and the one way it succeeds:
    [sendRequest] returns the error of the envelope, or the error of the
    sender, or the error "no response to request" when the sender returns
    neither a response nor an error, or the error of the decoder; otherwise
    it returns the decoded response. *)
Lemma run_sendRequest :
  forall (W : Type) (handle : forall X, Event X -> W -> X * W)
         (msg_FromObject : Peer -> Message -> Result NetMessage)
         (proto_Unmarshal : list byte -> Result Message)
         (ctx : Context) (p : Peer) (pmes : Message) (w : W),
  fst (run handle (sendRequest msg_FromObject proto_Unmarshal ctx p pmes) w) =
  Returned
    match msg_FromObject p pmes with
    | inr err => inr err
    | inl mes =>
      match fst (handle _ (SendRequest ctx mes) (snd (handle _ time_Now w))) with
      | (_, Some err) => inr err
      | (None, None) => inr (errors_New "no response to request")
      | (Some rmes, None) =>
        match proto_Unmarshal (default [] (mes_Data rmes)) with
        | inr err => inr err
        | inl rpmes => inl rpmes
        end
      end
    end.
Proof.
  intros. unfold sendRequest. destruct (msg_FromObject p pmes) as [mes | err].
  2: reflexivity.
  cbn [bind trigger run].
  destruct (handle Time time_Now w) as [start w1]. cbn [snd].
  destruct (handle _ (SendRequest ctx mes) w1) as [[rmes err] w2]. cbn [fst].
  destruct err as [err |]; [destruct rmes; reflexivity |].
  destruct rmes as [rmes |]; [| reflexivity].
  unfold time_Since. cbn [bind trigger run].
  destruct (handle Time time_Now w2) as [now w3].
  destruct (handle unit (Log Info _) w3) as [[] w4].
  destruct (proto_Unmarshal _); reflexivity.
Qed.

(** ** Errors *)

(** C8, as the program has it.  A request that was put in its envelope
    fails in three ways.  When the sender returns an error, [sendRequest]
    returns that error as it is; when the sender returns neither an error
    nor a response, it returns the error "no response to request"; when
    the response does not decode, it returns the error of the decoder as it
    is.  [sendRequest] gives the errors no kind of its own: the three are
    told apart as far as the errors of the sender and of the decoder differ
    from each other and from that message. *)
Theorem sendRequest_failures :
  forall (W : Type) (handle : forall X, Event X -> W -> X * W)
         (msg_FromObject : Peer -> Message -> Result NetMessage)
         (proto_Unmarshal : list byte -> Result Message)
         (ctx : Context) (p : Peer) (pmes : Message) (w : W) (mes : NetMessage),
  msg_FromObject p pmes = inl mes ->
  exists result,
    fst (run handle (sendRequest msg_FromObject proto_Unmarshal ctx p pmes) w) =
    Returned result /\
    let answer := fst (handle _ (SendRequest ctx mes) (snd (handle _ time_Now w))) in
    (forall rmes err, answer = (rmes, Some err) -> result = inr err) /\
    (answer = (None, None) -> result = inr (errors_New "no response to request")) /\
    (forall rmes err,
       answer = (Some rmes, None) ->
       proto_Unmarshal (default [] (mes_Data rmes)) = inr err ->
       result = inr err) /\
    (forall rmes rpmes,
       answer = (Some rmes, None) ->
       proto_Unmarshal (default [] (mes_Data rmes)) = inl rpmes ->
       result = inl rpmes).
Proof.
  intros W handle msg_FromObject proto_Unmarshal ctx p pmes w mes Hmes.
  eexists. split; [apply run_sendRequest |]. rewrite Hmes. cbv zeta.
  destruct (fst (handle _ (SendRequest ctx mes) (snd (handle Time time_Now w))))
    as [rmes err].
  repeat split.
  - intros rmes' err' [= -> ->]. destruct rmes'; reflexivity.
  - intros [= -> ->]. reflexivity.
  - intros rmes' err' [= -> ->] ->. reflexivity.
  - intros rmes' rpmes [= -> ->] ->. reflexivity.
Qed.

Lemma sendRequest_failures_witness :
  exists result,
    fst (run silent (sendRequest emptyEnvelope rejectAll {| deadline := 0%Z |}
                       {| peer_ID := [] |} {| DiagID := None; Data := [] |}) tt) =
    Returned result /\
    result = inr (errors_New "no response to request").
Proof.
  destruct (sendRequest_failures unit silent emptyEnvelope rejectAll {| deadline := 0%Z |}
              {| peer_ID := [] |} {| DiagID := None; Data := [] |} tt
              {| mes_Peer := Some {| peer_ID := [] |}; mes_Data := Some [] |})
    as (result & Hrun & _ & Hnil & _).
  - reflexivity.
  - exists result. split; [exact Hrun |]. apply Hnil. reflexivity.
Defined.

(** C8, as the claim has it, fails: a sender that fails with the text "no
    response to request" and a sender that returns no response make
    [sendRequest] return the same error, so the caller cannot tell the
    failure of the transport from the empty response. *)
Lemma sendRequest_failures_not_told_apart :
  let ctx := {| deadline := 0%Z |} in
  let p := {| peer_ID := [] |} in
  let pmes := {| DiagID := None; Data := [] |} in
  let mes := {| mes_Peer := Some p; mes_Data := Some [] |} in
  emptyEnvelope p pmes = inl mes /\
  fst (refusing "no response to request" _ (SendRequest ctx mes) tt) =
    (None, Some (errors_New "no response to request")) /\
  fst (silent _ (SendRequest ctx mes) tt) = (None, None) /\
  fst (run (refusing "no response to request")
         (sendRequest emptyEnvelope rejectAll ctx p pmes) tt) =
  fst (run silent (sendRequest emptyEnvelope rejectAll ctx p pmes) tt).
Proof. repeat split. Qed.

(** C10.  An inbound message with a payload that does not decode as a
    protocol message makes [HandleMessage] return at once with an error and
    with the node, its ledger included, as it was; it asks nothing of its
    environment.  When the message names its sender the error is the one
    that wraps the error of the decoder. *)
Theorem HandleMessage_undecodable :
  forall (Pretty : list byte -> string)
         (msg_FromObject : Peer -> Message -> Result NetMessage)
         (proto_Unmarshal : list byte -> Result Message)
         (d : Diagnostics) (ctx : Context) (mes : NetMessage)
         (mData : list byte) (err : error),
  mes_Data mes = Some mData ->
  proto_Unmarshal mData = inr err ->
  exists e,
    HandleMessage Pretty msg_FromObject proto_Unmarshal d ctx mes =
    Ret (d, (None, Some e)) /\
    (is_Some (mes_Peer mes) ->
     e = fmt_Errorf "Failed to decode protobuf message: " err newline).
Proof.
  intros Pretty msg_FromObject proto_Unmarshal d ctx mes mData err HData Herr.
  unfold HandleMessage. rewrite HData.
  destruct (mes_Peer mes) as [mPeer |].
  - rewrite Herr. eexists. split; [reflexivity |]. reflexivity.
  - eexists. split; [reflexivity |]. intros [? [=]].
Qed.

Lemma HandleMessage_undecodable_witness :
  let d := {| network := IpfsNetwork; self := {| peer_ID := [] |};
              diagMap := ∅; birth := 0%Z |} in
  exists e,
    HandleMessage plainPretty emptyEnvelope rejectAll d {| deadline := 0%Z |}
      {| mes_Peer := Some {| peer_ID := [] |}; mes_Data := Some ["x"%char] |} =
    Ret (d, (None, Some e)).
Proof.
  intros d.
  destruct (HandleMessage_undecodable plainPretty emptyEnvelope rejectAll d
              {| deadline := 0%Z |}
              {| mes_Peer := Some {| peer_ID := [] |}; mes_Data := Some ["x"%char] |}
              ["x"%char] (errors_New "proto: cannot decode"))
    as (e & Hrun & _).
  - reflexivity.
  - reflexivity.
  - exists e. exact Hrun.
Defined.

(** ** Bytes *)

Local Open Scope Z_scope.

Lemma byte_val_range (b : byte) : 0 <= byte_val b < 256.
Proof. unfold byte_val. pose proof (N_ascii_bounded b). lia. Qed.

Lemma byte_of_val (b : byte) : byte_of (byte_val b) = b.
Proof.
  unfold byte_of, byte_val.
  rewrite Z.mod_small by (pose proof (N_ascii_bounded b); lia).
  rewrite N2Z.id. apply ascii_N_embedding.
Qed.

Lemma byte_val_of (x : Z) : byte_val (byte_of x) = x mod 256.
Proof.
  unfold byte_of, byte_val. pose proof (Z.mod_pos_bound x 256 ltac:(lia)).
  rewrite N_ascii_embedding by lia. lia.
Qed.

Lemma byte_val_inj (a b : byte) : byte_val a = byte_val b -> a = b.
Proof. intros H. rewrite <- (byte_of_val a), <- (byte_of_val b), H. reflexivity. Qed.

Lemma eqb_byte_val (a b : byte) : Ascii.eqb a b = (byte_val a =? byte_val b).
Proof.
  destruct (Ascii.eqb_spec a b) as [-> | Hne].
  - symmetry. apply Z.eqb_refl.
  - symmetry. apply Z.eqb_neq. intros H. apply Hne, byte_val_inj, H.
Qed.

(** ** Bits *)

(** Bits that do not overlap add up. *)
Lemma lor_high_low (a b k : Z) :
  0 <= k -> 0 <= b < 2 ^ k -> Z.lor (a * 2 ^ k) b = a * 2 ^ k + b.
Proof.
  intros Hk Hb. rewrite <- Z.add_lor_land.
  assert (Z.land (a * 2 ^ k) b = 0) as ->; [| lia].
  apply Z.bits_inj'. intros m Hm. rewrite Z.land_spec, Z.bits_0.
  destruct (Z.lt_ge_cases m k) as [Hlt | Hge].
  - rewrite Z.mul_pow2_bits_low by assumption. reflexivity.
  - rewrite <- (Z.mod_small b (2 ^ k)) by assumption.
    rewrite Z.mod_pow2_bits_high by lia. apply andb_false_r.
Qed.

Lemma land_low (a k : Z) : 0 <= k -> Z.land a (2 ^ k - 1) = a mod 2 ^ k.
Proof.
  intros Hk. rewrite <- Z.land_ones by assumption. f_equal.
  rewrite Z.ones_equiv. lia.
Qed.

(** ** UTF-8: decoding and encoding *)

(** A continuation byte carries its low six bits. *)
Lemma cont_bits (c : Z) :
  0 <= c < 256 -> utf8.notcont c = false ->
  0 <= Z.land c utf8.maskx < 64 /\ c = 128 + Z.land c utf8.maskx.
Proof.
  intros Hc Hn. unfold utf8.notcont, utf8.tx, utf8.t2 in Hn.
  apply orb_false_iff in Hn as [H1 H2].
  apply Z.ltb_ge in H1. apply Z.leb_gt in H2.
  change utf8.maskx with (2 ^ 6 - 1). rewrite land_low by lia.
  change (2 ^ 6) with 64. Z.div_mod_to_equations. lia.
Qed.

Lemma lead_bits (c lo k : Z) :
  0 <= k -> lo mod 2 ^ k = 0 -> lo <= c < lo + 2 ^ k ->
  Z.land c (2 ^ k - 1) = c - lo.
Proof.
  intros Hk Hlo Hc. rewrite land_low by assumption.
  assert (H2k : 0 < 2 ^ k) by (apply Z.pow_pos_nonneg; lia).
  pose proof (Z.div_mod lo (2 ^ k) ltac:(lia)) as Hdm. rewrite Hlo in Hdm.
  symmetry. apply Z.mod_unique with (lo / 2 ^ k); lia.
Qed.

Ltac shifts :=
  rewrite ?Z.shiftl_mul_pow2, ?Z.shiftr_div_pow2 by lia.

(** The bytes of an encoding that [EncodeRune] puts together. *)
Lemma lead_byte (b : byte) (lo h : Z) (k : Z) :
  0 <= k -> 0 <= h < 2 ^ k -> (exists q, lo = q * 2 ^ k) ->
  byte_val b = lo + h -> byte_of (Z.lor lo h) = b.
Proof.
  intros Hk Hh [q ->] Hb. rewrite lor_high_low by assumption.
  rewrite <- Hb. apply byte_of_val.
Qed.

Lemma cont_byte (b : byte) (x : Z) :
  0 <= x < 64 -> byte_val b = 128 + x -> byte_of (Z.lor utf8.tx x) = b.
Proof.
  intros Hx Hb. apply (lead_byte b 128 x 6); try lia. exists 2. reflexivity.
Qed.

Lemma uint32_small (r : Z) : 0 <= r < 2 ^ 32 -> utf8.uint32 r = r.
Proof. intros H. unfold utf8.uint32. apply Z.mod_small. exact H. Qed.

Lemma EncodeRune_1 (r : Z) :
  0 <= r <= utf8.rune1Max -> utf8.EncodeRune r = [byte_of r].
Proof.
  intros H. unfold utf8.EncodeRune, utf8.rune1Max in *.
  rewrite uint32_small by lia.
  destruct (Z.leb_spec r (2 ^ 7 - 1)); [reflexivity | lia].
Qed.

Lemma EncodeRune_2 (r : Z) :
  utf8.rune1Max < r <= utf8.rune2Max ->
  utf8.EncodeRune r =
  [byte_of (Z.lor utf8.t2 (Z.shiftr r 6)); byte_of (Z.lor utf8.tx (Z.land r utf8.maskx))].
Proof.
  intros H. unfold utf8.EncodeRune, utf8.rune1Max, utf8.rune2Max in *.
  rewrite uint32_small by lia.
  destruct (Z.leb_spec r (2 ^ 7 - 1)); [lia |].
  destruct (Z.leb_spec r (2 ^ 11 - 1)); [reflexivity | lia].
Qed.

Lemma EncodeRune_3 (r : Z) :
  utf8.rune2Max < r <= utf8.rune3Max ->
  (utf8.surrogateMin <=? r) && (r <=? utf8.surrogateMax) = false ->
  utf8.EncodeRune r =
  [byte_of (Z.lor utf8.t3 (Z.shiftr r 12));
   byte_of (Z.lor utf8.tx (Z.land (Z.shiftr r 6) utf8.maskx));
   byte_of (Z.lor utf8.tx (Z.land r utf8.maskx))].
Proof.
  intros H Hs. unfold utf8.EncodeRune.
  unfold utf8.rune1Max, utf8.rune2Max, utf8.rune3Max, utf8.MaxRune in *.
  rewrite uint32_small by lia.
  destruct (Z.leb_spec r (2 ^ 7 - 1)); [lia |].
  destruct (Z.leb_spec r (2 ^ 11 - 1)); [lia |].
  destruct (Z.ltb_spec 1114111 r); [lia |].
  rewrite Hs. rewrite uint32_small by lia.
  destruct (Z.leb_spec r (2 ^ 16 - 1)); [reflexivity | lia].
Qed.

Lemma EncodeRune_4 (r : Z) :
  utf8.rune3Max < r <= utf8.MaxRune ->
  utf8.EncodeRune r =
  [byte_of (Z.lor utf8.t4 (Z.shiftr r 18));
   byte_of (Z.lor utf8.tx (Z.land (Z.shiftr r 12) utf8.maskx));
   byte_of (Z.lor utf8.tx (Z.land (Z.shiftr r 6) utf8.maskx));
   byte_of (Z.lor utf8.tx (Z.land r utf8.maskx))].
Proof.
  intros H. unfold utf8.EncodeRune.
  unfold utf8.rune1Max, utf8.rune2Max, utf8.rune3Max, utf8.MaxRune,
    utf8.surrogateMin, utf8.surrogateMax in *.
  rewrite uint32_small by lia.
  destruct (Z.leb_spec r (2 ^ 7 - 1)); [lia |].
  destruct (Z.leb_spec r (2 ^ 11 - 1)); [lia |].
  destruct (Z.ltb_spec 1114111 r); [lia |].
  destruct (Z.leb_spec 55296 r); destruct (Z.leb_spec r 57343); simpl; try lia;
    rewrite uint32_small by lia;
    (destruct (Z.leb_spec r (2 ^ 16 - 1)); [lia | reflexivity]).
Qed.


Lemma lor_add (a b k : Z) :
  0 <= k -> a mod 2 ^ k = 0 -> 0 <= b < 2 ^ k -> Z.lor a b = a + b.
Proof.
  intros Hk Ha Hb.
  assert (H2k : 0 < 2 ^ k) by (apply Z.pow_pos_nonneg; lia).
  pose proof (Z.div_mod a (2 ^ k) ltac:(lia)) as Hdm. rewrite Ha in Hdm.
  replace a with (a / 2 ^ k * 2 ^ k) by lia.
  apply lor_high_low; assumption.
Qed.

(** A well-formed encoding of two, three and four bytes is what
    [EncodeRune] writes for the rune it decodes to. *)
Lemma two_bytes (b0 b1 : byte) :
  192 <= byte_val b0 < 224 -> utf8.notcont (byte_val b1) = false ->
  let r := Z.lor (Z.shiftl (Z.land (byte_val b0) utf8.mask2) 6)
                 (Z.land (byte_val b1) utf8.maskx) in
  utf8.rune1Max < r -> utf8.EncodeRune r = [b0; b1].
Proof.
  intros H0 N1. pose proof (byte_val_range b1) as R1.
  destruct (cont_bits _ R1 N1) as [X1 E1].
  assert (L0 : Z.land (byte_val b0) utf8.mask2 = byte_val b0 - 192).
  { apply (lead_bits _ 192 5); [lia | reflexivity | lia]. }
  rewrite L0. shifts. rewrite lor_high_low by lia.
  set (h := byte_val b0 - 192) in *. set (x1 := Z.land (byte_val b1) utf8.maskx) in *.
  cbv zeta. intros Hr.
  rewrite EncodeRune_2 by (unfold utf8.rune1Max, utf8.rune2Max in *; lia).
  shifts. change utf8.maskx with (2 ^ 6 - 1). rewrite land_low by lia.
  replace ((h * 2 ^ 6 + x1) / 2 ^ 6) with h by (Z.div_mod_to_equations; lia).
  replace ((h * 2 ^ 6 + x1) mod 2 ^ 6) with x1 by (Z.div_mod_to_equations; lia).
  rewrite (lead_byte b0 utf8.t2 h 5); try lia; [| exists 6; reflexivity | unfold utf8.t2; lia].
  rewrite (cont_byte b1 x1); [reflexivity | lia | lia].
Qed.

Lemma three_bytes (b0 b1 b2 : byte) :
  224 <= byte_val b0 < 240 ->
  utf8.notcont (byte_val b1) = false -> utf8.notcont (byte_val b2) = false ->
  let r := Z.lor (Z.lor (Z.shiftl (Z.land (byte_val b0) utf8.mask3) 12)
                        (Z.shiftl (Z.land (byte_val b1) utf8.maskx) 6))
                 (Z.land (byte_val b2) utf8.maskx) in
  utf8.rune2Max < r ->
  (utf8.surrogateMin <=? r) && (r <=? utf8.surrogateMax) = false ->
  utf8.EncodeRune r = [b0; b1; b2].
Proof.
  intros H0 N1 N2.
  pose proof (byte_val_range b1) as R1. pose proof (byte_val_range b2) as R2.
  destruct (cont_bits _ R1 N1) as [X1 E1]. destruct (cont_bits _ R2 N2) as [X2 E2].
  assert (L0 : Z.land (byte_val b0) utf8.mask3 = byte_val b0 - 224).
  { apply (lead_bits _ 224 4); [lia | reflexivity | lia]. }
  rewrite L0. shifts.
  set (h := byte_val b0 - 224) in *.
  set (x1 := Z.land (byte_val b1) utf8.maskx) in *.
  set (x2 := Z.land (byte_val b2) utf8.maskx) in *.
  rewrite (lor_add (h * 2 ^ 12) (x1 * 2 ^ 6) 12) by (try lia; Z.div_mod_to_equations; lia).
  rewrite (lor_add _ x2 6) by (try lia; Z.div_mod_to_equations; lia).
  cbv zeta. intros Hr Hs.
  rewrite EncodeRune_3; [| unfold utf8.rune2Max, utf8.rune3Max in *; lia | exact Hs].
  shifts. change utf8.maskx with (2 ^ 6 - 1). rewrite !land_low by lia.
  replace ((h * 2 ^ 12 + x1 * 2 ^ 6 + x2) / 2 ^ 12) with h by (Z.div_mod_to_equations; lia).
  replace (((h * 2 ^ 12 + x1 * 2 ^ 6 + x2) / 2 ^ 6) mod 2 ^ 6) with x1
    by (Z.div_mod_to_equations; lia).
  replace ((h * 2 ^ 12 + x1 * 2 ^ 6 + x2) mod 2 ^ 6) with x2 by (Z.div_mod_to_equations; lia).
  rewrite (lead_byte b0 utf8.t3 h 4); try lia; [| exists 14; reflexivity | unfold utf8.t3; lia].
  rewrite (cont_byte b1 x1), (cont_byte b2 x2); [reflexivity | lia ..].
Qed.

Lemma four_bytes (b0 b1 b2 b3 : byte) :
  240 <= byte_val b0 < 248 ->
  utf8.notcont (byte_val b1) = false -> utf8.notcont (byte_val b2) = false ->
  utf8.notcont (byte_val b3) = false ->
  let r := Z.lor (Z.lor (Z.lor (Z.shiftl (Z.land (byte_val b0) utf8.mask4) 18)
                               (Z.shiftl (Z.land (byte_val b1) utf8.maskx) 12))
                        (Z.shiftl (Z.land (byte_val b2) utf8.maskx) 6))
                 (Z.land (byte_val b3) utf8.maskx) in
  utf8.rune3Max < r <= utf8.MaxRune ->
  utf8.EncodeRune r = [b0; b1; b2; b3].
Proof.
  intros H0 N1 N2 N3.
  pose proof (byte_val_range b1) as R1. pose proof (byte_val_range b2) as R2.
  pose proof (byte_val_range b3) as R3.
  destruct (cont_bits _ R1 N1) as [X1 E1]. destruct (cont_bits _ R2 N2) as [X2 E2].
  destruct (cont_bits _ R3 N3) as [X3 E3].
  assert (L0 : Z.land (byte_val b0) utf8.mask4 = byte_val b0 - 240).
  { apply (lead_bits _ 240 3); [lia | reflexivity | lia]. }
  rewrite L0. shifts.
  set (h := byte_val b0 - 240) in *.
  set (x1 := Z.land (byte_val b1) utf8.maskx) in *.
  set (x2 := Z.land (byte_val b2) utf8.maskx) in *.
  set (x3 := Z.land (byte_val b3) utf8.maskx) in *.
  rewrite (lor_add (h * 2 ^ 18) (x1 * 2 ^ 12) 18) by (try lia; Z.div_mod_to_equations; lia).
  rewrite (lor_add _ (x2 * 2 ^ 6) 12) by (try lia; Z.div_mod_to_equations; lia).
  rewrite (lor_add _ x3 6) by (try lia; Z.div_mod_to_equations; lia).
  cbv zeta. intros Hr.
  rewrite EncodeRune_4 by exact Hr.
  shifts. change utf8.maskx with (2 ^ 6 - 1). rewrite !land_low by lia.
  set (r := h * 2 ^ 18 + x1 * 2 ^ 12 + x2 * 2 ^ 6 + x3) in *.
  replace (r / 2 ^ 18) with h by (subst r; Z.div_mod_to_equations; lia).
  replace ((r / 2 ^ 12) mod 2 ^ 6) with x1 by (subst r; Z.div_mod_to_equations; lia).
  replace ((r / 2 ^ 6) mod 2 ^ 6) with x2 by (subst r; Z.div_mod_to_equations; lia).
  replace (r mod 2 ^ 6) with x3 by (subst r; Z.div_mod_to_equations; lia).
  rewrite (lead_byte b0 utf8.t4 h 3); try lia; [| exists 30; reflexivity | unfold utf8.t4; lia].
  rewrite (cont_byte b1 x1), (cont_byte b2 x2), (cont_byte b3 x3); [reflexivity | lia ..].
Qed.

(** What [DecodeRune] decodes, short of the error sentinel, is a prefix of
    the input that [EncodeRune] gives back, and that decodes the same
    whatever follows it. *)
Lemma DecodeRune_spec (b0 : byte) (p1 : list byte) :
  let d := utf8.DecodeRune (b0 :: p1) in
  utf8.isError d = false ->
  exists enc rest,
    b0 :: p1 = enc ++ rest /\
    length enc = snd d /\
    utf8.EncodeRune (fst d) = enc /\
    (forall q, utf8.DecodeRune (enc ++ q) = d).
Proof.
  cbv zeta. unfold utf8.DecodeRune.
  pose proof (byte_val_range b0) as R0.
  destruct (byte_val b0 <? utf8.tx) eqn:B0.
  { intros _. exists [b0], p1. simpl. rewrite B0.
    apply Z.ltb_lt in B0. unfold utf8.tx in B0.
    rewrite EncodeRune_1 by (unfold utf8.rune1Max; lia).
    rewrite byte_of_val. auto. }
  destruct (byte_val b0 <? utf8.t2) eqn:B1; [discriminate |].
  destruct p1 as [| b1 p2]; [discriminate |].
  destruct (utf8.notcont (byte_val b1)) eqn:N1; [discriminate |].
  pose proof B1 as H1. apply Z.ltb_ge in H1. unfold utf8.t2 in H1.
  destruct (byte_val b0 <? utf8.t3) eqn:B2.
  { match goal with
    | |- context [?r <=? utf8.rune1Max] =>
      destruct (r <=? utf8.rune1Max) eqn:Br; [discriminate |]
    end.
    intros _. exists [b0; b1], p2. simpl. rewrite B0, B1, N1, B2, Br.
    apply Z.ltb_lt in B2. unfold utf8.t3 in B2. apply Z.leb_gt in Br.
    rewrite two_bytes by (assumption || lia). auto. }
  destruct p2 as [| b2 p3]; [discriminate |].
  destruct (utf8.notcont (byte_val b2)) eqn:N2; [discriminate |].
  pose proof B2 as H2. apply Z.ltb_ge in H2. unfold utf8.t3 in H2.
  destruct (byte_val b0 <? utf8.t4) eqn:B3.
  { match goal with
    | |- context [?r <=? utf8.rune2Max] =>
      destruct (r <=? utf8.rune2Max) eqn:Br; [discriminate |];
      destruct ((utf8.surrogateMin <=? r) && (r <=? utf8.surrogateMax)) eqn:Bs;
        [discriminate |]
    end.
    intros _. exists [b0; b1; b2], p3. simpl. rewrite B0, B1, N1, B2, N2, B3, Br, Bs.
    apply Z.ltb_lt in B3. unfold utf8.t4 in B3. apply Z.leb_gt in Br.
    rewrite three_bytes by (assumption || lia). auto. }
  destruct p3 as [| b3 p4]; [discriminate |].
  destruct (utf8.notcont (byte_val b3)) eqn:N3; [discriminate |].
  pose proof B3 as H3. apply Z.ltb_ge in H3. unfold utf8.t4 in H3.
  destruct (byte_val b0 <? utf8.t5) eqn:B4; [| discriminate].
  match goal with
  | |- context [(?r <=? utf8.rune3Max) || _] =>
    destruct ((r <=? utf8.rune3Max) || (utf8.MaxRune <? r)) eqn:Br; [discriminate |]
  end.
  intros _. exists [b0; b1; b2; b3], p4. simpl.
  rewrite B0, B1, N1, B2, N2, B3, N3, B4, Br.
  apply Z.ltb_lt in B4. unfold utf8.t5 in B4.
  apply orb_false_iff in Br as [Br1 Br2]. apply Z.leb_gt in Br1. apply Z.ltb_ge in Br2.
  rewrite four_bytes by (assumption || lia). auto.
Qed.

(** A decoding takes at least one byte, and no more than there are. *)
Lemma DecodeRune_width (b0 : byte) (p1 : list byte) :
  (1 <= snd (utf8.DecodeRune (b0 :: p1)) <= length (b0 :: p1))%nat.
Proof.
  unfold utf8.DecodeRune.
  repeat match goal with
         | |- context [if ?c then _ else _] => destruct c
         | |- context [match ?l with [] => _ | _ :: _ => _ end] => destruct l
         end; simpl; lia.
Qed.

(** ** Strings: the scanner reads back what the encoder wrote *)

Lemma unquote_from_S (m : nat) (b : byte) (r : list byte) :
  json.unquote_from (S m) (b :: r) =
    if Ascii.eqb b json.dquote then Some ([], r)
    else if Ascii.eqb b json.backslash then
      match r with
      | [] => None
      | e :: r' =>
        if Ascii.eqb e "u" then
          match json.hex4 r' with
          | None => None
          | Some (rr, r2) =>
            if json.IsSurrogate rr then
              let (rr1, r3) := json.getu4 r2 in
              let dec := json.utf16_DecodeRune rr rr1 in
              if negb (dec =? json.ReplacementChar) then
                json.prepend (utf8.EncodeRune dec) (json.unquote_from m r3)
              else json.prepend (utf8.EncodeRune json.ReplacementChar) (json.unquote_from m r2)
            else json.prepend (utf8.EncodeRune rr) (json.unquote_from m r2)
          end
        else
          match json.unescape e with
          | Some x => json.prepend [x] (json.unquote_from m r')
          | None => None
          end
      end
    else if byte_val b <? 0x20 then None
    else if byte_val b <? utf8.RuneSelf then json.prepend [b] (json.unquote_from m r)
    else
      let d := utf8.DecodeRune (b :: r) in
      json.prepend (utf8.EncodeRune (fst d)) (json.unquote_from m (skipn (snd d) (b :: r))).
Proof. reflexivity. Qed.

Lemma unquote_byte_step (b : byte) (m : nat) (tail : list byte) :
  (byte_val b <? utf8.RuneSelf) = true ->
  json.unquote_from (S m) ((if json.plain b then [b] else json.escape b) ++ tail) =
  json.prepend [b] (json.unquote_from m tail).
Proof.
  intros Hb.
  destruct b as [b0 b1 b2 b3 b4 b5 b6 b7].
  destruct b0, b1, b2, b3, b4, b5, b6, b7;
    first [ discriminate Hb | reflexivity ].
Qed.

Lemma unquote_multibyte_step (b : byte) (m : nat) (tail : list byte) :
  (byte_val b <? utf8.RuneSelf) = false ->
  json.unquote_from (S m) (b :: tail) =
  json.prepend (utf8.EncodeRune (fst (utf8.DecodeRune (b :: tail))))
    (json.unquote_from m (skipn (snd (utf8.DecodeRune (b :: tail))) (b :: tail))).
Proof.
  intros Hb. rewrite unquote_from_S, Hb.
  apply Z.ltb_ge in Hb. unfold utf8.RuneSelf in Hb.
  rewrite !eqb_byte_val.
  change (byte_val json.dquote) with 34. change (byte_val json.backslash) with 92.
  destruct (Z.eqb_spec (byte_val b) 34); [lia |].
  destruct (Z.eqb_spec (byte_val b) 92); [lia |].
  destruct (Z.ltb_spec (byte_val b) 32); [lia |]. reflexivity.
Qed.

Lemma unquote_separator_step (r : Z) (m : nat) (tail : list byte) :
  r = 0x2028 \/ r = 0x2029 ->
  json.unquote_from (S m)
    ((json.backslash :: list_ascii_of_string "u202" ++ [json.hex (Z.land r 0xF)]) ++ tail) =
  json.prepend (utf8.EncodeRune r) (json.unquote_from m tail).
Proof. intros [-> | ->]; reflexivity. Qed.

Lemma prepend_Some (x t rest : list byte) :
  json.prepend x (Some (t, rest)) = Some (x ++ t, rest).
Proof. reflexivity. Qed.

(** The scanner reads back the string the encoder wrote, when the string
    is well-formed UTF-8. *)
Lemma unquote_string_from (n : nat) :
  forall (p : list byte),
  utf8.Valid_from n p = true -> (length p <= n)%nat ->
  forall (m : nat) (rest : list byte),
  (length (json.string_from n p) < m)%nat ->
  json.unquote_from m (json.string_from n p ++ json.dquote :: rest) = Some (p, rest).
Proof.
  induction n as [| n IH]; intros p Hv Hlen m rest Hm.
  - destruct p; [| simpl in Hlen; lia]. destruct m; [simpl in Hm; lia |]. reflexivity.
  - destruct p as [| b s'].
    { destruct m; [simpl in Hm; lia |]. reflexivity. }
    cbn [utf8.Valid_from] in Hv. cbn [json.string_from] in *.
    destruct (utf8.isError (utf8.DecodeRune (b :: s'))) eqn:He; [discriminate |].
    destruct (byte_val b <? utf8.RuneSelf) eqn:Hb.
    + assert (Hd : utf8.DecodeRune (b :: s') = (byte_val b, 1%nat)).
      { unfold utf8.DecodeRune. change utf8.tx with utf8.RuneSelf. rewrite Hb. reflexivity. }
      rewrite Hd in Hv. cbn [snd skipn] in Hv.
      assert (Hstep : (if json.plain b then b :: json.string_from n s'
                       else json.escape b ++ json.string_from n s') =
                      (if json.plain b then [b] else json.escape b) ++ json.string_from n s').
      { destruct (json.plain b); reflexivity. }
      rewrite Hstep in *. rewrite length_app in Hm.
      assert (1 <= length (if json.plain b then [b] else json.escape b))%nat.
      { destruct (json.plain b); [simpl; lia |].
        unfold json.escape. repeat destruct (_ || _); repeat destruct (Ascii.eqb _ _);
          simpl; lia. }
      destruct m as [| m]; [lia |].
      rewrite <- app_assoc, unquote_byte_step by exact Hb.
      rewrite IH; [reflexivity | exact Hv | simpl in Hlen; lia | lia].
    + pose proof (DecodeRune_spec b s' He) as (enc & rest0 & Hsplit & Hlenc & Henc & Hstable).
      pose proof (DecodeRune_width b s') as Hw.
      set (d := utf8.DecodeRune (b :: s')) in *.
      assert (Hfirst : firstn (snd d) (b :: s') = enc).
      { rewrite Hsplit, <- Hlenc. rewrite firstn_app, Nat.sub_diag, firstn_all. simpl.
        apply app_nil_r. }
      assert (Hskip : skipn (snd d) (b :: s') = rest0).
      { rewrite Hsplit, <- Hlenc. rewrite skipn_app, Nat.sub_diag, skipn_all. reflexivity. }
      rewrite Hfirst, Hskip in *.
      assert (Hrest0 : (length rest0 <= n)%nat).
      { apply (f_equal (@length _)) in Hsplit. rewrite length_app in Hsplit.
        simpl in Hsplit, Hlen. lia. }
      destruct m as [| m]; [lia |].
      destruct ((fst d =? 8232) || (fst d =? 8233)) eqn:Hsep.
      * change (json.backslash :: list_ascii_of_string "u202" ++
                  json.hex (Z.land (fst d) 15) :: json.string_from n rest0)
          with ((json.backslash :: list_ascii_of_string "u202" ++
                   [json.hex (Z.land (fst d) 15)]) ++ json.string_from n rest0) in *.
        rewrite <- app_assoc, unquote_separator_step by lia.
        rewrite IH; [| exact Hv | exact Hrest0 | rewrite length_app in Hm; simpl in Hm; lia].
        rewrite prepend_Some, Henc, <- Hsplit. reflexivity.
      * destruct enc as [| e0 enc']; [simpl in Hlenc; lia |].
        injection Hsplit as <- Hs'.
        rewrite <- app_assoc. cbn [app].
        rewrite unquote_multibyte_step by exact Hb.
        change (b :: enc' ++ json.string_from n rest0 ++ json.dquote :: rest)
          with ((b :: enc') ++ json.string_from n rest0 ++ json.dquote :: rest).
        rewrite Hstable, Henc.
        rewrite <- Hlenc, skipn_app, Nat.sub_diag, skipn_all, skipn_O. cbn [app].
        rewrite IH; [| exact Hv | exact Hrest0 | rewrite length_app in Hm; simpl in Hm; lia].
        rewrite prepend_Some. cbn [app]. congruence.
Qed.

(** ** Numbers: decimal integers are read back *)

Lemma digit_spec (d : Z) :
  0 <= d < 10 ->
  strconv.isDigit (strconv.digit d) = true /\ byte_val (strconv.digit d) - 48 = d /\
  (strconv.digit d = "0"%char -> d = 0).
Proof.
  intros Hd. unfold strconv.isDigit, strconv.digit. rewrite byte_val_of.
  rewrite Z.mod_small by lia. repeat split; [lia | lia |].
  intros H. apply (f_equal byte_val) in H. rewrite byte_val_of in H.
  rewrite Z.mod_small in H by lia. change (byte_val "0") with 48 in H. lia.
Qed.

Lemma parseDigits_app (ds1 ds2 : list byte) (n : Z) :
  Forall (fun b => strconv.isDigit b = true) ds1 ->
  exists n1, strconv.parseDigits ds1 n = Some n1 /\
             strconv.parseDigits (ds1 ++ ds2) n = strconv.parseDigits ds2 n1.
Proof.
  intros H. revert n. induction H as [| b ds1 Hb _ IH]; intros n; simpl.
  - eauto.
  - rewrite Hb. apply IH.
Qed.

(** The digits [formatBits] writes: at least one, no leading zero, and
    read back by [parseDigits]. *)
Lemma formatBits_spec (fuel : nat) :
  forall (u : Z) (a : list byte),
  0 <= u < 10 ^ Z.of_nat fuel -> (0 < fuel)%nat ->
  exists ds,
    strconv.formatBits fuel u a = ds ++ a /\
    Forall (fun b => strconv.isDigit b = true) ds /\
    match ds with
    | [] => False
    | d :: ds' => d = "0"%char -> ds' = [] /\ u = 0
    end /\
    forall n, strconv.parseDigits ds n = Some (n * 10 ^ Z.of_nat (length ds) + u).
Proof.
  induction fuel as [| fuel IH]; intros u a Hu Hfuel; [lia |].
  cbn [strconv.formatBits].
  destruct (Z.leb_spec 10 u) as [Hge | Hlt].
  - assert (Hf : (0 < fuel)%nat).
    { destruct fuel; [| lia]. change (10 ^ Z.of_nat 1) with 10 in Hu. lia. }
    assert (Hq : 0 <= u / 10 < 10 ^ Z.of_nat fuel).
    { rewrite Nat2Z.inj_succ, Z.pow_succ_r in Hu by lia.
      Z.div_mod_to_equations. lia. }
    destruct (IH (u / 10) (strconv.digit (u mod 10) :: a) Hq Hf)
      as (ds & Hfmt & Hdig & Hlead & Hparse).
    pose proof (digit_spec (u mod 10) ltac:(Z.div_mod_to_equations; lia)) as (D1 & D2 & _).
    exists (ds ++ [strconv.digit (u mod 10)]).
    rewrite Hfmt, <- app_assoc. split; [reflexivity |]. split; [| split].
    + apply Forall_app. split; [exact Hdig | constructor; [exact D1 | constructor]].
    + destruct ds as [| d ds']; [contradiction |]. cbn [app].
      intros Hd. destruct (Hlead Hd) as [_ Hz]. Z.div_mod_to_equations. lia.
    + intros n. destruct (parseDigits_app ds [strconv.digit (u mod 10)] n Hdig)
        as (n1 & Hn1 & Happ).
      rewrite Happ. rewrite Hparse in Hn1. injection Hn1 as <-.
      cbn [strconv.parseDigits]. rewrite D1. f_equal.
      rewrite D2, length_app, Nat2Z.inj_add, Z.pow_add_r by lia.
      change (10 ^ Z.of_nat (length [strconv.digit (u mod 10)])) with 10.
      Z.div_mod_to_equations. lia.
  - pose proof (digit_spec u ltac:(lia)) as (D1 & D2 & D3).
    exists [strconv.digit u]. split; [reflexivity |]. split; [| split].
    + constructor; [exact D1 | constructor].
    + auto.
    + intros n. cbn [strconv.parseDigits]. rewrite D1, D2. f_equal.
      change (10 ^ Z.of_nat (length [strconv.digit u])) with 10. lia.
Qed.

(** [FormatInt]: an optional minus and the digits of the magnitude. *)
Lemma FormatInt_spec (i : Z) :
  int64 i = true ->
  exists ds,
    strconv.FormatInt i = (if i <? 0 then ["-"%char] else []) ++ ds /\
    Forall (fun b => strconv.isDigit b = true) ds /\
    match ds with
    | [] => False
    | d :: ds' => d = "0"%char -> ds' = []
    end /\
    strconv.parseDigits ds 0 = Some (Z.abs i).
Proof.
  intros Hi. unfold int64 in Hi. apply andb_true_iff in Hi as [H1 H2].
  apply Z.leb_le in H1. apply Z.ltb_lt in H2.
  assert (Hu : 0 <= Z.abs i < 10 ^ Z.of_nat 20) by (change (10 ^ Z.of_nat 20) with (10 ^ 20); lia).
  destruct (formatBits_spec 20 (Z.abs i) [] Hu ltac:(lia)) as (ds & Hfmt & Hdig & Hlead & Hparse).
  exists ds. rewrite app_nil_r in Hfmt. unfold strconv.FormatInt.
  split; [| split; [exact Hdig | split]].
  - destruct (Z.ltb_spec i 0).
    + replace (- i) with (Z.abs i) by lia. rewrite Hfmt. reflexivity.
    + replace i with (Z.abs i) at 1 by lia. rewrite Hfmt. reflexivity.
  - destruct ds; [contradiction |]. intros Hd. exact (proj1 (Hlead Hd)).
  - rewrite Hparse. f_equal; lia.
Qed.

Lemma isDigit_val (b : byte) : strconv.isDigit b = true -> 48 <= byte_val b <= 57.
Proof. unfold strconv.isDigit. lia. Qed.

Lemma eqb_of_val (b c : byte) : byte_val b <> byte_val c -> Ascii.eqb b c = false.
Proof. intros H. rewrite eqb_byte_val. apply Z.eqb_neq, H. Qed.

(** [ParseInt] reads back what [FormatInt] wrote. *)
Lemma ParseInt_FormatInt (i : Z) :
  int64 i = true -> strconv.ParseInt (strconv.FormatInt i) = Some i.
Proof.
  intros Hi. destruct (FormatInt_spec i Hi) as (ds & -> & Hdig & Hlead & Hparse).
  unfold int64 in Hi. apply andb_true_iff in Hi as [H1 H2].
  apply Z.leb_le in H1. apply Z.ltb_lt in H2.
  destruct ds as [| d ds']; [contradiction |].
  pose proof (isDigit_val d (Forall_inv Hdig)) as Hd.
  unfold strconv.ParseInt, strconv.ParseUint.
  destruct (Z.ltb_spec i 0).
  - cbn [app]. change (Ascii.eqb "-" "-") with true. change (Ascii.eqb "-" "+") with false.
    cbn [orb]. rewrite Hparse. cbn [negb andb].
    destruct (Z.ltb_spec (2 ^ 63) (Z.abs i)); [lia |]. f_equal. lia.
  - cbn [app].
    rewrite (eqb_of_val d "-") by (change (byte_val "-") with 45; lia).
    rewrite (eqb_of_val d "+") by (change (byte_val "+") with 43; lia).
    cbn [orb]. rewrite Hparse. cbn [negb andb].
    destruct (Z.leb_spec (2 ^ 63) (Z.abs i)); [lia |]. f_equal. lia.
Qed.

Lemma digits_app (ds rest : list byte) :
  Forall (fun b => strconv.isDigit b = true) ds ->
  match rest with [] => True | b :: _ => strconv.isDigit b = false end ->
  json.digits (ds ++ rest) = (ds, rest).
Proof.
  intros Hds Hrest. induction Hds as [| d ds Hd _ IH]; simpl.
  - destruct rest as [| b rest]; [reflexivity |]. simpl. rewrite Hrest. reflexivity.
  - rewrite Hd, IH. reflexivity.
Qed.

(** The scanner reads a number that [FormatInt] wrote up to its end. *)
Lemma number_FormatInt (i : Z) (rest : list byte) :
  int64 i = true -> json.endsNumber rest = true ->
  json.number (strconv.FormatInt i ++ rest) = Some (strconv.FormatInt i, rest).
Proof.
  intros Hi Hrest. destruct (FormatInt_spec i Hi) as (ds & -> & Hdig & Hlead & _).
  destruct ds as [| d ds']; [contradiction |].
  pose proof (isDigit_val d (Forall_inv Hdig)) as Hd.
  assert (Hend : match rest with [] => True | b :: _ => strconv.isDigit b = false end).
  { destruct rest as [| b rest]; [exact I |]. simpl in Hrest.
    apply negb_true_iff in Hrest. repeat (apply orb_false_iff in Hrest as [Hrest _]).
    exact Hrest. }
  assert (Hfrac : json.fraction rest = Some ([], rest) /\
                  json.exponent rest = Some ([], rest)).
  { destruct rest as [| b rest']; [split; reflexivity |].
    simpl in Hrest. apply negb_true_iff in Hrest.
    apply orb_false_iff in Hrest as [Hrest HE].
    apply orb_false_iff in Hrest as [Hrest He].
    apply orb_false_iff in Hrest as [_ Hdot].
    unfold json.fraction, json.exponent. rewrite Hdot, He, HE. auto. }
  destruct Hfrac as [Hfrac Hexp].
  assert (Hint : json.integer ((d :: ds') ++ rest) = Some (d :: ds', rest)).
  { cbn [app json.integer]. rewrite (Forall_inv Hdig). cbn [negb].
    destruct (Ascii.eqb d "0") eqn:Hz.
    - apply Ascii.eqb_eq in Hz. rewrite (Hlead Hz). reflexivity.
    - change (d :: ds' ++ rest) with ((d :: ds') ++ rest).
      rewrite digits_app by assumption. reflexivity. }
  unfold json.number.
  destruct (Z.ltb_spec i 0).
  - cbn [app]. change (Ascii.eqb "-" "-") with true. cbv iota.
    change (d :: ds' ++ rest) with ((d :: ds') ++ rest).
    rewrite Hint, Hfrac, Hexp, !app_nil_r. reflexivity.
  - cbn [app].
    rewrite (eqb_of_val d "-") by (change (byte_val "-") with 45; lia).
    change (d :: ds' ++ rest) with ((d :: ds') ++ rest).
    rewrite Hint, Hfrac, Hexp, !app_nil_r. reflexivity.
Qed.

(** ** The scanner on what the encoder wrote *)

Lemma value_object (fuel : nat) (r : list byte) :
  json.value (S fuel) ("{"%char :: r) =
  match json.skipSpace r with
  | c :: r' =>
    if Ascii.eqb c "}" then Some (json.JObject [], r')
    else
      match json.members fuel (c :: r') with
      | Some (ms, rest) => Some (json.JObject ms, rest)
      | None => None
      end
  | [] => None
  end.
Proof. reflexivity. Qed.

Lemma value_array (fuel : nat) (r : list byte) :
  json.value (S fuel) ("["%char :: r) =
  match json.skipSpace r with
  | c :: r' =>
    if Ascii.eqb c "]" then Some (json.JArray [], r')
    else
      match json.elements fuel (c :: r') with
      | Some (es, rest) => Some (json.JArray es, rest)
      | None => None
      end
  | [] => None
  end.
Proof. reflexivity. Qed.

Lemma value_string (fuel : nat) (r : list byte) :
  json.value (S fuel) (json.dquote :: r) =
  match json.unquote r with
  | Some (t, rest) => Some (json.JString t, rest)
  | None => None
  end.
Proof. reflexivity. Qed.

Lemma value_null (fuel : nat) (rest : list byte) :
  json.value (S fuel) (list_ascii_of_string "null" ++ rest) = Some (json.JNull, rest).
Proof. reflexivity. Qed.

Lemma value_number (fuel : nat) (c : byte) (r : list byte) :
  c = "-"%char \/ strconv.isDigit c = true ->
  json.value (S fuel) (c :: r) =
  match json.number (c :: r) with
  | Some (lit, rest) => Some (json.JNumber lit, rest)
  | None => None
  end.
Proof.
  intros [-> | Hc]; [reflexivity |].
  pose proof (isDigit_val c Hc) as Hv.
  cbn [json.value json.skipSpace]. unfold json.isSpace.
  rewrite (eqb_of_val c " ") by (change (byte_val " ") with 32; lia).
  rewrite (eqb_of_val c "009") by (change (byte_val "009") with 9; lia).
  rewrite (eqb_of_val c "013") by (change (byte_val "013") with 13; lia).
  rewrite (eqb_of_val c "010") by (change (byte_val "010") with 10; lia).
  cbn [orb].
  rewrite (eqb_of_val c "{") by (change (byte_val "{") with 123; lia).
  rewrite (eqb_of_val c "[") by (change (byte_val "[") with 91; lia).
  rewrite (eqb_of_val c json.dquote) by (change (byte_val json.dquote) with 34; lia).
  rewrite Hc, orb_true_r. reflexivity.
Qed.

Lemma elements_S (fuel : nat) (s : list byte) :
  json.elements (S fuel) s =
  match json.value fuel s with
  | None => None
  | Some (v, r) =>
    match json.skipSpace r with
    | c :: r' =>
      if Ascii.eqb c "," then
        match json.elements fuel r' with
        | Some (vs, rest) => Some (v :: vs, rest)
        | None => None
        end
      else if Ascii.eqb c "]" then Some ([v], r')
      else None
    | [] => None
    end
  end.
Proof. reflexivity. Qed.

Lemma members_S (fuel : nat) (r : list byte) :
  json.members (S fuel) (json.dquote :: r) =
  match json.unquote r with
  | None => None
  | Some (key, r1) =>
    match json.skipSpace r1 with
    | colon :: r2 =>
      if negb (Ascii.eqb colon ":") then None
      else
        match json.value fuel r2 with
        | None => None
        | Some (v, r3) =>
          match json.skipSpace r3 with
          | c :: r4 =>
            if Ascii.eqb c "," then
              match json.members fuel (json.skipSpace r4) with
              | Some (ms, rest) => Some ((key, v) :: ms, rest)
              | None => None
              end
            else if Ascii.eqb c "}" then Some ([(key, v)], r4)
            else None
          | [] => None
          end
        end
    | [] => None
    end
  end.
Proof. reflexivity. Qed.

(** The scanner reads back a string literal. *)
Lemma unquote_encode_string (s : string) (rest : list byte) :
  utf8.ValidString s = true ->
  exists lit, json.encode_string s = json.dquote :: lit /\
              json.unquote (lit ++ rest) = Some (list_ascii_of_string s, rest).
Proof.
  intros Hs. unfold json.encode_string. cbv zeta.
  eexists. split; [reflexivity |].
  rewrite <- app_assoc. cbn [app]. unfold json.unquote.
  apply unquote_string_from.
  - exact Hs.
  - lia.
  - rewrite length_app. simpl. lia.
Qed.

Lemma skipSpace_cons (c : byte) (r : list byte) :
  json.isSpace c = false -> json.skipSpace (c :: r) = c :: r.
Proof. intros H. simpl. rewrite H. reflexivity. Qed.

Lemma startsValue_skipSpace (b rest : list byte) :
  json.startsValue b = true ->
  exists c r, b = c :: r /\ json.skipSpace (b ++ rest) = c :: r ++ rest /\
              Ascii.eqb c "]" = false.
Proof.
  destruct b as [| c r]; [discriminate |]. simpl.
  intros [Hs Hb]%andb_true_iff. apply negb_true_iff in Hs, Hb.
  exists c, r. rewrite Hs. auto.
Qed.

Lemma delimits_closing (v : json.Value) (c : byte) (rest : list byte) :
  c = ","%char \/ c = "]"%char \/ c = "}"%char -> json.delimits v (c :: rest) = true.
Proof. intros [-> | [-> | ->]]; destruct v; reflexivity. Qed.

Ltac lengths :=
  repeat match goal with
         | H : context [length (_ :: _)] |- _ => cbn [length] in H
         end;
  repeat (rewrite length_app || cbn [length json.comma]); lia.

(** The elements of an array. *)
Lemma elements_encode (es : list json.Value) :
  Forall (fun v => json.wellFormed v = true -> json.readsBack v) es ->
  forallb json.wellFormed es = true ->
  es <> [] ->
  forall first xs, json.encode_elems first es = inl xs ->
  exists body,
    xs = json.comma first ++ body /\
    json.startsValue body = true /\
    exists n, (n <= length body)%nat /\
      forall fuel rest, (n <= fuel)%nat ->
        json.elements fuel (body ++ rest) = Some (map json.tree_of es, rest).
Proof.
  induction es as [| e es IH]; intros HP Hwf Hne first xs Hxs; [contradiction |].
  cbn [json.encode_elems] in Hxs. cbn [forallb] in Hwf.
  apply andb_true_iff in Hwf as [Hwe Hwes].
  inversion HP as [| ? ? He Hes]; subst.
  destruct (json.encode e) as [x | err] eqn:Hx; [| discriminate].
  destruct (He Hwe x Hx) as (Hstart & n & Hn & Hval).
  destruct (json.encode_elems false es) as [xs' | err] eqn:Hxs'; [| discriminate].
  injection Hxs as <-. exists (x ++ xs'). split; [reflexivity |].
  split. { destruct x; [discriminate Hstart | exact Hstart]. }
  destruct es as [| e' es'].
  - injection Hxs' as <-. exists (S n). split; [lengths |].
    intros fuel rest Hfuel. destruct fuel as [| fuel]; [lia |].
    rewrite elements_S, <- app_assoc.
    rewrite Hval by (try lia; apply delimits_closing; auto).
    reflexivity.
  - destruct (IH Hes Hwes ltac:(discriminate) false xs' Hxs')
      as (body' & -> & _ & n' & Hn' & Helems).
    exists (S (n + n')). split; [lengths |].
    intros fuel rest Hfuel. destruct fuel as [| fuel]; [lia |].
    rewrite elements_S, <- app_assoc.
    rewrite Hval by (try lia; apply delimits_closing; auto).
    cbn [json.comma app]. rewrite skipSpace_cons by reflexivity.
    change (Ascii.eqb "," ",") with true. cbv iota.
    rewrite Helems by lia. reflexivity.
Qed.

(** The members of an object. *)
Lemma members_encode (fs : list (string * json.Value)) :
  Forall (fun f => json.wellFormed (snd f) = true -> json.readsBack (snd f)) fs ->
  forallb (fun f => utf8.ValidString (fst f) && json.wellFormed (snd f)) fs = true ->
  fs <> [] ->
  forall first xs, json.encode_fields first fs = inl xs ->
  exists body,
    xs = json.comma first ++ json.dquote :: body /\
    exists n, (n <= length body)%nat /\
      forall fuel rest, (n <= fuel)%nat ->
        json.members fuel (json.dquote :: body ++ rest) =
        Some (map (fun f => (list_ascii_of_string (fst f), json.tree_of (snd f))) fs, rest).
Proof.
  induction fs as [| [name fv] fs IH]; intros HP Hwf Hne first xs Hxs; [contradiction |].
  cbn [json.encode_fields] in Hxs. cbn [forallb fst snd] in Hwf.
  apply andb_true_iff in Hwf as [Hwe Hwes]. apply andb_true_iff in Hwe as [Hname Hwe].
  inversion HP as [| ? ? He Hes]; subst. cbn [snd] in He.
  destruct (json.encode fv) as [x | err] eqn:Hx; [| discriminate].
  destruct (He Hwe x Hx) as (Hstart & n & Hn & Hval).
  destruct (json.encode_fields false fs) as [xs' | err] eqn:Hxs'; [| discriminate].
  injection Hxs as <-.
  set (lit := json.string_from (length (list_ascii_of_string name))
                (list_ascii_of_string name) ++ [json.dquote]).
  exists (lit ++ ":"%char :: x ++ xs').
  split; [reflexivity |].
  assert (Hkey : forall tail, json.unquote (lit ++ tail) = Some (list_ascii_of_string name, tail)).
  { intros tail. destruct (unquote_encode_string name tail Hname) as (lit' & Hlit' & Hun).
    unfold json.encode_string in Hlit'. cbv zeta in Hlit'. injection Hlit' as <-. exact Hun. }
  clearbody lit.
  destruct fs as [| f' fs'].
  - injection Hxs' as <-. exists (S n). split; [lengths |].
    intros fuel rest Hfuel. destruct fuel as [| fuel]; [lia |].
    rewrite <- app_assoc. cbn [app]. rewrite <- app_assoc. cbn [app].
    rewrite members_S, Hkey.
    rewrite skipSpace_cons by reflexivity.
    change (negb (Ascii.eqb ":" ":")) with false. cbv iota.
    rewrite Hval by (try lia; apply delimits_closing; auto).
    reflexivity.
  - destruct (IH Hes Hwes ltac:(discriminate) false xs' Hxs')
      as (body' & -> & n' & Hn' & Hmem).
    exists (S (n + n')). split; [lengths |].
    intros fuel rest Hfuel. destruct fuel as [| fuel]; [lia |].
    rewrite <- app_assoc. cbn [app]. rewrite <- app_assoc. cbn [app json.comma].
    rewrite members_S, Hkey.
    rewrite skipSpace_cons by reflexivity.
    change (negb (Ascii.eqb ":" ":")) with false. cbv iota.
    rewrite Hval by (try lia; apply delimits_closing; auto).
    rewrite skipSpace_cons by reflexivity.
    change (Ascii.eqb "," ",") with true. cbv iota.
    rewrite skipSpace_cons by reflexivity.
    rewrite Hmem by lia. reflexivity.
Qed.

(** The scanner reads back the encoding of every well-formed value. *)
Lemma value_encode (v : json.Value) : json.wellFormed v = true -> json.readsBack v.
Proof.
  induction v as [s | i | es IH | fs IH | |] using Value_nested_ind;
    intros Hwf b Hb; try discriminate.
  - (* a string *)
    cbn [json.wellFormed] in Hwf. cbn [json.encode] in Hb. injection Hb as <-.
    split; [reflexivity |]. exists 1%nat.
    split; [unfold json.encode_string; cbn [length]; lia |].
    intros fuel rest Hfuel _. destruct fuel as [| fuel]; [lia |].
    destruct (unquote_encode_string s rest Hwf) as (lit & -> & Hun).
    cbn [app]. rewrite value_string, Hun. reflexivity.
  - (* an integer *)
    cbn [json.wellFormed] in Hwf. cbn [json.encode] in Hb. injection Hb as <-.
    destruct (FormatInt_spec i Hwf) as (ds & Hfmt & Hdig & Hlead & _).
    destruct ds as [| d ds']; [contradiction |].
    pose proof (Forall_inv Hdig) as Hd. pose proof (isDigit_val d Hd) as Hdv.
    assert (Hfirst : exists c r, strconv.FormatInt i = c :: r /\
                                 (c = "-"%char \/ strconv.isDigit c = true)).
    { rewrite Hfmt. destruct (i <? 0); cbn [app]; eauto. }
    destruct Hfirst as (c & r & Hcr & Hc).
    split.
    { rewrite Hcr. destruct Hc as [-> | Hc]; [reflexivity |].
      pose proof (isDigit_val c Hc). cbn [json.startsValue]. unfold json.isSpace.
      rewrite !eqb_of_val; [reflexivity | ..].
      all: match goal with |- byte_val _ <> byte_val ?k =>
             let x := eval vm_compute in (byte_val k) in change (byte_val k) with x end; lia. }
    exists 1%nat. split; [rewrite Hcr; cbn [length]; lia |].
    intros fuel rest Hfuel Hrest. destruct fuel as [| fuel]; [lia |].
    cbn [json.delimits] in Hrest.
    pose proof (number_FormatInt i rest Hwf Hrest) as Hnum.
    cbn [json.tree_of]. rewrite Hcr in Hnum |- *. cbn [app] in Hnum |- *.
    rewrite value_number by exact Hc. rewrite Hnum. reflexivity.
  - (* a slice *)
    rewrite encode_VSlice in Hb. cbn [json.wellFormed] in Hwf.
    destruct es as [| e es'].
    { injection Hb as <-. split; [reflexivity |]. exists 1%nat.
      split; [cbn; lia |]. intros fuel rest Hfuel _.
      destruct fuel as [| fuel]; [lia |]. apply value_null. }
    destruct (json.encode_elems true (e :: es')) as [xs | err] eqn:Hxs; [| discriminate].
    injection Hb as <-.
    destruct (elements_encode (e :: es') IH Hwf ltac:(discriminate) true xs Hxs)
      as (body & -> & Hstart & n & Hn & Helems).
    split; [reflexivity |]. exists (S n). split; [lengths |].
    intros fuel rest Hfuel _. destruct fuel as [| fuel]; [lia |].
    cbn [json.comma app]. rewrite value_array.
    destruct (startsValue_skipSpace body rest Hstart) as (c & r & -> & -> & Hc).
    rewrite Hc. change (c :: r ++ rest) with ((c :: r) ++ rest).
    rewrite Helems by lia. reflexivity.
  - (* a struct *)
    rewrite encode_VStruct in Hb. cbn [json.wellFormed] in Hwf.
    destruct (json.encode_fields true fs) as [xs | err] eqn:Hxs; [| discriminate].
    injection Hb as <-. split; [reflexivity |].
    destruct fs as [| f fs'].
    { injection Hxs as <-. exists 1%nat. split; [cbn; lia |].
      intros fuel rest Hfuel _. destruct fuel as [| fuel]; [lia |]. reflexivity. }
    destruct (members_encode (f :: fs') IH Hwf ltac:(discriminate) true xs Hxs)
      as (body & -> & n & Hn & Hmem).
    exists (S n). split; [lengths |].
    intros fuel rest Hfuel _. destruct fuel as [| fuel]; [lia |].
    cbn [json.comma app]. rewrite value_object.
    rewrite skipSpace_cons by reflexivity.
    change (Ascii.eqb json.dquote "}") with false. cbv iota.
    rewrite Hmem by lia. reflexivity.
Qed.

(** ** The decoder on what the scanner read *)

Lemma wellFormed_connections (cs : list connDiagInfo) :
  forallb validConnection cs = true ->
  forallb json.wellFormed (map value_of_connDiagInfo cs) = true.
Proof.
  induction cs as [| c cs IH]; [reflexivity |]. cbn [forallb map].
  intros [Hc Hcs]%andb_true_iff. rewrite (IH Hcs), andb_true_r.
  unfold validConnection in Hc. apply andb_true_iff in Hc as [Hl Hi].
  cbn. rewrite Hl, Hi. reflexivity.
Qed.

Lemma wellFormed_keys (ks : list string) :
  forallb utf8.ValidString ks = true ->
  forallb json.wellFormed (map json.VString ks) = true.
Proof.
  induction ks as [| k ks IH]; [reflexivity |]. cbn [forallb map json.wellFormed].
  intros [Hk Hks]%andb_true_iff. rewrite Hk, (IH Hks). reflexivity.
Qed.

Lemma wellFormed_diagInfo (di : diagInfo) :
  validSnapshot di = true -> json.wellFormed (value_of_diagInfo di) = true.
Proof.
  unfold validSnapshot. intros H.
  apply andb_true_iff in H as [H H5]. apply andb_true_iff in H as [H H4].
  apply andb_true_iff in H as [H H3]. apply andb_true_iff in H as [H1 H2].
  unfold value_of_diagInfo. cbn [json.wellFormed forallb fst snd].
  rewrite H1, H4, H5, (wellFormed_connections _ H2), (wellFormed_keys _ H3).
  reflexivity.
Qed.

Lemma into_connections (cs : list connDiagInfo) :
  forallb validConnection cs = true ->
  Unmarshal.into_elems Unmarshal.into_connDiagInfo new_connDiagInfo
    (map json.tree_of (map value_of_connDiagInfo cs)) [] = (cs, None).
Proof.
  induction cs as [| [l i] cs IH]; [reflexivity |]. cbn [forallb map].
  intros [Hc Hcs]%andb_true_iff. cbn [Unmarshal.into_elems hd tl].
  rewrite (IH Hcs).
  unfold validConnection in Hc. cbn [c_Latency c_ID] in Hc.
  apply andb_true_iff in Hc as [Hl Hi].
  cbn [value_of_connDiagInfo json.tree_of map fst snd c_Latency c_ID].
  unfold Unmarshal.into_connDiagInfo, Unmarshal.into_struct.
  cbn [Unmarshal.into_fields].
  change (Unmarshal.field ["Latency"; "ID"]%string (list_ascii_of_string "Latency"))
    with (Some 0%nat).
  change (Unmarshal.field ["Latency"; "ID"]%string (list_ascii_of_string "ID"))
    with (Some 1%nat).
  cbn [Unmarshal.set_connDiagInfo Unmarshal.into_int64 Unmarshal.into_string].
  rewrite (ParseInt_FormatInt l Hl), string_of_list_ascii_of_string.
  reflexivity.
Qed.

Lemma into_keys (ks : list string) :
  Unmarshal.into_elems Unmarshal.into_string EmptyString
    (map json.tree_of (map json.VString ks)) [] = (ks, None).
Proof.
  induction ks as [| k ks IH]; [reflexivity |].
  cbn [map Unmarshal.into_elems hd tl json.tree_of Unmarshal.into_string].
  rewrite IH, string_of_list_ascii_of_string. reflexivity.
Qed.

Lemma tree_of_VSlice (es : list json.Value) :
  json.tree_of (json.VSlice es) =
  match es with [] => json.JNull | _ :: _ => json.JArray (map json.tree_of es) end.
Proof. destruct es; reflexivity. Qed.

Lemma tree_of_VStruct (fs : list (string * json.Value)) :
  json.tree_of (json.VStruct fs) =
  json.JObject (map (fun f => (list_ascii_of_string (fst f), json.tree_of (snd f))) fs).
Proof. reflexivity. Qed.

Lemma into_slice_connections (cs : list connDiagInfo) :
  forallb validConnection cs = true ->
  Unmarshal.into_slice "[]diagnostic.connDiagInfo" Unmarshal.into_connDiagInfo
    new_connDiagInfo (json.tree_of (json.VSlice (map value_of_connDiagInfo cs))) [] =
  (cs, None).
Proof.
  intros H. rewrite tree_of_VSlice. destruct cs as [| c cs]; [reflexivity |].
  change (map value_of_connDiagInfo (c :: cs))
    with (value_of_connDiagInfo c :: map value_of_connDiagInfo cs).
  cbv iota.
  change (value_of_connDiagInfo c :: map value_of_connDiagInfo cs)
    with (map value_of_connDiagInfo (c :: cs)).
  apply into_connections, H.
Qed.

Lemma into_slice_keys (ks : list string) :
  Unmarshal.into_slice "[]string" Unmarshal.into_string EmptyString
    (json.tree_of (json.VSlice (map json.VString ks))) [] = (ks, None).
Proof.
  rewrite tree_of_VSlice. destruct ks as [| k ks]; [reflexivity |].
  change (map json.VString (k :: ks)) with (json.VString k :: map json.VString ks).
  cbv iota.
  change (json.VString k :: map json.VString ks) with (map json.VString (k :: ks)).
  apply into_keys.
Qed.

(** The decoder stores the text of a snapshot into a new [diagInfo] and
    gets the snapshot. *)
Lemma into_diagInfo_tree (di : diagInfo) :
  validSnapshot di = true ->
  Unmarshal.into_diagInfo (json.tree_of (value_of_diagInfo di)) new_diagInfo = (di, None).
Proof.
  unfold validSnapshot. intros H.
  apply andb_true_iff in H as [H H5]. apply andb_true_iff in H as [H H4].
  apply andb_true_iff in H as [H H3]. apply andb_true_iff in H as [H1 H2].
  destruct di as [id cs ks life version]. cbn [ID Connections Keys LifeSpan CodeVersion] in *.
  unfold value_of_diagInfo. cbn [ID Connections Keys LifeSpan CodeVersion].
  rewrite tree_of_VStruct. cbn [map fst snd].
  pose proof (into_slice_connections cs H2) as Hcs.
  pose proof (into_slice_keys ks) as Hks.
  set (jc := json.tree_of (json.VSlice (map value_of_connDiagInfo cs))) in *.
  set (jk := json.tree_of (json.VSlice (map json.VString ks))) in *.
  clearbody jc jk.
  cbn [json.tree_of].
  unfold Unmarshal.into_diagInfo, Unmarshal.into_struct.
  cbn [Unmarshal.into_fields].
  change (Unmarshal.field _ (list_ascii_of_string "ID")) with (Some 0%nat).
  change (Unmarshal.field _ (list_ascii_of_string "Connections")) with (Some 1%nat).
  change (Unmarshal.field _ (list_ascii_of_string "Keys")) with (Some 2%nat).
  change (Unmarshal.field _ (list_ascii_of_string "LifeSpan")) with (Some 3%nat).
  change (Unmarshal.field _ (list_ascii_of_string "CodeVersion")) with (Some 4%nat).
  cbn [Unmarshal.set_diagInfo Unmarshal.into_string Unmarshal.into_int64
       ID Connections Keys LifeSpan CodeVersion new_diagInfo].
  rewrite Hcs.
  cbn [ID Connections Keys LifeSpan CodeVersion].
  rewrite Hks.
  cbn [ID Connections Keys LifeSpan CodeVersion].
  rewrite (ParseInt_FormatInt life H4), !string_of_list_ascii_of_string.
  reflexivity.
Qed.

(** [Decode] reads back a snapshot that [json.Marshal] wrote, and leaves
    what follows it in the stream. *)
Lemma Decode_Marshal (di : diagInfo) (b rest : list byte) :
  validSnapshot di = true ->
  json.Marshal (value_of_diagInfo di) = inl b ->
  Decode (b ++ rest) = (inl di, rest) /\ (2 <= length b)%nat.
Proof.
  intros Hvalid Hb.
  destruct (value_encode _ (wellFormed_diagInfo di Hvalid) b Hb)
    as (Hstart & n & Hn & Hval).
  destruct (startsValue_skipSpace b rest Hstart) as (c & r & Hbc & Hskip & _).
  split.
  - unfold Decode. rewrite Hskip. rewrite <- Hskip at 1.
    change (c :: r ++ rest) with ((c :: r) ++ rest). rewrite <- Hbc.
    assert (Hsame : json.skipSpace (b ++ rest) = b ++ rest).
    { rewrite Hskip, Hbc. reflexivity. }
    rewrite Hsame.
    rewrite Hval; [| rewrite length_app; lia | reflexivity].
    rewrite (into_diagInfo_tree di Hvalid). reflexivity.
  - unfold json.Marshal in Hb. unfold value_of_diagInfo in Hb.
    rewrite encode_VStruct in Hb.
    destruct (json.encode_fields _ _) as [xs |] eqn:Hxs; [| discriminate].
    injection Hb as <-. destruct xs as [| x xs]; [| cbn [length]; lia].
    cbn [json.encode_fields] in Hxs.
    repeat match type of Hxs with
           | match ?e with _ => _ end = _ => destruct e; try discriminate
           end.
Qed.

(** ** The fuel of the loops is enough *)

Lemma length_skipn_DecodeRune (b : byte) (p : list byte) :
  (length (skipn (snd (utf8.DecodeRune (b :: p))) (b :: p)) < length (b :: p))%nat.
Proof.
  pose proof (DecodeRune_width b p). rewrite length_skipn. lia.
Qed.

(** More fuel than the bytes of the string changes nothing. *)
Lemma Valid_from_enough (fuel : nat) :
  forall p fuel', (length p <= fuel)%nat -> (length p <= fuel')%nat ->
  utf8.Valid_from fuel p = utf8.Valid_from fuel' p.
Proof.
  induction fuel as [| fuel IH]; intros p fuel' H H'.
  - destruct p; [| simpl in H; lia]. destruct fuel'; reflexivity.
  - destruct p as [| b p]; [destruct fuel'; reflexivity |].
    destruct fuel' as [| fuel']; [simpl in H'; lia |].
    cbn [utf8.Valid_from]. destruct (utf8.isError _); [reflexivity |].
    pose proof (length_skipn_DecodeRune b p).
    apply IH; simpl in *; lia.
Qed.

Lemma string_from_enough (fuel : nat) :
  forall p fuel', (length p <= fuel)%nat -> (length p <= fuel')%nat ->
  json.string_from fuel p = json.string_from fuel' p.
Proof.
  induction fuel as [| fuel IH]; intros p fuel' H H'.
  - destruct p; [| simpl in H; lia]. destruct fuel'; reflexivity.
  - destruct p as [| b p]; [destruct fuel'; reflexivity |].
    destruct fuel' as [| fuel']; [simpl in H'; lia |].
    pose proof (length_skipn_DecodeRune b p).
    cbn [json.string_from].
    rewrite (IH p fuel') by (simpl in *; lia).
    rewrite (IH (skipn _ (b :: p)) fuel') by (simpl in *; lia).
    reflexivity.
Qed.

Lemma hex4_length (s s' : list byte) (r : Z) :
  json.hex4 s = Some (r, s') -> length s = (4 + length s')%nat.
Proof.
  unfold json.hex4. destruct s as [| h1 [| h2 [| h3 [| h4 s0]]]]; try discriminate.
  destruct (json.unhex h1), (json.unhex h2), (json.unhex h3), (json.unhex h4);
    try discriminate.
  intros [= _ <-]. reflexivity.
Qed.

Lemma getu4_length (s : list byte) :
  (length (snd (json.getu4 s)) <= length s)%nat.
Proof.
  unfold json.getu4. destruct s as [| b [| u s']]; try (simpl; lia).
  destruct (_ && _); [| simpl; lia].
  destruct (json.hex4 s') as [[r s''] |] eqn:H; [| simpl; lia].
  apply hex4_length in H. simpl in *. lia.
Qed.

Lemma prepend_inv (x : list byte) (o : option (list byte * list byte)) t rest :
  json.prepend x o = Some (t, rest) -> exists t', o = Some (t', rest) /\ t = x ++ t'.
Proof.
  destruct o as [[t' rest'] |]; [| discriminate]. intros [= <- <-]. eauto.
Qed.

(** A string literal takes at least its closing quote, and the result does
    not depend on the fuel once there is as much of it as bytes taken. *)
Lemma unquote_from_enough (fuel : nat) :
  forall s t rest, json.unquote_from fuel s = Some (t, rest) ->
  (length rest < length s)%nat /\
  forall fuel', (length s - length rest <= fuel')%nat ->
    json.unquote_from fuel' s = Some (t, rest).
Proof.
  induction fuel as [| fuel IH]; intros s t rest H; [discriminate |].
  destruct s as [| b r]; [discriminate |].
  rewrite unquote_from_S in H.
  assert (Hrec : forall x tail t rest,
    (length tail < length (b :: r))%nat ->
    json.prepend x (json.unquote_from fuel tail) = Some (t, rest) ->
    (length rest < length (b :: r))%nat /\
    forall fuel', (length (b :: r) - length rest <= S fuel')%nat ->
      json.prepend x (json.unquote_from fuel' tail) = Some (t, rest)).
  { intros x tail t0 rest0 Htail Hp.
    apply prepend_inv in Hp as (t' & Hu & ->).
    destruct (IH _ _ _ Hu) as [Hlen Hfuel]. split; [lia |].
    intros fuel' Hf. rewrite Hfuel by lia. reflexivity. }
  destruct (Ascii.eqb b json.dquote) eqn:Hq.
  { injection H as <- <-. split; [simpl; lia |].
    intros [| fuel'] Hf; [simpl in Hf; lia |]. rewrite unquote_from_S, Hq. reflexivity. }
  destruct (Ascii.eqb b json.backslash) eqn:Hb.
  { destruct r as [| e r']; [discriminate |].
    destruct (Ascii.eqb e "u") eqn:He.
    - destruct (json.hex4 r') as [[rr r2] |] eqn:Hh; [| discriminate].
      pose proof (hex4_length _ _ _ Hh) as Hl.
      destruct (json.IsSurrogate rr) eqn:Hs.
      + destruct (json.getu4 r2) as [rr1 r3] eqn:Hg.
        pose proof (getu4_length r2) as Hg'. rewrite Hg in Hg'. cbn [snd] in Hg'.
        cbv zeta in H. destruct (negb _) eqn:Hd.
        * apply Hrec in H; [| simpl; lia]. destruct H as [H1 H2]. split; [exact H1 |].
          intros [| fuel'] Hf; [simpl in *; lia |].
          rewrite unquote_from_S, Hq, Hb, He, Hh, Hs, Hg. cbv zeta. rewrite Hd.
          apply H2, Hf.
        * apply Hrec in H; [| simpl; lia]. destruct H as [H1 H2]. split; [exact H1 |].
          intros [| fuel'] Hf; [simpl in *; lia |].
          rewrite unquote_from_S, Hq, Hb, He, Hh, Hs, Hg. cbv zeta. rewrite Hd.
          apply H2, Hf.
      + apply Hrec in H; [| simpl; lia]. destruct H as [H1 H2]. split; [exact H1 |].
        intros [| fuel'] Hf; [simpl in *; lia |].
        rewrite unquote_from_S, Hq, Hb, He, Hh, Hs. apply H2, Hf.
    - destruct (json.unescape e) as [x |] eqn:Hx; [| discriminate].
      apply Hrec in H; [| simpl; lia]. destruct H as [H1 H2]. split; [exact H1 |].
      intros [| fuel'] Hf; [simpl in *; lia |].
      rewrite unquote_from_S, Hq, Hb, He, Hx. apply H2, Hf. }
  destruct (byte_val b <? 32) eqn:Hc; [discriminate |].
  destruct (byte_val b <? utf8.RuneSelf) eqn:Ha.
  - apply Hrec in H; [| simpl; lia]. destruct H as [H1 H2]. split; [exact H1 |].
    intros [| fuel'] Hf; [simpl in *; lia |].
    rewrite unquote_from_S, Hq, Hb, Hc, Ha. apply H2, Hf.
  - cbv zeta in H. apply Hrec in H; [| apply length_skipn_DecodeRune].
    destruct H as [H1 H2]. split; [exact H1 |].
    intros [| fuel'] Hf; [simpl in *; lia |].
    rewrite unquote_from_S, Hq, Hb, Hc, Ha. apply H2, Hf.
Qed.

Lemma skipSpace_length (s : list byte) : (length (json.skipSpace s) <= length s)%nat.
Proof.
  induction s as [| b s IH]; [reflexivity |]. simpl.
  destruct (json.isSpace b); simpl; lia.
Qed.

Lemma digits_length (s : list byte) :
  length s = (length (fst (json.digits s)) + length (snd (json.digits s)))%nat.
Proof.
  induction s as [| b s IH]; [reflexivity |]. simpl.
  destruct (strconv.isDigit b); [| reflexivity].
  destruct (json.digits s) as [ds rest]. simpl in *. lia.
Qed.

Lemma integer_length (s int rest : list byte) :
  json.integer s = Some (int, rest) -> (length rest < length s)%nat.
Proof.
  unfold json.integer. destruct s as [| b s']; [discriminate |].
  destruct (strconv.isDigit b) eqn:Hb; cbn [negb]; [| discriminate].
  destruct (Ascii.eqb b "0").
  - intros [= _ <-]. simpl. lia.
  - cbn [json.digits]. rewrite Hb.
    pose proof (digits_length s') as Hl.
    destruct (json.digits s') as [ds r0]. intros [= _ <-]. simpl in *. lia.
Qed.

Lemma fraction_length (s fr rest : list byte) :
  json.fraction s = Some (fr, rest) -> (length rest <= length s)%nat.
Proof.
  unfold json.fraction. destruct s as [| dot s']; [intros [= _ <-]; reflexivity |].
  destruct (Ascii.eqb dot "."); [| intros [= _ <-]; reflexivity].
  pose proof (digits_length s') as Hl.
  destruct (json.digits s') as [[| d ds] r0]; [discriminate |].
  intros [= _ <-]. simpl in *. lia.
Qed.

Lemma exponent_length (s ex rest : list byte) :
  json.exponent s = Some (ex, rest) -> (length rest <= length s)%nat.
Proof.
  unfold json.exponent. destruct s as [| e s']; [intros [= _ <-]; reflexivity |].
  destruct (_ || _); [| intros [= _ <-]; reflexivity].
  destruct (match s' with [] => _ | _ :: _ => _ end) as [sign s''] eqn:Hs.
  assert (Hsign : (length s'' <= length s')%nat).
  { destruct s' as [| sg s0]; [injection Hs as _ <-; reflexivity |].
    destruct (_ || _); injection Hs as _ <-; simpl; lia. }
  pose proof (digits_length s'') as Hl.
  destruct (json.digits s'') as [[| d ds] r0]; [discriminate |].
  intros [= _ <-]. simpl in *. lia.
Qed.

Lemma number_length (s lit rest : list byte) :
  json.number s = Some (lit, rest) -> (length rest < length s)%nat.
Proof.
  unfold json.number.
  destruct (match s with [] => _ | _ :: _ => _ end) as [sign s1] eqn:Hs.
  assert (Hs1 : (length s1 <= length s)%nat).
  { destruct s as [| b s']; [injection Hs as _ <-; reflexivity |].
    destruct (Ascii.eqb b "-"); injection Hs as _ <-; simpl; lia. }
  destruct (json.integer s1) as [[int s2] |] eqn:Hi; [| discriminate].
  destruct (json.fraction s2) as [[fr s3] |] eqn:Hf; [| discriminate].
  destruct (json.exponent s3) as [[ex s4] |] eqn:He; [| discriminate].
  intros [= _ <-].
  apply integer_length in Hi. apply fraction_length in Hf. apply exponent_length in He.
  lia.
Qed.

Lemma literal_length (name s rest : list byte) :
  json.literal name s = Some rest -> (length rest <= length s)%nat.
Proof.
  revert s. induction name as [| c name IH]; intros s; simpl.
  - intros [= <-]. reflexivity.
  - destruct s as [| b s']; [discriminate |].
    destruct (Ascii.eqb b c); [| discriminate]. intros H%IH. simpl. lia.
Qed.

Lemma unquote_length (r t rest : list byte) :
  json.unquote r = Some (t, rest) -> (length rest < length r)%nat.
Proof. intros H. apply (unquote_from_enough _ _ _ _ H). Qed.

Lemma value_S (fuel : nat) (s : list byte) :
  json.value (S fuel) s =
    match json.skipSpace s with
    | [] => None
    | b :: r =>
      if Ascii.eqb b "{" then
        match json.skipSpace r with
        | c :: r' =>
          if Ascii.eqb c "}" then Some (json.JObject [], r')
          else
            match json.members fuel (c :: r') with
            | Some (ms, rest) => Some (json.JObject ms, rest)
            | None => None
            end
        | [] => None
        end
      else if Ascii.eqb b "[" then
        match json.skipSpace r with
        | c :: r' =>
          if Ascii.eqb c "]" then Some (json.JArray [], r')
          else
            match json.elements fuel (c :: r') with
            | Some (es, rest) => Some (json.JArray es, rest)
            | None => None
            end
        | [] => None
        end
      else if Ascii.eqb b json.dquote then
        match json.unquote r with
        | Some (t, rest) => Some (json.JString t, rest)
        | None => None
        end
      else if Ascii.eqb b "-" || strconv.isDigit b then
        match json.number (b :: r) with
        | Some (lit, rest) => Some (json.JNumber lit, rest)
        | None => None
        end
      else if Ascii.eqb b "t" then
        match json.literal (list_ascii_of_string "rue") r with
        | Some rest => Some (json.JTrue, rest)
        | None => None
        end
      else if Ascii.eqb b "f" then
        match json.literal (list_ascii_of_string "alse") r with
        | Some rest => Some (json.JFalse, rest)
        | None => None
        end
      else if Ascii.eqb b "n" then
        match json.literal (list_ascii_of_string "ull") r with
        | Some rest => Some (json.JNull, rest)
        | None => None
        end
      else None
    end.
Proof. reflexivity. Qed.

Lemma members_S' (fuel : nat) (s : list byte) :
  json.members (S fuel) s =
    match s with
    | q :: r =>
      if negb (Ascii.eqb q json.dquote) then None
      else
        match json.unquote r with
        | None => None
        | Some (key, r1) =>
          match json.skipSpace r1 with
          | colon :: r2 =>
            if negb (Ascii.eqb colon ":") then None
            else
              match json.value fuel r2 with
              | None => None
              | Some (v, r3) =>
                match json.skipSpace r3 with
                | c :: r4 =>
                  if Ascii.eqb c "," then
                    match json.members fuel (json.skipSpace r4) with
                    | Some (ms, rest) => Some ((key, v) :: ms, rest)
                    | None => None
                    end
                  else if Ascii.eqb c "}" then Some ([(key, v)], r4)
                  else None
                | [] => None
                end
              end
          | [] => None
          end
        end
    | [] => None
    end.
Proof. reflexivity. Qed.

Lemma value_enough (fuel : nat) :
  json.enough json.value fuel /\ json.enough json.elements fuel /\
  json.enough json.members fuel.
Proof.
  induction fuel as [| fuel (IHv & IHe & IHm)].
  { repeat split; discriminate. }
  split; [| split]; intros s a rest H.
  - (* value *)
    pose proof H as H0. rewrite value_S in H.
    pose proof (skipSpace_length s) as Hs0.
    destruct (json.skipSpace s) as [| b r] eqn:Hs; [discriminate |].
    cbn [length] in Hs0.
    destruct (Ascii.eqb b "{") eqn:B1.
    { pose proof (skipSpace_length r) as Hr0.
      destruct (json.skipSpace r) as [| c r'] eqn:Hr; [discriminate |].
      cbn [length] in Hr0.
      destruct (Ascii.eqb c "}") eqn:C1.
      - injection H as <- <-. split; [lia |].
        intros [| fuel'] Hf; [lia |]. rewrite value_S, Hs, B1, Hr, C1. reflexivity.
      - destruct (json.members fuel (c :: r')) as [[ms rest'] |] eqn:Hm; [| discriminate].
        injection H as <- <-. destruct (IHm _ _ _ Hm) as [Hl Hf'].
        cbn [length] in Hl, Hf'. split; [lia |].
        intros [| fuel'] Hf; [lia |]. rewrite value_S, Hs, B1, Hr, C1.
        rewrite Hf' by lia. reflexivity. }
    destruct (Ascii.eqb b "[") eqn:B2.
    { pose proof (skipSpace_length r) as Hr0.
      destruct (json.skipSpace r) as [| c r'] eqn:Hr; [discriminate |].
      cbn [length] in Hr0.
      destruct (Ascii.eqb c "]") eqn:C1.
      - injection H as <- <-. split; [lia |].
        intros [| fuel'] Hf; [lia |]. rewrite value_S, Hs, B1, B2, Hr, C1. reflexivity.
      - destruct (json.elements fuel (c :: r')) as [[es rest'] |] eqn:Hm; [| discriminate].
        injection H as <- <-. destruct (IHe _ _ _ Hm) as [Hl Hf'].
        cbn [length] in Hl, Hf'. split; [lia |].
        intros [| fuel'] Hf; [lia |]. rewrite value_S, Hs, B1, B2, Hr, C1.
        rewrite Hf' by lia. reflexivity. }
    assert (Hleaf : forall fuel', json.value (S fuel') s = json.value (S fuel) s).
    { intros fuel'. rewrite !value_S, Hs, B1, B2. reflexivity. }
    assert (Hlen : (length rest < S (length r))%nat).
    { destruct (Ascii.eqb b json.dquote).
      { destruct (json.unquote r) as [[t rest'] |] eqn:Hu; [| discriminate].
        injection H as _ <-. apply unquote_length in Hu. lia. }
      destruct (_ || _).
      { destruct (json.number (b :: r)) as [[lit rest'] |] eqn:Hn; [| discriminate].
        injection H as _ <-. apply number_length in Hn. exact Hn. }
      repeat match type of H with
             | (if ?c then _ else _) = _ => destruct c
             | match json.literal ?n ?r with _ => _ end = _ =>
               let Hl := fresh "Hl" in
               destruct (json.literal n r) eqn:Hl; [apply literal_length in Hl |]
             end; try discriminate; injection H as _ <-; lia. }
    split; [lia |].
    intros [| fuel'] Hf; [lia |]. rewrite Hleaf. exact H0.
  - (* elements *)
    rewrite elements_S in H.
    destruct (json.value fuel s) as [[v r] |] eqn:Hv; [| discriminate].
    destruct (IHv _ _ _ Hv) as [Hl Hf'].
    pose proof (skipSpace_length r) as Hr0.
    destruct (json.skipSpace r) as [| c r'] eqn:Hr; [discriminate |].
    cbn [length] in Hr0.
    destruct (Ascii.eqb c ",") eqn:C1.
    + destruct (json.elements fuel r') as [[vs rest'] |] eqn:He; [| discriminate].
      injection H as <- <-. destruct (IHe _ _ _ He) as [Hl2 Hf2].
      split; [lia |].
      intros [| fuel'] Hf; [lia |]. rewrite elements_S.
      rewrite Hf' by lia. rewrite Hr, C1. rewrite Hf2 by lia. reflexivity.
    + destruct (Ascii.eqb c "]") eqn:C2; [| discriminate].
      injection H as <- <-. split; [lia |].
      intros [| fuel'] Hf; [lia |]. rewrite elements_S.
      rewrite Hf' by lia. rewrite Hr, C1, C2. reflexivity.
  - (* members *)
    rewrite members_S' in H.
    destruct s as [| q r]; [discriminate |].
    destruct (negb (Ascii.eqb q json.dquote)) eqn:Q; [discriminate |].
    destruct (json.unquote r) as [[key r1] |] eqn:Hu; [| discriminate].
    pose proof (unquote_length _ _ _ Hu) as Hlu.
    pose proof (skipSpace_length r1) as Hr1.
    destruct (json.skipSpace r1) as [| colon r2] eqn:Hs1; [discriminate |].
    cbn [length] in Hr1.
    destruct (negb (Ascii.eqb colon ":")) eqn:Hc; [discriminate |].
    destruct (json.value fuel r2) as [[v r3] |] eqn:Hv; [| discriminate].
    destruct (IHv _ _ _ Hv) as [Hl Hf'].
    pose proof (skipSpace_length r3) as Hr3.
    destruct (json.skipSpace r3) as [| c r4] eqn:Hs3; [discriminate |].
    cbn [length] in Hr3.
    destruct (Ascii.eqb c ",") eqn:C1.
    + destruct (json.members fuel (json.skipSpace r4)) as [[ms rest'] |] eqn:Hm;
        [| discriminate].
      injection H as <- <-. destruct (IHm _ _ _ Hm) as [Hl2 Hf2].
      pose proof (skipSpace_length r4) as Hr4.
      cbn [length]. split; [lia |].
      intros [| fuel'] Hf; [lia |]. rewrite members_S', Q, Hu, Hs1, Hc.
      rewrite Hf' by lia. rewrite Hs3, C1. rewrite Hf2 by lia. reflexivity.
    + destruct (Ascii.eqb c "}") eqn:C2; [| discriminate].
      injection H as <- <-. cbn [length]. split; [lia |].
      intros [| fuel'] Hf; [lia |]. rewrite members_S', Q, Hu, Hs1, Hc.
      rewrite Hf' by lia. rewrite Hs3, C1, C2. reflexivity.
Qed.

(** The fuel of [unquote], of [Decode] and of the decoding loop of
    [GetDiagnostic] is enough: with more fuel the result is the same. *)
Lemma unquote_enough (fuel : nat) (s t rest : list byte) :
  json.unquote_from fuel s = Some (t, rest) -> json.unquote s = Some (t, rest).
Proof.
  intros H. destruct (unquote_from_enough _ _ _ _ H) as [_ Hf].
  apply Hf. lia.
Qed.

Lemma value_length_enough (fuel : nat) (s rest : list byte) (j : json.Json) :
  json.value fuel s = Some (j, rest) -> json.value (length s) s = Some (j, rest).
Proof.
  intros H. destruct (value_enough fuel) as (Hv & _ & _).
  destruct (Hv _ _ _ H) as [_ Hf]. apply Hf. lia.
Qed.

Lemma Decode_consumes (dec dec' : Decoder) (di : diagInfo) :
  Decode dec = (inl di, dec') -> (length dec' < length dec)%nat.
Proof.
  unfold Decode. pose proof (skipSpace_length dec) as Hs.
  destruct (json.skipSpace dec) as [| b s]; [discriminate |].
  destruct (json.value _ _) as [[j rest] |] eqn:Hv; [| discriminate].
  destruct (value_enough (length (b :: s))) as (Hen & _ & _).
  destruct (Hen _ _ _ Hv) as [Hl _].
  destruct (Unmarshal.into_diagInfo j new_diagInfo) as [di' [err |]]; [discriminate |].
  intros [= _ <-]. lia.
Qed.

Lemma decodeAll_enough (fuel : nat) :
  forall (dec : Decoder) (out : list diagInfo) (fuel' : nat),
  (length dec < fuel)%nat -> (length dec < fuel')%nat ->
  decodeAll fuel dec out = decodeAll fuel' dec out.
Proof.
  induction fuel as [| fuel IH]; intros dec out fuel' H H'; [lia |].
  destruct fuel' as [| fuel']; [lia |].
  cbn [decodeAll]. destruct (Decode dec) as [[di | err] dec'] eqn:Hd; [| reflexivity].
  apply Decode_consumes in Hd. apply IH; lia.
Qed.

Lemma formatBits_enough (fuel : nat) :
  forall (u : Z) (a : list byte) (fuel' : nat),
  0 <= u < 10 ^ Z.of_nat fuel -> (0 < fuel <= fuel')%nat ->
  strconv.formatBits fuel u a = strconv.formatBits fuel' u a.
Proof.
  induction fuel as [| fuel IH]; intros u a fuel' Hu Hf; [lia |].
  destruct fuel' as [| fuel']; [lia |]. cbn [strconv.formatBits].
  destruct (Z.leb_spec 10 u) as [Hge | Hlt]; [| reflexivity].
  rewrite Nat2Z.inj_succ, Z.pow_succ_r in Hu by lia.
  assert (0 < fuel)%nat.
  { destruct fuel; [| lia]. change (10 ^ Z.of_nat 0) with 1 in Hu. lia. }
  apply IH; [| lia]. Z.div_mod_to_equations. lia.
Qed.

(** ** The encoding of snapshots *)

(** C9.  [diagInfo.Marshal] returns for every snapshot and so for the one
    that [getDiagInfo] builds from the state of the node, in every
    environment: the branch that panics is not taken.  [json.Marshal] does
    fail, on a channel or a function; a snapshot holds strings, integers,
    slices and structs only. *)
Theorem Marshal_never_panics :
  forall (W : Type) (handle : forall X, Event X -> W -> X * W)
         (Pretty : list byte -> string) (d : Diagnostics) (w : W),
  (exists di w' b,
     run handle (getDiagInfo Pretty d) w = (Returned di, w') /\
     Marshal di = Ret b /\
     json.Marshal (value_of_diagInfo di) = inl b) /\
  (forall di, exists b, Marshal di = Ret b) /\
  json.Marshal json.VChan = inr (json.UnsupportedTypeError "chan").
Proof.
  intros W handle Pretty d w. split; [| split].
  - destruct (run_getDiagInfo handle Pretty d w) as (di & w' & Hrun & _).
    destruct (Marshal_returns di) as (b & Hb & Hjson).
    exists di, w', b. auto.
  - intros di. destruct (Marshal_returns di) as (b & Hb & _). eauto.
  - reflexivity.
Qed.

(** C6, as the library has it.  A snapshot whose strings are well-formed
    UTF-8 (and whose durations are [int64] values) is encoded by
    [diagInfo.Marshal], and decoding the bytes gives the same snapshot, field
    by field: the identity, the connections in order with their latencies,
    the keys, the life span to the nanosecond and the version.  Nothing is
    left in the stream, and bytes that follow the encoding are left
    unread. *)
Theorem snapshot_round_trip :
  forall (di : diagInfo),
  validSnapshot di = true ->
  exists b,
    Marshal di = Ret b /\
    Decode (NewDecoder b) = (inl di, []) /\
    forall rest, Decode (NewDecoder (b ++ rest)) = (inl di, rest).
Proof.
  intros di Hvalid. destruct (Marshal_returns di) as (b & Hb & Hjson).
  exists b. split; [exact Hb |]. split.
  - rewrite <- (app_nil_r b) at 1. apply (Decode_Marshal di b [] Hvalid Hjson).
  - intros rest. apply (Decode_Marshal di b rest Hvalid Hjson).
Qed.

Lemma snapshot_round_trip_witness :
  exists b,
    Marshal okSnapshot = Ret b /\
    Decode (NewDecoder b) = (inl okSnapshot, []).
Proof.
  destruct (snapshot_round_trip okSnapshot) as (b & Hb & Hdec & _).
  - vm_compute. reflexivity.
  - exists b. split; [exact Hb | exact Hdec].
Defined.

(** C6, as the claim has it, fails: the encoder writes a byte that is not
    UTF-8 as the escape of U+FFFD, and the decoder reads the three bytes of
    U+FFFD where the snapshot had one byte. *)
Lemma snapshot_round_trip_coerces :
  Marshal rawSnapshot = Ret (bytesOf rawSnapshot) /\
  Decode (NewDecoder (bytesOf rawSnapshot)) = (inl coercedSnapshot, []) /\
  ID coercedSnapshot <> ID rawSnapshot.
Proof.
  split; [| split].
  - vm_compute. reflexivity.
  - vm_compute. reflexivity.
  - discriminate.
Qed.

Lemma decodeAll_step (fuel : nat) (dec dec' : Decoder) (di : diagInfo)
    (out : list diagInfo) :
  Decode dec = (inl di, dec') ->
  decodeAll (S fuel) dec out = decodeAll fuel dec' (out ++ [di]).
Proof. intros H. cbn [decodeAll]. rewrite H. reflexivity. Qed.

Lemma decodeAll_end (fuel : nat) (out : list diagInfo) :
  decodeAll (S fuel) [] out = Ret out.
Proof. reflexivity. Qed.

(** C7, as the library has it.  The encodings of three snapshots whose
    strings are well-formed UTF-8, written one after the other with nothing
    between them, are decoded by the loop of [GetDiagnostic] into those
    three snapshots in that order, added to what was gathered before; the
    loop then meets the end of the stream, [io.EOF], and returns without
    logging an error: it raises no event at all. *)
Theorem three_snapshots_stream :
  forall (d1 d2 d3 : diagInfo) (out : list diagInfo),
  validSnapshot d1 = true -> validSnapshot d2 = true -> validSnapshot d3 = true ->
  let data := bytesOf d1 ++ bytesOf d2 ++ bytesOf d3 in
  Marshal d1 = Ret (bytesOf d1) /\
  Marshal d2 = Ret (bytesOf d2) /\
  Marshal d3 = Ret (bytesOf d3) /\
  decodeAll (S (length data)) (NewDecoder data) out = Ret (out ++ [d1; d2; d3]) /\
  Decode (NewDecoder []) = (inr io_EOF, []).
Proof.
  intros d1 d2 d3 out H1 H2 H3.
  assert (Hbytes : forall di, Marshal di = Ret (bytesOf di) /\
                              json.Marshal (value_of_diagInfo di) = inl (bytesOf di)).
  { intros di. destruct (Marshal_returns di) as (b & Hb & Hjson).
    unfold bytesOf. rewrite Hjson. auto. }
  destruct (Hbytes d1) as [M1 J1], (Hbytes d2) as [M2 J2], (Hbytes d3) as [M3 J3].
  cbv zeta. repeat (split; [assumption |]). split; [| reflexivity].
  destruct (Decode_Marshal d1 _ (bytesOf d2 ++ bytesOf d3) H1 J1) as [D1 L1].
  destruct (Decode_Marshal d2 _ (bytesOf d3) H2 J2) as [D2 L2].
  destruct (Decode_Marshal d3 _ [] H3 J3) as [D3 L3].
  rewrite app_nil_r in D3.
  rewrite !length_app. unfold NewDecoder.
  replace (S (length (bytesOf d1) + (length (bytesOf d2) + length (bytesOf d3))))
    with (S (S (S (S (length (bytesOf d1) + length (bytesOf d2)
                      + length (bytesOf d3) - 3))))) by lia.
  rewrite (decodeAll_step _ _ _ _ _ D1), (decodeAll_step _ _ _ _ _ D2),
    (decodeAll_step _ _ _ _ _ D3), decodeAll_end, <- !app_assoc.
  reflexivity.
Qed.

Lemma three_snapshots_stream_witness :
  decodeAll
    (S (length (bytesOf okSnapshot ++ bytesOf new_diagInfo ++ bytesOf okSnapshot)))
    (NewDecoder (bytesOf okSnapshot ++ bytesOf new_diagInfo ++ bytesOf okSnapshot)) [] =
  Ret [okSnapshot; new_diagInfo; okSnapshot].
Proof.
  destruct (three_snapshots_stream okSnapshot new_diagInfo okSnapshot [])
    as (_ & _ & _ & Hdec & _).
  - vm_compute. reflexivity.
  - vm_compute. reflexivity.
  - vm_compute. reflexivity.
  - exact Hdec.
Defined.

(** C7, as the claim has it, fails: of three snapshots written one after
    the other, one whose identity is not UTF-8 is not the snapshot that is
    decoded in its place. *)
Lemma three_snapshots_stream_coerces :
  decodeAll
    (S (length (bytesOf okSnapshot ++ bytesOf rawSnapshot ++ bytesOf okSnapshot)))
    (NewDecoder (bytesOf okSnapshot ++ bytesOf rawSnapshot ++ bytesOf okSnapshot)) [] =
  Ret [okSnapshot; coercedSnapshot; okSnapshot] /\
  [okSnapshot; coercedSnapshot; okSnapshot] <> [okSnapshot; rawSnapshot; okSnapshot].
Proof.
  split.
  - vm_compute. reflexivity.
  - discriminate.
Qed.

(** ** More of the specification *)

(** X1.  After the encodings of two snapshots whose strings are well-formed
    UTF-8, a fragment that does not decode ends the loop of
    [GetDiagnostic]: the two snapshots are added to what was gathered
    before, which is kept as it was, and the error is logged, once, unless
    it is [io.EOF]. *)
Theorem trailing_fragment_keeps_prefix :
  forall (W : Type) (handle : forall X, Event X -> W -> X * W)
         (d1 d2 : diagInfo) (fragment rest : list byte) (err : error)
         (out : list diagInfo) (w : W),
  validSnapshot d1 = true -> validSnapshot d2 = true ->
  Decode fragment = (inr err, rest) ->
  let data := bytesOf d1 ++ bytesOf d2 ++ fragment in
  fst (run handle (decodeAll (S (length data)) (NewDecoder data) out) w) =
  Returned (out ++ [d1; d2]) /\
  trace handle (decodeAll (S (length data)) (NewDecoder data) out) w =
  if decide (err = io_EOF) then []
  else [anEvent (Log Error_ "error decoding diagInfo: %v")].
Proof.
  intros W handle d1 d2 fragment rest err out w H1 H2 Hfragment. cbv zeta.
  assert (Hbytes : forall di, json.Marshal (value_of_diagInfo di) = inl (bytesOf di)).
  { intros di. destruct (Marshal_returns di) as (b & _ & Hjson).
    unfold bytesOf. rewrite Hjson. reflexivity. }
  destruct (Decode_Marshal d1 _ (bytesOf d2 ++ fragment) H1 (Hbytes d1)) as [D1 L1].
  destruct (Decode_Marshal d2 _ fragment H2 (Hbytes d2)) as [D2 L2].
  rewrite !length_app. unfold NewDecoder.
  replace (S (length (bytesOf d1) + (length (bytesOf d2) + length fragment)))
    with (S (S (S (length (bytesOf d1) + length (bytesOf d2) + length fragment - 2))))
    by lia.
  rewrite (decodeAll_step _ _ _ _ _ D1), (decodeAll_step _ _ _ _ _ D2), <- !app_assoc.
  cbn [decodeAll]. rewrite Hfragment.
  destruct (decide (err = io_EOF)) as [Heof | Hother].
  - split; reflexivity.
  - cbn [bind trigger run trace]. destruct (handle unit _ w) as [[] w'].
    split; reflexivity.
Qed.

Lemma trailing_fragment_keeps_prefix_witness :
  let data := bytesOf okSnapshot ++ bytesOf new_diagInfo ++ ["{"%char] in
  fst (run silent (decodeAll (S (length data)) (NewDecoder data) []) tt) =
  Returned [okSnapshot; new_diagInfo] /\
  trace silent (decodeAll (S (length data)) (NewDecoder data) []) tt =
  [anEvent (Log Error_ "error decoding diagInfo: %v")].
Proof.
  intros data.
  destruct (trailing_fragment_keeps_prefix unit silent okSnapshot new_diagInfo
              ["{"%char] ["{"%char] SyntaxError [] tt) as [Hrun Htrace].
  - vm_compute. reflexivity.
  - vm_compute. reflexivity.
  - vm_compute. reflexivity.
  - split; [exact Hrun | exact Htrace].
Defined.

(** X2.  A message with no payload and a message with no sender are
    refused before anything else is done: [HandleMessage] returns its
    error at once, the node is as it was, and nothing is asked of the
    environment. *)
Theorem HandleMessage_malformed :
  forall (Pretty : list byte -> string)
         (msg_FromObject : Peer -> Message -> Result NetMessage)
         (proto_Unmarshal : list byte -> Result Message)
         (d : Diagnostics) (ctx : Context),
  (forall mPeer,
     HandleMessage Pretty msg_FromObject proto_Unmarshal d ctx
       {| mes_Peer := mPeer; mes_Data := None |} =
     Ret (d, (None, Some (errors_New "message did not include Data")))) /\
  (forall mData,
     HandleMessage Pretty msg_FromObject proto_Unmarshal d ctx
       {| mes_Peer := None; mes_Data := Some mData |} =
     Ret (d, (None, Some (errors_New "message did not include a Peer")))).
Proof. intros. split; intros; reflexivity. Qed.

(** X4.  The decoding loop of [GetDiagnostic] ends: a snapshot that is
    decoded takes at least one byte from the stream, so a response of [n]
    bytes holds at most [n] snapshots, and the loop does the same with any
    bound above [n] on its iterations. *)
Theorem decode_loop_ends :
  forall (dec : Decoder),
  (forall di dec', Decode dec = (inl di, dec') -> (length dec' < length dec)%nat) /\
  (forall out fuel, (length dec < fuel)%nat ->
     decodeAll fuel dec out = decodeAll (S (length dec)) dec out).
Proof.
  intros dec. split.
  - intros di dec'. apply Decode_consumes.
  - intros out fuel Hfuel. apply decodeAll_enough; lia.
Qed.


(** ** The requests a node sends *)

Section Requests.

Context {W : Type} (handle : forall X, Event X -> W -> X * W).

Variable Pretty : list byte -> string.
Variable msg_FromObject : Peer -> Message -> Result NetMessage.
Variable proto_Unmarshal : list byte -> Result Message.

Lemma requests_app (a b : list AnyEvent) :
  requests (a ++ b) = requests a ++ requests b.
Proof. apply flat_map_app. Qed.

(** The events of [sendRequest]: none when the envelope cannot be built;
    otherwise the clock, the sender, and after a response the clock and the
    log. *)
Lemma trace_sendRequest (ctx : Context) (p : Peer) (pmes : Message) (w : W) :
  trace handle (sendRequest msg_FromObject proto_Unmarshal ctx p pmes) w =
  match msg_FromObject p pmes with
  | inr _ => []
  | inl mes =>
    anEvent time_Now :: anEvent (SendRequest ctx mes) ::
    match fst (handle _ (SendRequest ctx mes) (snd (handle _ time_Now w))) with
    | (Some _, None) =>
      [anEvent time_Now; anEvent (Log Info "diagnostic request took: %s")]
    | _ => []
    end
  end.
Proof.
  unfold sendRequest. destruct (msg_FromObject p pmes) as [mes | err]; [| reflexivity].
  cbn [bind trigger trace].
  destruct (handle Time time_Now w) as [start w1]. cbn [snd].
  destruct (handle _ (SendRequest ctx mes) w1) as [[rmes err] w2]. cbn [fst].
  destruct err as [err |]; [destruct rmes; reflexivity |].
  destruct rmes as [rmes |]; [| reflexivity].
  unfold time_Since. cbn [bind trigger trace].
  destruct (handle Time time_Now w2) as [now w3].
  destruct (handle unit (Log Info _) w3) as [[] w4].
  destruct (proto_Unmarshal _); reflexivity.
Qed.

Lemma requests_sendRequest (ctx : Context) (p : Peer) (pmes : Message) (w : W) :
  requests (trace handle (sendRequest msg_FromObject proto_Unmarshal ctx p pmes) w) =
  envelopes msg_FromObject ctx pmes [p].
Proof.
  rewrite trace_sendRequest. unfold envelopes. cbn [flat_map].
  destruct (msg_FromObject p pmes) as [mes | err]; [| reflexivity].
  destruct (fst (handle _ (SendRequest ctx mes) _)) as [[rmes |] [err |]]; reflexivity.
Qed.

Lemma requests_getDiagnosticFromPeer (ctx : Context) (p : Peer) (pmes : Message) (w : W) :
  requests (trace handle (getDiagnosticFromPeer msg_FromObject proto_Unmarshal ctx p pmes) w) =
  envelopes msg_FromObject ctx pmes [p].
Proof.
  unfold getDiagnosticFromPeer. rewrite trace_bind, requests_app, requests_sendRequest.
  destruct (run handle _ w) as [[[rpmes | err] | e] w']; simpl; apply app_nil_r.
Qed.

(** The decoding loop sends nothing. *)
Lemma requests_decodeAll (fuel : nat) (dec : Decoder) (out : list diagInfo) (w : W) :
  requests (trace handle (decodeAll fuel dec out) w) = [].
Proof.
  revert dec out. induction fuel as [| fuel IH]; intros dec out; [reflexivity |].
  cbn [decodeAll]. destruct (Decode dec) as [[di | err] dec']; [apply IH |].
  destruct (decide (err = io_EOF)); [reflexivity |].
  cbn [bind trigger trace]. destruct (handle unit _ w). reflexivity.
Qed.

Lemma envelopes_cons (ctx : Context) (pmes : Message) (p : Peer) (peers : list Peer) :
  envelopes msg_FromObject ctx pmes (p :: peers) =
  envelopes msg_FromObject ctx pmes [p] ++ envelopes msg_FromObject ctx pmes peers.
Proof. unfold envelopes. cbn [flat_map]. rewrite app_nil_r. reflexivity. Qed.

(** The loop of [GetDiagnostic] sends one request to each peer, in order. *)
Lemma requests_gather (ctx : Context) (pmes : Message) (peers : list Peer) :
  forall (out : list diagInfo) (w : W),
  requests (trace handle (gather msg_FromObject proto_Unmarshal ctx pmes peers out) w) =
  envelopes msg_FromObject ctx pmes peers.
Proof.
  induction peers as [| p peers IH]; intros out w; [reflexivity |].
  cbn [gather]. rewrite (envelopes_cons ctx pmes p peers).
  rewrite trace_bind, requests_app, requests_getDiagnosticFromPeer. f_equal.
  destruct (getDiagnosticFromPeer_returns handle msg_FromObject proto_Unmarshal ctx p pmes w)
    as ([data | err] & w1 & Hp); rewrite Hp.
  - rewrite trace_bind, requests_app, requests_decodeAll. cbn [app].
    destruct (run_decodeAll handle (S (length data)) (NewDecoder data) out w1)
      as (more & w2 & Hdec).
    rewrite Hdec. apply IH.
  - cbn [bind trigger trace]. destruct (handle unit _ w1) as [[] w2].
    cbn [requests flat_map request app]. apply IH.
Qed.

(** The loop of [handleDiagnostic] sends one request to each peer, in
    order. *)
Lemma requests_relay (ctx : Context) (pmes : Message) (peers : list Peer) :
  forall (buf : list byte) (w : W),
  requests (trace handle (relay msg_FromObject proto_Unmarshal ctx pmes peers buf) w) =
  envelopes msg_FromObject ctx pmes peers.
Proof.
  induction peers as [| p peers IH]; intros buf w; [reflexivity |].
  cbn [relay]. rewrite (envelopes_cons ctx pmes p peers).
  rewrite trace_bind, requests_app, requests_getDiagnosticFromPeer. f_equal.
  destruct (getDiagnosticFromPeer_returns handle msg_FromObject proto_Unmarshal ctx p pmes w)
    as ([data | err] & w1 & Hp); rewrite Hp.
  - apply IH.
  - cbn [bind trigger trace]. destruct (handle unit _ w1) as [[] w2].
    cbn [requests flat_map request app]. apply IH.
Qed.

(** Building a snapshot sends nothing. *)
Lemma requests_connections (peers : list Peer) :
  forall (conns : list connDiagInfo) (w : W),
  requests (trace handle (connections Pretty peers conns) w) = [].
Proof.
  induction peers as [| p peers IH]; intros conns w; [reflexivity |].
  cbn [connections bind trigger trace]. destruct (handle _ (GetLatency p) w) as [l w1].
  cbn [requests flat_map request app]. apply IH.
Qed.

Lemma requests_getPeers (d : Diagnostics) (w : W) :
  requests (trace handle (getPeers d) w) = [].
Proof.
  unfold getPeers. destruct (network d); [| reflexivity].
  cbn [trigger trace]. destruct (handle _ GetPeerList w). reflexivity.
Qed.

Lemma requests_getDiagInfo (d : Diagnostics) (w : W) :
  requests (trace handle (getDiagInfo Pretty d) w) = [].
Proof.
  unfold getDiagInfo, time_Since. cbn [bind trigger trace].
  destruct (handle Time time_Now w) as [now w1].
  cbn [requests flat_map request app]. change (flat_map request) with requests.
  cbn [bind]. rewrite trace_bind, requests_app, requests_getPeers. cbn [app].
  destruct (getPeers_returns handle d w1) as (peers & w2 & Hpeers). rewrite Hpeers.
  rewrite trace_bind, requests_app, requests_connections. cbn [app].
  destruct (run handle (connections Pretty peers []) w2) as [[conns | e] w3]; reflexivity.
Qed.

End Requests.

(** ** The snapshot of a node *)

Section Snapshots.

Context {W : Type} (handle : forall X, Event X -> W -> X * W).

Variable Pretty : list byte -> string.

Lemma run_connections_exact (lat : Peer -> Duration) (peers : list Peer) :
  (forall p w0, fst (handle _ (GetLatency p) w0) = lat p) ->
  forall (conns : list connDiagInfo) (w : W),
  fst (run handle (connections Pretty peers conns) w) =
  Returned (conns ++ map (fun p => {| c_Latency := lat p; c_ID := Pretty (peer_ID p) |}) peers).
Proof.
  intros Hlat. induction peers as [| p peers IH]; intros conns w.
  - simpl. rewrite app_nil_r. reflexivity.
  - cbn [connections bind trigger run]. pose proof (Hlat p w) as Hp.
    destruct (handle _ (GetLatency p) w) as [l w1]. simpl in Hp. subst l.
    rewrite IH, <- app_assoc. reflexivity.
Qed.

Lemma run_connections_valid (peers : list Peer) :
  (forall id, utf8.ValidString (Pretty id) = true) ->
  (forall p w0, int64 (fst (handle _ (GetLatency p) w0)) = true) ->
  forall (conns : list connDiagInfo) (w : W),
  forallb validConnection conns = true ->
  exists conns' w',
    run handle (connections Pretty peers conns) w = (Returned conns', w') /\
    forallb validConnection conns' = true.
Proof.
  intros HPretty Hlat. induction peers as [| p peers IH]; intros conns w Hconns.
  - exists conns, w. auto.
  - cbn [connections bind trigger run]. pose proof (Hlat p w) as Hp.
    destruct (handle _ (GetLatency p) w) as [l w1]. simpl in Hp.
    apply IH. rewrite forallb_app, Hconns. simpl.
    unfold validConnection. simpl. rewrite Hp, HPretty. reflexivity.
Qed.

Lemma int64_Time_Sub (t u : Time) : int64 (Time_Sub t u) = true.
Proof.
  unfold int64, Time_Sub, minDuration, maxDuration.
  apply andb_true_iff. split; [apply Z.leb_le | apply Z.ltb_lt]; lia.
Qed.

(** When identities are printed in UTF-8 and latencies are [int64]
    values, the snapshot of the node is one that the encoding keeps. *)
Lemma getDiagInfo_valid (d : Diagnostics) (w : W) :
  (forall id, utf8.ValidString (Pretty id) = true) ->
  (forall p w0, int64 (fst (handle _ (GetLatency p) w0)) = true) ->
  exists di w',
    run handle (getDiagInfo Pretty d) w = (Returned di, w') /\
    validSnapshot di = true.
Proof.
  intros HPretty Hlat. unfold getDiagInfo, time_Since. cbn [bind trigger run].
  destruct (handle Time time_Now w) as [now w1]. cbn [bind run].
  rewrite run_bind.
  destruct (getPeers_returns handle d w1) as (peers & w2 & Hpeers). rewrite Hpeers.
  rewrite run_bind.
  destruct (run_connections_valid peers HPretty Hlat [] w2 eq_refl)
    as (conns & w3 & Hconns & Hvalid).
  rewrite Hconns. cbn [run]. eexists _, w3. split; [reflexivity |].
  unfold validSnapshot. cbn [ID Connections Keys LifeSpan CodeVersion forallb].
  rewrite HPretty, Hvalid, int64_Time_Sub. reflexivity.
Qed.

End Snapshots.

(** ** A stream of snapshots *)

Lemma bytesOf_Marshal (di : diagInfo) :
  json.Marshal (value_of_diagInfo di) = inl (bytesOf di).
Proof.
  destruct (Marshal_diagInfo di) as [b Hb]. unfold bytesOf. rewrite Hb. reflexivity.
Qed.

(** The encodings of any number of snapshots, one after the other, are
    decoded by the loop into those snapshots. *)
Lemma decodeAll_concat (ds : list diagInfo) :
  forallb validSnapshot ds = true ->
  forall (fuel : nat) (out : list diagInfo),
  (length (concat (map bytesOf ds)) < fuel)%nat ->
  decodeAll fuel (NewDecoder (concat (map bytesOf ds))) out = Ret (out ++ ds).
Proof.
  induction ds as [| di ds IH]; intros Hvalid fuel out Hfuel.
  - destruct fuel; [lia |]. simpl. rewrite app_nil_r. reflexivity.
  - simpl in Hvalid. apply andb_true_iff in Hvalid as [Hdi Hds].
    cbn [map concat] in *. rewrite length_app in Hfuel.
    destruct (Decode_Marshal di _ (concat (map bytesOf ds)) Hdi (bytesOf_Marshal di))
      as [Hdec Hlen].
    destruct fuel as [| fuel]; [lia |]. unfold NewDecoder.
    rewrite (decodeAll_step _ _ _ _ _ Hdec).
    change (concat (map bytesOf ds)) with (NewDecoder (concat (map bytesOf ds))) at 1.
    rewrite IH by (assumption || lia). rewrite <- app_assoc. reflexivity.
Qed.

(** ** The answers of the sender *)

Section Answers.

Context {W : Type} (handle : forall X, Event X -> W -> X * W).

Variable Pretty : list byte -> string.
Variable msg_FromObject : Peer -> Message -> Result NetMessage.
Variable proto_Unmarshal : list byte -> Result Message.

Lemma responses_bind {A B : Type} (m : Prog A) (f : A -> Prog B) (w : W) :
  responses handle (bind m f) w =
  responses handle m w ++
  match run handle m w with
  | (Returned a, w') => responses handle (f a) w'
  | (Panicked e, w') => []
  end.
Proof.
  revert w. induction m as [a | e | X e k IH]; intros w; [reflexivity | reflexivity |].
  cbn [bind responses run]. destruct (handle X e w) as [x w'].
  rewrite IH, app_assoc. reflexivity.
Qed.

(** Building a snapshot and decoding a response call no sender. *)
Lemma responses_getPeers (d : Diagnostics) (w : W) :
  responses handle (getPeers d) w = [].
Proof.
  unfold getPeers. destruct (network d); [| reflexivity].
  cbn [trigger responses]. destruct (handle _ GetPeerList w). reflexivity.
Qed.

Lemma responses_connections (peers : list Peer) :
  forall (conns : list connDiagInfo) (w : W),
  responses handle (connections Pretty peers conns) w = [].
Proof.
  induction peers as [| p peers IH]; intros conns w; [reflexivity |].
  cbn [connections bind trigger responses]. destruct (handle _ (GetLatency p) w) as [l w1].
  apply IH.
Qed.

Lemma responses_getDiagInfo (d : Diagnostics) (w : W) :
  responses handle (getDiagInfo Pretty d) w = [].
Proof.
  unfold getDiagInfo, time_Since. cbn [bind trigger responses].
  destruct (handle Time time_Now w) as [now w1]. cbn [app bind].
  rewrite responses_bind, responses_getPeers. cbn [app].
  destruct (getPeers_returns handle d w1) as (peers & w2 & Hpeers). rewrite Hpeers.
  rewrite responses_bind, responses_connections. cbn [app].
  destruct (run handle (connections Pretty peers []) w2) as [[conns | e] w3]; reflexivity.
Qed.

Lemma responses_decodeAll (fuel : nat) (dec : Decoder) (out : list diagInfo) (w : W) :
  responses handle (decodeAll fuel dec out) w = [].
Proof.
  revert dec out. induction fuel as [| fuel IH]; intros dec out; [reflexivity |].
  cbn [decodeAll]. destruct (Decode dec) as [[di | err] dec']; [apply IH |].
  destruct (decide (err = io_EOF)); [reflexivity |].
  cbn [bind trigger responses]. destruct (handle unit _ w). reflexivity.
Qed.

(** A request to a peer comes to the outcome that [outcomes] gives for the
    answer of the sender. *)
Lemma outcome_getDiagnosticFromPeer (ctx : Context) (p : Peer) (pmes : Message) (w : W) :
  exists o w',
    run handle (getDiagnosticFromPeer msg_FromObject proto_Unmarshal ctx p pmes) w =
    (Returned o, w') /\
    forall peers answers,
      outcomes msg_FromObject proto_Unmarshal pmes (p :: peers)
        (responses handle (getDiagnosticFromPeer msg_FromObject proto_Unmarshal ctx p pmes) w
         ++ answers) =
      o :: outcomes msg_FromObject proto_Unmarshal pmes peers answers.
Proof.
  unfold getDiagnosticFromPeer, sendRequest.
  destruct (msg_FromObject p pmes) as [mes | err] eqn:Hmes.
  2: { eexists _, w. split; [reflexivity |]. intros peers answers.
       cbn [outcomes bind responses app]. rewrite Hmes. reflexivity. }
  cbn [bind trigger run responses].
  destruct (handle Time time_Now w) as [start w1].
  destruct (handle _ (SendRequest ctx mes) w1) as [[rmes err] w2].
  destruct err as [err |].
  { eexists _, w2. split; [destruct rmes; reflexivity |]. intros peers answers.
    destruct rmes; cbn [outcomes bind responses app payloadOf]; rewrite Hmes; reflexivity. }
  destruct rmes as [rmes |].
  2: { eexists _, w2. split; [reflexivity |]. intros peers answers.
       cbn [outcomes bind responses app payloadOf]. rewrite Hmes. reflexivity. }
  unfold time_Since. cbn [bind trigger run responses].
  destruct (handle Time time_Now w2) as [now w3].
  destruct (handle unit (Log Info _) w3) as [[] w4].
  destruct (proto_Unmarshal (default [] (mes_Data rmes))) as [rpmes | err] eqn:Hdec.
  - eexists _, w4. split; [reflexivity |]. intros peers answers.
    cbn [outcomes bind responses app payloadOf]. rewrite Hmes, Hdec. reflexivity.
  - eexists _, w4. split; [reflexivity |]. intros peers answers.
    cbn [outcomes bind responses app payloadOf]. rewrite Hmes, Hdec. reflexivity.
Qed.

End Answers.

(** ** A round, step by step *)

Section Rounds.

Context {W : Type} (handle : forall X, Event X -> W -> X * W).

Variable Pretty : list byte -> string.
Variable msg_FromObject : Peer -> Message -> Result NetMessage.
Variable proto_Unmarshal : list byte -> Result Message.

Lemma requests_cons (ev : AnyEvent) (evs : list AnyEvent) :
  requests (ev :: evs) = request ev ++ requests evs.
Proof. reflexivity. Qed.

Lemma Marshal_bytesOf (di : diagInfo) : Marshal di = Ret (bytesOf di).
Proof. unfold Marshal. rewrite bytesOf_Marshal. reflexivity. Qed.

(** [GetDiagnostic], step by step: the deadline, the identifier, the
    ledger, the peers, the node's own snapshot, the loop over the peers. *)
Lemma GetDiagnostic_steps (d : Diagnostics) (timeout : Duration) (w : W) :
  let t0 := fst (handle _ time_Now w) in
  let w1 := snd (handle _ time_Now w) in
  let diagID := string_of_list_ascii (fst (handle _ (rand_Read 4) w1)) in
  let w2 := snd (handle _ (rand_Read 4) w1) in
  let now := fst (handle _ time_Now w2) in
  let d' := set_diagMap d (ledgerRegister (diagMap d) diagID now) in
  let ctx := {| deadline := (t0 + timeout)%Z |} in
  exists peers wp wq di wa wb out w',
    run handle (getPeers d) wp = (Returned peers, wq) /\
    run handle (getDiagInfo Pretty d') wa = (Returned di, wb) /\
    run handle (gather msg_FromObject proto_Unmarshal ctx (newMessage diagID) peers [di]) wb =
    (Returned out, w') /\
    run handle (GetDiagnostic Pretty msg_FromObject proto_Unmarshal d timeout) w =
    (Returned (d', (out, None)), w') /\
    requests (trace handle (GetDiagnostic Pretty msg_FromObject proto_Unmarshal d timeout) w) =
    envelopes msg_FromObject ctx (newMessage diagID) peers /\
    trace handle (GetDiagnostic Pretty msg_FromObject proto_Unmarshal d timeout) w =
    anEvent time_Now :: anEvent (rand_Read 4) :: anEvent time_Now ::
    anEvent (Log Debug "Begin Diagnostic") ::
    trace handle (getPeers d) wp ++
    anEvent (Log Debug "Sending diagnostic request to %d peers.") ::
    trace handle (getDiagInfo Pretty d') wa ++
    trace handle (gather msg_FromObject proto_Unmarshal ctx (newMessage diagID) peers [di]) wb /\
    responses handle (GetDiagnostic Pretty msg_FromObject proto_Unmarshal d timeout) w =
    responses handle (gather msg_FromObject proto_Unmarshal ctx (newMessage diagID) peers [di]) wb.
Proof.
  unfold GetDiagnostic, context_WithTimeout, newID. cbn [bind trigger run trace responses].
  destruct (handle Time time_Now w) as [t0 w1]. cbn [fst snd].
  destruct (handle _ (rand_Read 4) w1) as [id w2]. cbn [fst snd].
  destruct (handle Time time_Now w2) as [now w3]. cbn [fst snd].
  destruct (handle unit (Log Debug "Begin Diagnostic") w3) as [[] w4].
  cbv zeta.
  set (d1 := set_diagMap d (ledgerRegister (diagMap d) (string_of_list_ascii id) now)).
  set (ctx := {| deadline := (t0 + timeout)%Z |}).
  set (pmes := newMessage (string_of_list_ascii id)).
  destruct (getPeers_returns handle d1 w4) as (peers & w5 & Hpeers).
  destruct (handle unit (Log Debug "Sending diagnostic request to %d peers.") w5)
    as [[] w6] eqn:Hlog.
  destruct (getDiagInfo_returns handle Pretty d1 w6) as (di & w7 & Hdi).
  destruct (run_gather handle msg_FromObject proto_Unmarshal ctx pmes peers [di] w7)
    as (more & w8 & Hgather).
  exists peers, w4, w5, di, w6, w7, ([di] ++ more), w8.
  split; [exact Hpeers |]. split; [exact Hdi |]. split; [exact Hgather |].
  split; [| split; [| split]].
  - rewrite run_bind, Hpeers. cbn [bind trigger run]. rewrite Hlog.
    rewrite run_bind, Hdi, run_bind, Hgather. reflexivity.
  - rewrite !requests_cons. cbn [request app].
    rewrite trace_bind, requests_app, requests_getPeers, Hpeers. cbn [app].
    cbn [bind trigger trace]. rewrite Hlog, requests_cons. cbn [request app].
    rewrite trace_bind, requests_app, requests_getDiagInfo, Hdi. cbn [app].
    rewrite trace_bind, requests_app, Hgather. cbn [trace].
    rewrite app_nil_r. apply requests_gather.
  - do 4 f_equal. rewrite trace_bind, Hpeers. f_equal.
    cbn [bind trigger trace]. rewrite Hlog. f_equal.
    rewrite trace_bind, Hdi. f_equal.
    rewrite trace_bind, Hgather. cbn [trace]. apply app_nil_r.
  - cbn [app].
    rewrite responses_bind, responses_getPeers, Hpeers. cbn [app bind trigger responses].
    rewrite Hlog. cbn [app].
    rewrite responses_bind, (responses_getDiagInfo handle Pretty), Hdi. cbn [app].
    rewrite responses_bind, Hgather. cbn [responses]. apply app_nil_r.
Qed.

(** [handleDiagnostic] on a request that is not in the ledger, step by
    step: the ledger, the node's own snapshot, the deadline, the peers, the
    loop over the peers. *)
Lemma handleDiagnostic_steps (d : Diagnostics) (p : Peer) (pmes : Message) (w : W) :
  diagMap d !! GetDiagID pmes = None ->
  let now := fst (handle _ time_Now w) in
  let d' := set_diagMap d (<[GetDiagID pmes := now]> (diagMap d)) in
  exists di wa wb ctx peers wp wq buf w',
    run handle (getDiagInfo Pretty d') wa = (Returned di, wb) /\
    deadline ctx = (fst (handle _ time_Now wb) + 10 * 1000000000)%Z /\
    run handle (getPeers d) wp = (Returned peers, wq) /\
    run handle (relay msg_FromObject proto_Unmarshal ctx pmes peers (bytesOf di)) wq =
    (Returned buf, w') /\
    run handle (handleDiagnostic Pretty msg_FromObject proto_Unmarshal d p pmes) w =
    (Returned (d', (Some {| DiagID := Some (GetDiagID pmes); Data := buf |}, None)), w') /\
    requests (trace handle (handleDiagnostic Pretty msg_FromObject proto_Unmarshal d p pmes) w) =
    envelopes msg_FromObject ctx pmes peers /\
    trace handle (handleDiagnostic Pretty msg_FromObject proto_Unmarshal d p pmes) w =
    anEvent time_Now :: trace handle (getDiagInfo Pretty d') wa ++
    anEvent time_Now :: trace handle (getPeers d) wp ++
    trace handle (relay msg_FromObject proto_Unmarshal ctx pmes peers (bytesOf di)) wq /\
    responses handle (handleDiagnostic Pretty msg_FromObject proto_Unmarshal d p pmes) w =
    responses handle (relay msg_FromObject proto_Unmarshal ctx pmes peers (bytesOf di)) wq.
Proof.
  intros Hm. unfold handleDiagnostic, ledgerClaim. rewrite Hm.
  cbn [bind trigger run trace responses].
  destruct (handle Time time_Now w) as [now w1]. cbn [fst snd]. cbv zeta.
  set (d1 := set_diagMap d (<[GetDiagID pmes := now]> (diagMap d))).
  destruct (getDiagInfo_returns handle Pretty d1 w1) as (di & w2 & Hdi).
  destruct (handle Time time_Now w2) as [now2 w3] eqn:Hnow2.
  set (ctx := {| deadline := (now2 + 10 * 1000000000)%Z |}).
  destruct (getPeers_returns handle d1 w3) as (peers & w4 & Hpeers).
  destruct (run_relay handle msg_FromObject proto_Unmarshal ctx pmes peers (bytesOf di) w4)
    as (more & w5 & Hrelay).
  exists di, w1, w2, ctx, peers, w3, w4, (bytesOf di ++ more), w5.
  split; [exact Hdi |]. split; [rewrite Hnow2; reflexivity |].
  split; [exact Hpeers |]. split; [exact Hrelay |]. split; [| split; [| split]].
  - rewrite run_bind, Hdi, Marshal_bytesOf. unfold context_WithTimeout.
    cbn [bind trigger run]. rewrite Hnow2.
    rewrite run_bind, Hpeers, run_bind. fold ctx. rewrite Hrelay. reflexivity.
  - rewrite requests_cons. cbn [request app].
    rewrite trace_bind, requests_app, requests_getDiagInfo, Hdi, Marshal_bytesOf.
    unfold context_WithTimeout. cbn [bind trigger trace app]. rewrite Hnow2.
    rewrite requests_cons. cbn [request app].
    rewrite trace_bind, requests_app, requests_getPeers, Hpeers. cbn [app].
    rewrite trace_bind, requests_app. fold ctx. rewrite Hrelay. cbn [trace].
    rewrite app_nil_r. apply requests_relay.
  - f_equal. rewrite trace_bind, Hdi, Marshal_bytesOf. f_equal.
    unfold context_WithTimeout. cbn [bind trigger trace]. rewrite Hnow2. f_equal.
    rewrite trace_bind, Hpeers. f_equal.
    rewrite trace_bind. fold ctx. rewrite Hrelay. cbn [trace]. apply app_nil_r.
  - cbn [app].
    rewrite responses_bind, (responses_getDiagInfo handle Pretty), Hdi, Marshal_bytesOf.
    unfold context_WithTimeout. cbn [bind trigger responses app]. rewrite Hnow2.
    cbn [app]. rewrite responses_bind, responses_getPeers, Hpeers. cbn [app].
    rewrite responses_bind. fold ctx. rewrite Hrelay. cbn [responses]. apply app_nil_r.
Qed.

End Rounds.

(** X6.  The snapshot that [getDiagInfo] builds holds the printed identity
    of the node, one connection for each peer of the peer list, in the
    order of the list, with the latency of the peer and its printed
    identity, no key, the time since the birth of the node, kept within the
    range of a duration, and the version "github.com/jbenet/go-ipfs". *)
Theorem getDiagInfo_contents :
  forall (W : Type) (handle : forall X, Event X -> W -> X * W)
         (Pretty : list byte -> string) (d : Diagnostics)
         (peers : list Peer) (lat : Peer -> Duration) (w : W),
  (forall w0, fst (run handle (getPeers d) w0) = Returned peers) ->
  (forall p w0, fst (handle _ (GetLatency p) w0) = lat p) ->
  fst (run handle (getDiagInfo Pretty d) w) =
  Returned
    {| ID := Pretty (peer_ID (self d));
       Connections :=
         map (fun p => {| c_Latency := lat p; c_ID := Pretty (peer_ID p) |}) peers;
       Keys := [];
       LifeSpan := Time_Sub (fst (handle _ time_Now w)) (birth d);
       CodeVersion := "github.com/jbenet/go-ipfs" |}.
Proof.
  intros W handle Pretty d peers lat w Hpeers Hlat.
  unfold getDiagInfo, time_Since. cbn [bind trigger run].
  destruct (handle Time time_Now w) as [now w1]. cbn [bind run fst].
  rewrite run_bind. pose proof (Hpeers w1) as H1.
  destruct (run handle (getPeers d) w1) as [r w2]. cbn [fst] in H1. subst r.
  rewrite run_bind.
  pose proof (run_connections_exact handle Pretty lat peers Hlat [] w2) as Hconns.
  destruct (run handle (connections Pretty peers []) w2) as [r w3].
  cbn [fst] in Hconns. subst r. reflexivity.
Qed.

Lemma getDiagInfo_contents_witness :
  let p1 := {| peer_ID := ["a"%char] |} in
  let p2 := {| peer_ID := ["b"%char] |} in
  let d := {| network := IpfsNetwork; self := {| peer_ID := ["Q"%char] |};
              diagMap := ∅; birth := (-5)%Z |} in
  fst (run (answering [p1; p2] []) (getDiagInfo plainPretty d) tt) =
  Returned
    {| ID := "Q";
       Connections := [{| c_Latency := 0%Z; c_ID := "a" |};
                       {| c_Latency := 0%Z; c_ID := "b" |}];
       Keys := [];
       LifeSpan := 5%Z;
       CodeVersion := "github.com/jbenet/go-ipfs" |}.
Proof.
  intros p1 p2 d.
  apply (getDiagInfo_contents unit (answering [p1; p2] []) plainPretty d [p1; p2]
           (fun _ => 0%Z) tt).
  - intros []. reflexivity.
  - intros p []. reflexivity.
Defined.

(** X7.  When identities are printed in well-formed UTF-8 and latencies
    are [int64] values, the snapshot that [getDiagInfo] builds is encoded by
    [diagInfo.Marshal] and read back by the decoder as it was, whatever
    follows it in the stream. *)
Theorem getDiagInfo_reads_back :
  forall (W : Type) (handle : forall X, Event X -> W -> X * W)
         (Pretty : list byte -> string) (d : Diagnostics) (w : W),
  (forall id, utf8.ValidString (Pretty id) = true) ->
  (forall p w0, int64 (fst (handle _ (GetLatency p) w0)) = true) ->
  exists di w' b,
    run handle (getDiagInfo Pretty d) w = (Returned di, w') /\
    Marshal di = Ret b /\
    forall rest, Decode (NewDecoder (b ++ rest)) = (inl di, rest).
Proof.
  intros W handle Pretty d w HPretty Hlat.
  destruct (getDiagInfo_valid handle Pretty d w HPretty Hlat) as (di & w' & Hrun & Hvalid).
  exists di, w', (bytesOf di). split; [exact Hrun |]. split; [apply Marshal_bytesOf |].
  intros rest. apply (Decode_Marshal di _ rest Hvalid (bytesOf_Marshal di)).
Qed.

Lemma getDiagInfo_reads_back_witness :
  let d := {| network := IpfsNetwork; self := {| peer_ID := ["Q"%char] |};
              diagMap := ∅; birth := 0%Z |} in
  exists di b,
    fst (run (answering [{| peer_ID := ["a"%char] |}] []) (getDiagInfo (fun _ => "Qm"%string) d) tt) =
    Returned di /\
    Marshal di = Ret b /\
    Decode (NewDecoder (b ++ [])) = (inl di, []).
Proof.
  intros d.
  destruct (getDiagInfo_reads_back unit (answering [{| peer_ID := ["a"%char] |}] [])
              (fun _ => "Qm"%string) d tt) as (di & w' & b & Hrun & Hb & Hdec).
  - intros id. reflexivity.
  - intros p []. reflexivity.
  - exists di, b. rewrite Hrun. split; [reflexivity |]. split; [exact Hb | apply Hdec].
Defined.

(** X8.  [GetDiagnostic] sends one request to each peer of the peer list
    for which the envelope can be built, in the order of the list, and
    nothing else.  All of them carry one context, whose deadline is the
    clock at the start of the call plus the timeout, and one message, whose
    identifier is the four bytes drawn from the random source. *)
Theorem GetDiagnostic_requests :
  forall (W : Type) (handle : forall X, Event X -> W -> X * W)
         (Pretty : list byte -> string)
         (msg_FromObject : Peer -> Message -> Result NetMessage)
         (proto_Unmarshal : list byte -> Result Message)
         (d : Diagnostics) (timeout : Duration) (w : W),
  let t0 := fst (handle _ time_Now w) in
  let diagID :=
    string_of_list_ascii (fst (handle _ (rand_Read 4) (snd (handle _ time_Now w)))) in
  exists peers w0,
    fst (run handle (getPeers d) w0) = Returned peers /\
    requests (trace handle (GetDiagnostic Pretty msg_FromObject proto_Unmarshal d timeout) w) =
    envelopes msg_FromObject {| deadline := (t0 + timeout)%Z |} (newMessage diagID) peers.
Proof.
  intros W handle Pretty msg_FromObject proto_Unmarshal d timeout w. cbv zeta.
  destruct (GetDiagnostic_steps handle Pretty msg_FromObject proto_Unmarshal d timeout w)
    as (peers & wp & wq & di & wa & wb & out & w' & Hpeers & _ & _ & _ & Hreq & _).
  exists peers, wp. rewrite Hpeers. split; [reflexivity | exact Hreq].
Qed.

(** X9.  [GetDiagnostic] enters the identifier of its requests in the
    ledger of the node, with the time of the clock.  So the node it leaves
    refuses its own request when a peer sends it back:
    [handleDiagnostic] on a message with that identifier returns at once,
    with an empty payload. *)
Theorem GetDiagnostic_blocks_echo :
  forall (W : Type) (handle : forall X, Event X -> W -> X * W)
         (Pretty : list byte -> string)
         (msg_FromObject : Peer -> Message -> Result NetMessage)
         (proto_Unmarshal : list byte -> Result Message)
         (d : Diagnostics) (timeout : Duration) (w : W),
  let w1 := snd (handle _ time_Now w) in
  let diagID := string_of_list_ascii (fst (handle _ (rand_Read 4) w1)) in
  let now := fst (handle _ time_Now (snd (handle _ (rand_Read 4) w1))) in
  exists d' res w' ctx peers,
    run handle (GetDiagnostic Pretty msg_FromObject proto_Unmarshal d timeout) w =
    (Returned (d', res), w') /\
    requests (trace handle (GetDiagnostic Pretty msg_FromObject proto_Unmarshal d timeout) w) =
    envelopes msg_FromObject ctx (newMessage diagID) peers /\
    diagMap d' = <[diagID := now]> (diagMap d) /\
    forall p pmes,
      GetDiagID pmes = diagID ->
      handleDiagnostic Pretty msg_FromObject proto_Unmarshal d' p pmes =
      Ret (d', (Some (newMessage diagID), None)).
Proof.
  intros W handle Pretty msg_FromObject proto_Unmarshal d timeout w. cbv zeta.
  destruct (GetDiagnostic_steps handle Pretty msg_FromObject proto_Unmarshal d timeout w)
    as (peers & wp & wq & di & wa & wb & out & w' & _ & _ & _ & Hrun & Hreq & _).
  eexists _, _, w', _, peers. split; [exact Hrun |]. split; [exact Hreq |].
  split; [reflexivity |].
  intros p pmes Hid. unfold handleDiagnostic. rewrite Hid.
  rewrite ledgerClaim_present; [reflexivity |].
  cbn [diagMap set_diagMap]. unfold ledgerRegister. apply elem_of_dom.
  rewrite lookup_insert_eq. eauto.
Qed.

(** X10.  [handleDiagnostic] answers a request once: whatever the first
    call did, the node it leaves answers every later request with the same
    identifier, from any peer, at once and with an empty payload. *)
Theorem handleDiagnostic_claims_once :
  forall (W : Type) (handle : forall X, Event X -> W -> X * W)
         (Pretty : list byte -> string)
         (msg_FromObject : Peer -> Message -> Result NetMessage)
         (proto_Unmarshal : list byte -> Result Message)
         (d : Diagnostics) (p : Peer) (pmes : Message) (w : W),
  exists d' res w',
    run handle (handleDiagnostic Pretty msg_FromObject proto_Unmarshal d p pmes) w =
    (Returned (d', res), w') /\
    forall p' pmes' (W' : Type) (handle' : forall X, Event X -> W' -> X * W') (w0 : W'),
      GetDiagID pmes' = GetDiagID pmes ->
      run handle' (handleDiagnostic Pretty msg_FromObject proto_Unmarshal d' p' pmes') w0 =
      (Returned (d', (Some (newMessage (GetDiagID pmes)), None)), w0) /\
      trace handle' (handleDiagnostic Pretty msg_FromObject proto_Unmarshal d' p' pmes') w0 = [].
Proof.
  intros W handle Pretty msg_FromObject proto_Unmarshal d p pmes w.
  destruct (run_handleDiagnostic handle Pretty msg_FromObject proto_Unmarshal d p pmes w)
    as (d' & resp & w' & Hrun & _ & Hcase).
  exists d', (Some resp, None), w'. split; [exact Hrun |].
  assert (Hin : GetDiagID pmes ∈ dom (diagMap d')).
  { apply elem_of_dom. destruct (diagMap d !! GetDiagID pmes) as [t |] eqn:Hm.
    - destruct Hcase as (-> & _). eauto.
    - destruct Hcase as (-> & _). cbn [diagMap set_diagMap].
      rewrite lookup_insert_eq. eauto. }
  intros p' pmes' W' handle' w0 Hid.
  unfold handleDiagnostic. rewrite Hid, (ledgerClaim_present _ _ Hin).
  split; reflexivity.
Qed.

(** X11.  On a request that is not in the ledger, [handleDiagnostic]
    sends the request as it came, with its identifier, to each peer of the
    peer list for which the envelope can be built, in the order of the
    list, the peer that sent the request not left out, and nothing else.
    All of them carry one context, whose deadline is the clock after the
    node's own snapshot was taken plus ten seconds, whatever time the
    sender of the request had left. *)
Theorem handleDiagnostic_requests :
  forall (W : Type) (handle : forall X, Event X -> W -> X * W)
         (Pretty : list byte -> string)
         (msg_FromObject : Peer -> Message -> Result NetMessage)
         (proto_Unmarshal : list byte -> Result Message)
         (d : Diagnostics) (p : Peer) (pmes : Message) (w : W),
  GetDiagID pmes ∉ dom (diagMap d) ->
  exists peers w0 ctx w1,
    fst (run handle (getPeers d) w0) = Returned peers /\
    deadline ctx = (fst (handle _ time_Now w1) + 10 * 1000000000)%Z /\
    requests (trace handle (handleDiagnostic Pretty msg_FromObject proto_Unmarshal d p pmes) w) =
    envelopes msg_FromObject ctx pmes peers.
Proof.
  intros W handle Pretty msg_FromObject proto_Unmarshal d p pmes w Hout.
  apply not_elem_of_dom in Hout.
  destruct (handleDiagnostic_steps handle Pretty msg_FromObject proto_Unmarshal d p pmes w Hout)
    as (di & wa & wb & ctx & peers & wp & wq & buf & w' & _ & Hctx & Hpeers & _ & _ & Hreq & _).
  exists peers, wp, ctx, wb. rewrite Hpeers. split; [reflexivity |].
  split; [exact Hctx | exact Hreq].
Qed.

Lemma handleDiagnostic_requests_witness :
  let p1 := {| peer_ID := ["a"%char] |} in
  let p2 := {| peer_ID := ["b"%char] |} in
  let d := {| network := IpfsNetwork; self := {| peer_ID := ["Q"%char] |};
              diagMap := ∅; birth := 0%Z |} in
  let pmes := {| DiagID := Some "abcd"%string; Data := [] |} in
  exists ctx,
    deadline ctx = 10000000000%Z /\
    requests (trace (answering [p1; p2] [])
                (handleDiagnostic plainPretty emptyEnvelope payloadOnly d p1 pmes) tt) =
    envelopes emptyEnvelope ctx pmes [p1; p2].
Proof.
  intros p1 p2 d pmes.
  destruct (handleDiagnostic_requests unit (answering [p1; p2] []) plainPretty
              emptyEnvelope payloadOnly d p1 pmes tt)
    as (peers & [] & ctx & [] & Hpeers & Hctx & Hreq).
  - rewrite not_elem_of_dom. reflexivity.
  - exists ctx. injection Hpeers as <-. split; [exact Hctx | exact Hreq].
Defined.

(** X15.  [sendRequest] calls the sender at most once.  When the envelope
    cannot be built it returns the error of the envelope and asks nothing
    of its environment; otherwise it reads the clock and calls the sender
    once, with the context and the envelope it was given, and only after a
    response does it read the clock again and write the duration to the
    log. *)
Theorem sendRequest_asks_once :
  forall (W : Type) (handle : forall X, Event X -> W -> X * W)
         (msg_FromObject : Peer -> Message -> Result NetMessage)
         (proto_Unmarshal : list byte -> Result Message)
         (ctx : Context) (p : Peer) (pmes : Message) (w : W),
  (forall err,
     msg_FromObject p pmes = inr err ->
     run handle (sendRequest msg_FromObject proto_Unmarshal ctx p pmes) w =
     (Returned (inr err), w) /\
     trace handle (sendRequest msg_FromObject proto_Unmarshal ctx p pmes) w = []) /\
  (forall mes,
     msg_FromObject p pmes = inl mes ->
     trace handle (sendRequest msg_FromObject proto_Unmarshal ctx p pmes) w =
     anEvent time_Now :: anEvent (SendRequest ctx mes) ::
     match fst (handle _ (SendRequest ctx mes) (snd (handle _ time_Now w))) with
     | (Some _, None) =>
       [anEvent time_Now; anEvent (Log Info "diagnostic request took: %s")]
     | _ => []
     end) /\
  requests (trace handle (sendRequest msg_FromObject proto_Unmarshal ctx p pmes) w) =
  envelopes msg_FromObject ctx pmes [p].
Proof.
  intros W handle msg_FromObject proto_Unmarshal ctx p pmes w. split; [| split].
  - intros err Herr. unfold sendRequest. rewrite Herr. split; reflexivity.
  - intros mes Hmes. rewrite trace_sendRequest, Hmes. reflexivity.
  - apply requests_sendRequest.
Qed.

(** X16.  A message that decodes and names its sender is answered by
    [handleDiagnostic], after a line in the log.  The response carries the
    identifier of the request and is put in an envelope for the sender; when
    that fails [HandleMessage] returns the error "Failed to encode protobuf
    message: ..." and no response.  Either way the request is in the ledger
    afterwards; when it was there before, the node is unchanged and the
    payload of the response is empty. *)
Theorem HandleMessage_answers :
  forall (W : Type) (handle : forall X, Event X -> W -> X * W)
         (Pretty : list byte -> string)
         (msg_FromObject : Peer -> Message -> Result NetMessage)
         (proto_Unmarshal : list byte -> Result Message)
         (d : Diagnostics) (ctx : Context) (mes : NetMessage)
         (mData : list byte) (mPeer : Peer) (pmes : Message) (w : W),
  mes_Data mes = Some mData ->
  mes_Peer mes = Some mPeer ->
  proto_Unmarshal mData = inl pmes ->
  exists d' rpmes w',
    run handle (HandleMessage Pretty msg_FromObject proto_Unmarshal d ctx mes) w =
    (Returned
       (d', match msg_FromObject mPeer rpmes with
            | inl rmes => (Some rmes, None)
            | inr err =>
              (None, Some (fmt_Errorf "Failed to encode protobuf message: " err newline))
            end), w') /\
    DiagID rpmes = Some (GetDiagID pmes) /\
    GetDiagID pmes ∈ dom (diagMap d') /\
    (GetDiagID pmes ∈ dom (diagMap d) -> d' = d /\ Data rpmes = []) /\
    exists rest,
      trace handle (HandleMessage Pretty msg_FromObject proto_Unmarshal d ctx mes) w =
      anEvent (Log Info ("[peer: %s] Got message from [%s]" +:+ newline)) :: rest.
Proof.
  intros W handle Pretty msg_FromObject proto_Unmarshal d ctx mes mData mPeer pmes w
         HData HPeer Hpmes.
  unfold HandleMessage. rewrite HData, HPeer, Hpmes. cbn [bind trigger run trace].
  destruct (handle unit _ w) as [[] w1].
  rewrite run_bind.
  destruct (run_handleDiagnostic handle Pretty msg_FromObject proto_Unmarshal d mPeer pmes w1)
    as (d' & rpmes & w2 & Hrun & HID & Hcase).
  rewrite Hrun. exists d', rpmes, w2. split.
  { destruct (msg_FromObject mPeer rpmes); reflexivity. }
  split; [exact HID |]. split; [| split].
  - apply elem_of_dom. destruct (diagMap d !! GetDiagID pmes) as [t |] eqn:Hm.
    + destruct Hcase as (-> & _). eauto.
    + destruct Hcase as (-> & _). cbn [diagMap set_diagMap].
      rewrite lookup_insert_eq. eauto.
  - intros [t Ht]%elem_of_dom. rewrite Ht in Hcase. tauto.
  - eexists. reflexivity.
Qed.

Lemma HandleMessage_answers_witness :
  let d := {| network := IpfsNetwork; self := {| peer_ID := ["Q"%char] |};
              diagMap := ∅; birth := 0%Z |} in
  let mPeer := {| peer_ID := ["a"%char] |} in
  exists d' rmes,
    fst (run silent
           (HandleMessage plainPretty emptyEnvelope payloadOnly d {| deadline := 0%Z |}
              {| mes_Peer := Some mPeer; mes_Data := Some ["x"%char] |}) tt) =
    Returned (d', (Some rmes, None)) /\
    EmptyString ∈ dom (diagMap d').
Proof.
  intros d mPeer.
  destruct (HandleMessage_answers unit silent plainPretty emptyEnvelope payloadOnly d
              {| deadline := 0%Z |}
              {| mes_Peer := Some mPeer; mes_Data := Some ["x"%char] |}
              ["x"%char] mPeer {| DiagID := None; Data := ["x"%char] |} tt)
    as (d' & rpmes & w' & Hrun & _ & Hin & _).
  - reflexivity.
  - reflexivity.
  - reflexivity.
  - exists d'. eexists. rewrite Hrun. split; [reflexivity | exact Hin].
Defined.

(** X17.  The encodings of any number of snapshots whose strings are
    well-formed UTF-8, written one after the other, are read by the
    decoding loop of [GetDiagnostic] as those snapshots, in order, added to
    what was gathered; the loop raises no event.  An empty payload, that of
    a responder that had seen the request, adds nothing. *)
Theorem decodeAll_stream :
  forall (ds out : list diagInfo),
  forallb validSnapshot ds = true ->
  let data := concat (map bytesOf ds) in
  decodeAll (S (length data)) (NewDecoder data) out = Ret (out ++ ds).
Proof.
  intros ds out Hvalid. cbv zeta. apply decodeAll_concat; [exact Hvalid | lia].
Qed.

Lemma decodeAll_stream_witness :
  decodeAll (S (length (bytesOf okSnapshot ++ bytesOf new_diagInfo)))
    (NewDecoder (bytesOf okSnapshot ++ bytesOf new_diagInfo)) [okSnapshot] =
  Ret [okSnapshot; okSnapshot; new_diagInfo] /\
  decodeAll 1 (NewDecoder []) [okSnapshot] = Ret [okSnapshot].
Proof.
  split.
  - pose proof (decodeAll_stream [okSnapshot; new_diagInfo] [okSnapshot]) as H.
    cbn [map concat] in H. rewrite app_nil_r in H. apply H. vm_compute. reflexivity.
  - apply (decodeAll_stream [] [okSnapshot]). reflexivity.
Defined.

(** X18.  A new node was born when it was made and has seen no request:
    it answers the first request it gets, whatever its identifier, with a
    payload that starts with its own snapshot, and its ledger then holds
    that request and no other. *)
Theorem NewDiagnostics_fresh :
  forall (W : Type) (handle : forall X, Event X -> W -> X * W)
         (Pretty : list byte -> string)
         (msg_FromObject : Peer -> Message -> Result NetMessage)
         (proto_Unmarshal : list byte -> Result Message)
         (self : Peer) (inet : Network) (w : W),
  exists d w1,
    run handle (NewDiagnostics self inet) w = (Returned d, w1) /\
    birth d = fst (handle _ time_Now w) /\
    forall p pmes w0,
    exists d' di more w',
      run handle (handleDiagnostic Pretty msg_FromObject proto_Unmarshal d p pmes) w0 =
      (Returned (d', (Some {| DiagID := Some (GetDiagID pmes);
                              Data := bytesOf di ++ more |}, None)), w') /\
      snapshotOf Pretty handle d' di /\
      dom (diagMap d') = {[ GetDiagID pmes ]}.
Proof.
  intros W handle Pretty msg_FromObject proto_Unmarshal self inet w.
  unfold NewDiagnostics. cbn [bind trigger run].
  destruct (handle Time time_Now w) as [now w1]. cbn [fst].
  eexists _, w1. split; [reflexivity |]. split; [reflexivity |].
  intros p pmes w0.
  destruct (handleDiagnostic_steps handle Pretty msg_FromObject proto_Unmarshal
              {| network := inet; self := self; diagMap := ∅; birth := now |} p pmes w0)
    as (di & wa & wb & ctx & peers & wp & wq & buf & w' & Hdi & _ & _ & Hrelay & Hrun & _).
  { apply lookup_empty. }
  destruct (run_relay handle msg_FromObject proto_Unmarshal ctx pmes peers (bytesOf di) wq)
    as (more & w2 & Hrelay').
  rewrite Hrelay' in Hrelay. injection Hrelay as <- <-.
  eexists _, di, more, w2. split; [exact Hrun |]. split; [exists wa, wb; exact Hdi |].
  cbn [diagMap set_diagMap]. rewrite dom_insert_L, dom_empty_L, union_empty_r_L.
  reflexivity.
Qed.

(** ** The failures a node logs *)

Section Failures.

Context {W : Type} (handle : forall X, Event X -> W -> X * W).

Variable Pretty : list byte -> string.
Variable msg_FromObject : Peer -> Message -> Result NetMessage.
Variable proto_Unmarshal : list byte -> Result Message.

Lemma errorLines_app (a b : list AnyEvent) :
  errorLines (a ++ b) = errorLines a ++ errorLines b.
Proof. apply flat_map_app. Qed.

Lemma errorLines_cons (ev : AnyEvent) (evs : list AnyEvent) :
  errorLines (ev :: evs) = errorLine ev ++ errorLines evs.
Proof. reflexivity. Qed.

(** A request logs no error of its own: its caller does. *)
Lemma errorLines_getDiagnosticFromPeer (ctx : Context) (p : Peer) (pmes : Message) (w : W) :
  errorLines (trace handle (getDiagnosticFromPeer msg_FromObject proto_Unmarshal ctx p pmes) w) =
  [].
Proof.
  unfold getDiagnosticFromPeer. rewrite trace_bind, errorLines_app, trace_sendRequest.
  destruct (sendRequest_returns handle msg_FromObject proto_Unmarshal ctx p pmes w)
    as ([rpmes | err] & w' & Hrun); rewrite Hrun; cbn [trace]; rewrite app_nil_r;
    (destruct (msg_FromObject p pmes) as [mes | e]; [| reflexivity];
     destruct (fst (handle _ (SendRequest ctx mes) _)) as [[rmes |] [e |]]; reflexivity).
Qed.

Lemma errorLines_getPeers (d : Diagnostics) (w : W) :
  errorLines (trace handle (getPeers d) w) = [].
Proof.
  unfold getPeers. destruct (network d); [| reflexivity].
  cbn [trigger trace]. destruct (handle _ GetPeerList w). reflexivity.
Qed.

Lemma errorLines_connections (peers : list Peer) :
  forall (conns : list connDiagInfo) (w : W),
  errorLines (trace handle (connections Pretty peers conns) w) = [].
Proof.
  induction peers as [| p peers IH]; intros conns w; [reflexivity |].
  cbn [connections bind trigger trace]. destruct (handle _ (GetLatency p) w) as [l w1].
  rewrite errorLines_cons. apply IH.
Qed.

Lemma errorLines_getDiagInfo (d : Diagnostics) (w : W) :
  errorLines (trace handle (getDiagInfo Pretty d) w) = [].
Proof.
  unfold getDiagInfo, time_Since. cbn [bind trigger trace].
  destruct (handle Time time_Now w) as [now w1]. rewrite errorLines_cons.
  cbn [errorLine app bind]. rewrite trace_bind, errorLines_app, errorLines_getPeers.
  cbn [app].
  destruct (getPeers_returns handle d w1) as (peers & w2 & Hpeers). rewrite Hpeers.
  rewrite trace_bind, errorLines_app, errorLines_connections. cbn [app].
  destruct (run handle (connections Pretty peers []) w2) as [[conns | e] w3]; reflexivity.
Qed.

End Failures.


(** ** A round and the answers of the sender *)

Section Accounts.

Context {W : Type} (handle : forall X, Event X -> W -> X * W).

Variable Pretty : list byte -> string.
Variable msg_FromObject : Peer -> Message -> Result NetMessage.
Variable proto_Unmarshal : list byte -> Result Message.

(** The decoding loop adds the snapshots at the head of the stream and
    logs the error that ended them, if there is one. *)
Lemma decodeAll_account (fuel : nat) :
  forall (dec : Decoder) (out : list diagInfo) (w : W),
  exists w',
    run handle (decodeAll fuel dec out) w =
    (Returned (out ++ fst (decoded fuel dec)), w') /\
    errorLines (trace handle (decodeAll fuel dec out) w) =
    match snd (decoded fuel dec) with
    | Some _ => ["error decoding diagInfo: %v"%string]
    | None => []
    end.
Proof.
  induction fuel as [| fuel IH]; intros dec out w.
  - exists w. cbn [decodeAll decoded fst snd run trace]. rewrite app_nil_r. auto.
  - cbn [decodeAll decoded]. destruct (Decode dec) as [[di | err] dec'].
    + destruct (IH dec' (out ++ [di]) w) as (w' & Hrun & Hlines). exists w'.
      destruct (decoded fuel dec') as [ds e]. cbn [fst snd] in *.
      rewrite Hrun, <- app_assoc. auto.
    + cbn [fst snd]. rewrite app_nil_r. destruct (decide (err = io_EOF)).
      * exists w. auto.
      * cbn [bind trigger run trace]. destruct (handle unit _ w) as [[] w'].
        exists w'. auto.
Qed.

(** The loop of [GetDiagnostic]: what it gathers and what it logs, told
    from the outcome of the request to each peer. *)
Lemma gather_account (ctx : Context) (pmes : Message) (peers : list Peer) :
  forall (out : list diagInfo) (w : W),
  exists w',
    run handle (gather msg_FromObject proto_Unmarshal ctx pmes peers out) w =
    (Returned
       (out ++ flat_map gathered
          (outcomes msg_FromObject proto_Unmarshal pmes peers
             (responses handle (gather msg_FromObject proto_Unmarshal ctx pmes peers out) w))),
     w') /\
    errorLines (trace handle (gather msg_FromObject proto_Unmarshal ctx pmes peers out) w) =
    flat_map gatherLines
      (outcomes msg_FromObject proto_Unmarshal pmes peers
         (responses handle (gather msg_FromObject proto_Unmarshal ctx pmes peers out) w)) /\
    length (outcomes msg_FromObject proto_Unmarshal pmes peers
              (responses handle (gather msg_FromObject proto_Unmarshal ctx pmes peers out) w)) =
    length peers.
Proof.
  induction peers as [| p peers IH]; intros out w.
  - exists w. cbn [gather run trace outcomes flat_map]. rewrite app_nil_r. auto.
  - cbn [gather].
    destruct (outcome_getDiagnosticFromPeer handle msg_FromObject proto_Unmarshal ctx p pmes w)
      as (o & w1 & Hrun & Hout).
    rewrite responses_bind, run_bind, trace_bind, errorLines_app,
      (errorLines_getDiagnosticFromPeer handle), Hrun, Hout.
    cbn [app flat_map length]. destruct o as [data | err].
    + rewrite responses_bind, responses_decodeAll, run_bind, trace_bind, errorLines_app.
      cbn [app].
      destruct (decodeAll_account (S (length data)) (NewDecoder data) out w1)
        as (w2 & Hdec & Hlines).
      rewrite Hdec, Hlines.
      destruct (IH (out ++ fst (decoded (S (length data)) (NewDecoder data))) w2)
        as (w3 & Hrun3 & Hlines3 & Hlen).
      exists w3. rewrite Hrun3, Hlines3, Hlen. cbn [gathered gatherLines].
      unfold snapshotsIn. rewrite <- app_assoc. auto.
    + cbn [bind trigger run trace responses]. destruct (handle unit _ w1) as [[] w2].
      rewrite errorLines_cons. cbn [errorLine app gathered gatherLines].
      destruct (IH out w2) as (w3 & Hrun3 & Hlines3 & Hlen).
      exists w3. rewrite Hrun3, Hlines3, Hlen. auto.
Qed.

(** The loop of [handleDiagnostic]: what it relays and what it logs, told
    from the outcome of the request to each peer. *)
Lemma relay_account (ctx : Context) (pmes : Message) (peers : list Peer) :
  forall (buf : list byte) (w : W),
  exists w',
    run handle (relay msg_FromObject proto_Unmarshal ctx pmes peers buf) w =
    (Returned
       (buf ++ flat_map relayed
          (outcomes msg_FromObject proto_Unmarshal pmes peers
             (responses handle (relay msg_FromObject proto_Unmarshal ctx pmes peers buf) w))),
     w') /\
    errorLines (trace handle (relay msg_FromObject proto_Unmarshal ctx pmes peers buf) w) =
    flat_map relayLines
      (outcomes msg_FromObject proto_Unmarshal pmes peers
         (responses handle (relay msg_FromObject proto_Unmarshal ctx pmes peers buf) w)) /\
    length (outcomes msg_FromObject proto_Unmarshal pmes peers
              (responses handle (relay msg_FromObject proto_Unmarshal ctx pmes peers buf) w)) =
    length peers.
Proof.
  induction peers as [| p peers IH]; intros buf w.
  - exists w. cbn [relay run trace outcomes flat_map]. rewrite app_nil_r. auto.
  - cbn [relay].
    destruct (outcome_getDiagnosticFromPeer handle msg_FromObject proto_Unmarshal ctx p pmes w)
      as (o & w1 & Hrun & Hout).
    rewrite responses_bind, run_bind, trace_bind, errorLines_app,
      (errorLines_getDiagnosticFromPeer handle), Hrun, Hout.
    cbn [app flat_map length]. destruct o as [data | err].
    + destruct (IH (buf ++ data) w1) as (w3 & Hrun3 & Hlines3 & Hlen).
      exists w3. rewrite Hrun3, Hlines3, Hlen. cbn [relayed relayLines app].
      rewrite <- app_assoc. auto.
    + cbn [bind trigger run trace responses]. destruct (handle unit _ w1) as [[] w2].
      rewrite errorLines_cons. cbn [errorLine app relayed relayLines].
      destruct (IH buf w2) as (w3 & Hrun3 & Hlines3 & Hlen).
      exists w3. rewrite Hrun3, Hlines3, Hlen. auto.
Qed.

(** [GetDiagnostic], told from the answers of the sender. *)
Lemma GetDiagnostic_account (d : Diagnostics) (timeout : Duration) (w : W) :
  let t0 := fst (handle _ time_Now w) in
  let w1 := snd (handle _ time_Now w) in
  let diagID := string_of_list_ascii (fst (handle _ (rand_Read 4) w1)) in
  let now := fst (handle _ time_Now (snd (handle _ (rand_Read 4) w1))) in
  let d' := set_diagMap d (ledgerRegister (diagMap d) diagID now) in
  let os := fun peers =>
    outcomes msg_FromObject proto_Unmarshal (newMessage diagID) peers
      (responses handle (GetDiagnostic Pretty msg_FromObject proto_Unmarshal d timeout) w) in
  exists peers wp di w',
    fst (run handle (getPeers d) wp) = Returned peers /\
    snapshotOf Pretty handle d' di /\
    run handle (GetDiagnostic Pretty msg_FromObject proto_Unmarshal d timeout) w =
    (Returned (d', (di :: flat_map gathered (os peers), None)), w') /\
    errorLines (trace handle (GetDiagnostic Pretty msg_FromObject proto_Unmarshal d timeout) w) =
    flat_map gatherLines (os peers) /\
    length (os peers) = length peers /\
    requests (trace handle (GetDiagnostic Pretty msg_FromObject proto_Unmarshal d timeout) w) =
    envelopes msg_FromObject {| deadline := (t0 + timeout)%Z |} (newMessage diagID) peers.
Proof.
  cbv zeta.
  destruct (GetDiagnostic_steps handle Pretty msg_FromObject proto_Unmarshal d timeout w)
    as (peers & wp & wq & di & wa & wb & out & w' &
        Hpeers & Hdi & Hgather & Hrun & Hreq & Htrace & Hresp).
  match type of Hgather with
  | run _ (gather _ _ ?ctx ?pmes _ _) _ = _ =>
    destruct (gather_account ctx pmes peers [di] wb) as (w2 & Hgather' & Hlines & Hlen)
  end.
  rewrite Hgather' in Hgather. injection Hgather as <- <-.
  exists peers, wp, di, w2. rewrite Hresp, Hpeers.
  split; [reflexivity |]. split; [exists wa, wb; exact Hdi |].
  split; [exact Hrun |]. split; [| split; [exact Hlen | exact Hreq]].
  rewrite Htrace, !errorLines_cons. cbn [errorLine app].
  rewrite errorLines_app, (errorLines_getPeers handle), errorLines_cons. cbn [errorLine app].
  rewrite errorLines_app, (errorLines_getDiagInfo handle Pretty). cbn [app].
  exact Hlines.
Qed.

(** [handleDiagnostic] on a request that is not in the ledger, told from
    the answers of the sender. *)
Lemma handleDiagnostic_account (d : Diagnostics) (p : Peer) (pmes : Message) (w : W) :
  diagMap d !! GetDiagID pmes = None ->
  let d' := set_diagMap d (<[GetDiagID pmes := fst (handle _ time_Now w)]> (diagMap d)) in
  let os := fun peers =>
    outcomes msg_FromObject proto_Unmarshal pmes peers
      (responses handle (handleDiagnostic Pretty msg_FromObject proto_Unmarshal d p pmes) w) in
  exists peers wp di w',
    fst (run handle (getPeers d) wp) = Returned peers /\
    snapshotOf Pretty handle d' di /\
    run handle (handleDiagnostic Pretty msg_FromObject proto_Unmarshal d p pmes) w =
    (Returned (d', (Some {| DiagID := Some (GetDiagID pmes);
                            Data := bytesOf di ++ flat_map relayed (os peers) |}, None)), w') /\
    errorLines (trace handle (handleDiagnostic Pretty msg_FromObject proto_Unmarshal d p pmes) w) =
    flat_map relayLines (os peers) /\
    length (os peers) = length peers.
Proof.
  intros Hm. cbv zeta.
  destruct (handleDiagnostic_steps handle Pretty msg_FromObject proto_Unmarshal d p pmes w Hm)
    as (di & wa & wb & ctx & peers & wp & wq & buf & w' &
        Hdi & _ & Hpeers & Hrelay & Hrun & _ & Htrace & Hresp).
  destruct (relay_account ctx pmes peers (bytesOf di) wq) as (w2 & Hrelay' & Hlines & Hlen).
  rewrite Hrelay' in Hrelay. injection Hrelay as <- <-.
  exists peers, wp, di, w2. rewrite Hresp, Hpeers.
  split; [reflexivity |]. split; [exists wa, wb; exact Hdi |].
  split; [exact Hrun |]. split; [| exact Hlen].
  rewrite Htrace, errorLines_cons. cbn [errorLine app].
  rewrite errorLines_app, (errorLines_getDiagInfo handle Pretty), errorLines_cons.
  cbn [errorLine app]. rewrite errorLines_app, (errorLines_getPeers handle). cbn [app].
  exact Hlines.
Qed.

(** Any calls on a node return, and leave in its ledger every request
    that was there. *)
Lemma run_calls (cs : list Call) :
  forall (d : Diagnostics) (w : W),
  exists d' w',
    run handle (calls Pretty msg_FromObject proto_Unmarshal cs d) w = (Returned d', w') /\
    dom (diagMap d) ⊆ dom (diagMap d').
Proof.
  assert (Hhandle : forall d p pmes w,
    exists d' res w',
      run handle (handleDiagnostic Pretty msg_FromObject proto_Unmarshal d p pmes) w =
      (Returned (d', res), w') /\
      dom (diagMap d) ⊆ dom (diagMap d')).
  { intros d p pmes w.
    destruct (run_handleDiagnostic handle Pretty msg_FromObject proto_Unmarshal d p pmes w)
      as (d' & resp & w' & Hrun & _ & Hcase).
    exists d', (Some resp, None), w'. split; [exact Hrun |].
    destruct (diagMap d !! GetDiagID pmes).
    - destruct Hcase as (-> & _). done.
    - destruct Hcase as (-> & _). cbn [diagMap set_diagMap]. rewrite dom_insert_L.
      apply union_subseteq_r. }
  induction cs as [| c cs IH]; intros d w.
  - exists d, w. split; [reflexivity | done].
  - cbn [calls]. rewrite run_bind.
    assert (Hcall : exists d1 w1,
      run handle (call Pretty msg_FromObject proto_Unmarshal c d) w = (Returned d1, w1) /\
      dom (diagMap d) ⊆ dom (diagMap d1)).
    { destruct c as [timeout | p pmes | ctx mes]; cbn [call]; rewrite run_bind.
      - destruct (run_GetDiagnostic handle Pretty msg_FromObject proto_Unmarshal d timeout w)
          as (d1 & di & more & w1 & Hrun & _ & (id & now & ->) & _).
        rewrite Hrun. eexists _, w1. split; [reflexivity |].
        cbn [fst diagMap set_diagMap]. apply ledgerRegister_grows.
      - destruct (Hhandle d p pmes w) as (d1 & res & w1 & Hrun & Hsub).
        rewrite Hrun. exists d1, w1. split; [reflexivity | exact Hsub].
      - destruct (run_HandleMessage handle Pretty msg_FromObject proto_Unmarshal d ctx mes w)
          as (d1 & res & w1 & Hrun & Hd1).
        rewrite Hrun. exists d1, w1. split; [reflexivity |].
        destruct Hd1 as [-> | (p & pmes & w2 & r0 & w2' & Hrun2)]; [done |].
        destruct (Hhandle d p pmes w2) as (d2 & res2 & w3 & Hrun3 & Hsub3).
        rewrite Hrun2 in Hrun3. injection Hrun3 as -> _ _. exact Hsub3. }
    destruct Hcall as (d1 & w1 & Hrun1 & Hsub1). rewrite Hrun1.
    destruct (IH d1 w1) as (d' & w' & Hrun' & Hsub').
    exists d', w'. split; [exact Hrun' |]. etransitivity; eassumption.
Qed.

End Accounts.

(** ** Streams of snapshots, again *)

(** The snapshots at the head of a stream that starts with the encodings
    of snapshots. *)
Lemma decodeAll_prefix (ds : list diagInfo) :
  forallb validSnapshot ds = true ->
  forall (fuel : nat) (out : list diagInfo) (rest : list byte),
  (length (concat (map bytesOf ds) ++ rest) < fuel)%nat ->
  decodeAll fuel (NewDecoder (concat (map bytesOf ds) ++ rest)) out =
  decodeAll (S (length rest)) (NewDecoder rest) (out ++ ds).
Proof.
  induction ds as [| di ds IH]; intros Hvalid fuel out rest Hfuel.
  - cbn [map concat app] in *. rewrite app_nil_r. apply decodeAll_enough; unfold NewDecoder; lia.
  - simpl in Hvalid. apply andb_true_iff in Hvalid as [Hdi Hds].
    cbn [map concat] in *. rewrite <- app_assoc in *. rewrite length_app in Hfuel.
    destruct (Decode_Marshal di _ (concat (map bytesOf ds) ++ rest) Hdi (bytesOf_Marshal di))
      as [Hdec Hlen].
    destruct fuel as [| fuel]; [lia |]. unfold NewDecoder.
    rewrite (decodeAll_step _ _ _ _ _ Hdec).
    change (concat (map bytesOf ds) ++ rest)
      with (NewDecoder (concat (map bytesOf ds) ++ rest)) at 1.
    rewrite IH by (assumption || lia). rewrite <- app_assoc. reflexivity.
Qed.

Lemma decoded_concat (ds : list diagInfo) :
  forallb validSnapshot ds = true ->
  forall (fuel : nat),
  (length (concat (map bytesOf ds)) < fuel)%nat ->
  decoded fuel (NewDecoder (concat (map bytesOf ds))) = (ds, None).
Proof.
  induction ds as [| di ds IH]; intros Hvalid fuel Hfuel.
  - destruct fuel; [lia |]. reflexivity.
  - simpl in Hvalid. apply andb_true_iff in Hvalid as [Hdi Hds].
    cbn [map concat] in *. rewrite length_app in Hfuel.
    destruct (Decode_Marshal di _ (concat (map bytesOf ds)) Hdi (bytesOf_Marshal di))
      as [Hdec Hlen].
    destruct fuel as [| fuel]; [lia |]. unfold NewDecoder in *.
    cbn [decoded]. rewrite Hdec, IH by (assumption || lia). reflexivity.
Qed.

Lemma snapshotsIn_concat (ds : list diagInfo) :
  forallb validSnapshot ds = true -> snapshotsIn (concat (map bytesOf ds)) = ds.
Proof.
  intros Hvalid. unfold snapshotsIn. rewrite decoded_concat by (assumption || lia).
  reflexivity.
Qed.

(** ** The ledger *)

(** C1.  At one node, the first claim of a request [r] says that [r] was
    not in the ledger and enters it, with the time of the clock; every
    later claim of [r] at that node says that it is there, whatever was
    called on the node in between.  [handleDiagnostic] makes the claim: on a
    request that is new to the node it enters it and answers with the
    node's own snapshot, on one that is in the ledger it answers with an
    empty payload; [HandleMessage] does so through it, and [GetDiagnostic]
    enters the request it is about to send.  The ledger only grows: no call
    of [GetDiagnostic], [handleDiagnostic] or [HandleMessage], in any order,
    removes a request.  The ledger of a new node is empty. *)
Theorem ledger_claimed_once_and_grows :
  forall (W : Type) (handle : forall X, Event X -> W -> X * W)
         (Pretty : list byte -> string)
         (msg_FromObject : Peer -> Message -> Result NetMessage)
         (proto_Unmarshal : list byte -> Result Message)
         (d : Diagnostics) (r : string) (w : W),
  let now := fst (handle _ time_Now w) in
  (exists found m1 w1,
     run handle (ledgerClaim (diagMap d) r) w = (Returned (found, m1), w1) /\
     (found = false <-> r ∉ dom (diagMap d)) /\
     m1 = (if found then diagMap d else <[r := now]> (diagMap d)) /\
     r ∈ dom m1) /\
  (forall p pmes,
     GetDiagID pmes = r ->
     exists d1 resp w1,
       run handle (handleDiagnostic Pretty msg_FromObject proto_Unmarshal d p pmes) w =
       (Returned (d1, (Some resp, None)), w1) /\
       diagMap d1 =
         (if decide (r ∈ dom (diagMap d)) then diagMap d else <[r := now]> (diagMap d)) /\
       dom (diagMap d1) = {[ r ]} ∪ dom (diagMap d) /\
       (if decide (r ∈ dom (diagMap d)) then Data resp = []
        else exists di more,
               snapshotOf Pretty handle d1 di /\ Data resp = bytesOf di ++ more) /\
       forall cs w2,
       exists d2 w3,
         run handle (calls Pretty msg_FromObject proto_Unmarshal cs d1) w2 =
         (Returned d2, w3) /\
         ledgerClaim (diagMap d2) r = Ret (true, diagMap d2) /\
         forall p' pmes',
           GetDiagID pmes' = r ->
           handleDiagnostic Pretty msg_FromObject proto_Unmarshal d2 p' pmes' =
           Ret (d2, (Some (newMessage r), None))) /\
  (forall cs,
     exists d' w',
       run handle (calls Pretty msg_FromObject proto_Unmarshal cs d) w = (Returned d', w') /\
       dom (diagMap d) ⊆ dom (diagMap d')) /\
  (forall timeout,
     let w1 := snd (handle _ time_Now w) in
     let id := string_of_list_ascii (fst (handle _ (rand_Read 4) w1)) in
     let t := fst (handle _ time_Now (snd (handle _ (rand_Read 4) w1))) in
     exists d1 res w',
       run handle (GetDiagnostic Pretty msg_FromObject proto_Unmarshal d timeout) w =
       (Returned (d1, res), w') /\
       diagMap d1 = ledgerRegister (diagMap d) id t /\
       ledgerRegister (diagMap d) id t !! id = Some t /\
       dom (diagMap d1) = {[ id ]} ∪ dom (diagMap d) /\
       forall cs w2,
       exists d2 w3,
         run handle (calls Pretty msg_FromObject proto_Unmarshal cs d1) w2 =
         (Returned d2, w3) /\
         ledgerClaim (diagMap d2) id = Ret (true, diagMap d2)) /\
  (forall ctx mes mData mPeer pmes,
     mes_Data mes = Some mData ->
     mes_Peer mes = Some mPeer ->
     proto_Unmarshal mData = inl pmes ->
     GetDiagID pmes = r ->
     exists d1 res w1,
       run handle (HandleMessage Pretty msg_FromObject proto_Unmarshal d ctx mes) w =
       (Returned (d1, res), w1) /\
       dom (diagMap d1) = {[ r ]} ∪ dom (diagMap d)) /\
  (forall self inet,
     exists d0 w',
       run handle (NewDiagnostics self inet) w = (Returned d0, w') /\
       diagMap d0 = ∅).
Proof.
  intros W handle Pretty msg_FromObject proto_Unmarshal d r w. cbv zeta.
  assert (Hlater : forall d1, r ∈ dom (diagMap d1) -> forall cs w2,
    exists d2 w3,
      run handle (calls Pretty msg_FromObject proto_Unmarshal cs d1) w2 = (Returned d2, w3) /\
      ledgerClaim (diagMap d2) r = Ret (true, diagMap d2) /\
      forall p' pmes',
        GetDiagID pmes' = r ->
        handleDiagnostic Pretty msg_FromObject proto_Unmarshal d2 p' pmes' =
        Ret (d2, (Some (newMessage r), None))).
  { intros d1 Hin cs w2.
    destruct (run_calls handle Pretty msg_FromObject proto_Unmarshal cs d1 w2)
      as (d2 & w3 & Hrun & Hsub).
    exists d2, w3. split; [exact Hrun |].
    assert (Hin2 : r ∈ dom (diagMap d2)) by (apply Hsub; exact Hin).
    split; [apply ledgerClaim_present; exact Hin2 |].
    intros p' pmes' Hid. unfold handleDiagnostic.
    rewrite Hid, (ledgerClaim_present _ _ Hin2). reflexivity. }
  assert (Hhandle : forall p pmes w0,
    GetDiagID pmes = r ->
    exists d1 resp w1,
      run handle (handleDiagnostic Pretty msg_FromObject proto_Unmarshal d p pmes) w0 =
      (Returned (d1, (Some resp, None)), w1) /\
      diagMap d1 =
        (if decide (r ∈ dom (diagMap d)) then diagMap d
         else <[r := fst (handle _ time_Now w0)]> (diagMap d)) /\
      dom (diagMap d1) = {[ r ]} ∪ dom (diagMap d) /\
      (if decide (r ∈ dom (diagMap d)) then Data resp = []
       else exists di more,
              snapshotOf Pretty handle d1 di /\ Data resp = bytesOf di ++ more)).
  { intros p pmes w0 <-.
    destruct (run_handleDiagnostic handle Pretty msg_FromObject proto_Unmarshal d p pmes w0)
      as (d1 & resp & w1 & Hrun & _ & Hcase).
    exists d1, resp, w1. split; [exact Hrun |].
    destruct (decide (GetDiagID pmes ∈ dom (diagMap d))) as [Hin | Hout].
    - pose proof Hin as [t Ht]%elem_of_dom. rewrite Ht in Hcase.
      destruct Hcase as (-> & HData & _). split; [reflexivity |].
      split; [| exact HData]. symmetry. apply subseteq_union_1_L.
      apply singleton_subseteq_l. exact Hin.
    - pose proof Hout as Hnone%not_elem_of_dom. rewrite Hnone in Hcase.
      destruct Hcase as (-> & di & b & more & Hdi & Hb & HData).
      cbn [diagMap set_diagMap]. split; [reflexivity |].
      split; [apply dom_insert_L |].
      exists di, more. split; [exact Hdi |].
      rewrite HData. unfold bytesOf. rewrite Hb. reflexivity. }
  split; [| split; [| split; [| split; [| split]]]].
  - destruct (run_ledgerClaim handle (diagMap d) r w)
      as (found & m1 & w1 & Hrun & Hfound & Hin & _ & Htrue & Hfalse).
    exists found, m1, w1. split; [exact Hrun |].
    split; [by rewrite Hfound, not_elem_of_dom |].
    split; [| by apply elem_of_dom].
    destruct found; [apply Htrue | apply Hfalse]; reflexivity.
  - intros p pmes Hid.
    destruct (Hhandle p pmes w Hid) as (d1 & resp & w1 & Hrun & Hmap & Hdom & HData).
    exists d1, resp, w1. split; [exact Hrun |]. split; [exact Hmap |].
    split; [exact Hdom |]. split; [exact HData |].
    apply Hlater. rewrite Hdom. apply elem_of_union_l, elem_of_singleton. reflexivity.
  - intros cs. apply run_calls.
  - intros timeout.
    destruct (GetDiagnostic_steps handle Pretty msg_FromObject proto_Unmarshal d timeout w)
      as (peers & wp & wq & di & wa & wb & out & w' & _ & _ & _ & Hrun & _).
    eexists _, _, w'. split; [exact Hrun |]. cbn [diagMap set_diagMap].
    split; [reflexivity |]. unfold ledgerRegister.
    split; [apply lookup_insert_eq |]. split; [apply dom_insert_L |].
    intros cs w2.
    match goal with
    | |- context [calls _ _ _ cs ?d1] =>
      destruct (run_calls handle Pretty msg_FromObject proto_Unmarshal cs d1 w2)
        as (d2 & w3 & Hrun2 & Hsub)
    end.
    exists d2, w3. split; [exact Hrun2 |]. apply ledgerClaim_present, Hsub.
    cbn [diagMap set_diagMap]. rewrite dom_insert_L.
    apply elem_of_union_l, elem_of_singleton. reflexivity.
  - intros ctx mes mData mPeer pmes HData HPeer Hpmes Hid.
    unfold HandleMessage. rewrite HData, HPeer, Hpmes. cbn [bind trigger run].
    destruct (handle unit _ w) as [[] w0]. rewrite run_bind.
    destruct (Hhandle mPeer pmes w0 Hid) as (d1 & resp & w1 & Hrun & _ & Hdom & _).
    rewrite Hrun. cbn [bind].
    destruct (msg_FromObject mPeer resp); eexists _, _, w1; (split; [reflexivity | exact Hdom]).
  - intros self inet. unfold NewDiagnostics. cbn [bind trigger run].
    destruct (handle Time time_Now w) as [t0 w']. eexists _, w'. split; reflexivity.
Qed.

Lemma ledger_claimed_once_and_grows_witness :
  let d := {| network := IpfsNetwork; self := {| peer_ID := ["Q"%char] |};
              diagMap := ∅; birth := 0%Z |} in
  let p := {| peer_ID := ["a"%char] |} in
  let pmes := {| DiagID := Some "abcd"%string; Data := [] |} in
  exists d1 resp,
    run silent (handleDiagnostic plainPretty emptyEnvelope rejectAll d p pmes) tt =
    (Returned (d1, (Some resp, None)), tt) /\
    diagMap d1 = {[ "abcd"%string := 0%Z ]} /\
    Data resp <> [] /\
    run silent (handleDiagnostic plainPretty emptyEnvelope rejectAll d1 p pmes) tt =
    (Returned (d1, (Some {| DiagID := Some "abcd"%string; Data := [] |}, None)), tt).
Proof.
  intros d p pmes.
  destruct (ledger_claimed_once_and_grows unit silent plainPretty emptyEnvelope rejectAll
              d "abcd"%string tt) as (_ & Hhandle & _).
  destruct (Hhandle p pmes eq_refl) as (d1 & resp & [] & Hrun & Hmap & _ & HData & Hlater).
  exists d1, resp. split; [exact Hrun |]. split; [exact Hmap |]. split.
  - pose proof Hrun as Hc. vm_compute in Hc. injection Hc as _ <-. discriminate.
  - destruct (Hlater [] tt) as (d2 & w3 & Hcalls & _ & Hagain).
    cbn [calls run] in Hcalls. injection Hcalls as <- _.
    rewrite (Hagain p pmes eq_refl). reflexivity.
Defined.

(** ** The result of a round *)

(** C4.  In every environment [GetDiagnostic] returns with a nil error,
    and what it returns is told from what the sender answered: the node's
    own snapshot, followed, for each peer of the peer list in order, by the
    snapshots decoded from the payload of its response.  A peer whose
    request fails adds nothing and takes nothing away, whether the envelope
    could not be built, the sender failed, the sender returned no response
    or the response did not decode (see [outcomes] and [payloadOf]); a
    payload that stops decoding adds the snapshots before the error.  There
    is an outcome for every peer: each was asked. *)
Theorem GetDiagnostic_never_fails :
  forall (W : Type) (handle : forall X, Event X -> W -> X * W)
         (Pretty : list byte -> string)
         (msg_FromObject : Peer -> Message -> Result NetMessage)
         (proto_Unmarshal : list byte -> Result Message)
         (d : Diagnostics) (timeout : Duration) (w : W),
  let t0 := fst (handle _ time_Now w) in
  let diagID :=
    string_of_list_ascii (fst (handle _ (rand_Read 4) (snd (handle _ time_Now w)))) in
  let answers :=
    responses handle (GetDiagnostic Pretty msg_FromObject proto_Unmarshal d timeout) w in
  exists peers w0 d' di w',
    fst (run handle (getPeers d) w0) = Returned peers /\
    run handle (GetDiagnostic Pretty msg_FromObject proto_Unmarshal d timeout) w =
    (Returned
       (d', (di :: flat_map gathered
                     (outcomes msg_FromObject proto_Unmarshal (newMessage diagID) peers answers),
             None)), w') /\
    snapshotOf Pretty handle d' di /\
    length (outcomes msg_FromObject proto_Unmarshal (newMessage diagID) peers answers) =
    length peers /\
    requests (trace handle (GetDiagnostic Pretty msg_FromObject proto_Unmarshal d timeout) w) =
    envelopes msg_FromObject {| deadline := (t0 + timeout)%Z |} (newMessage diagID) peers.
Proof.
  intros W handle Pretty msg_FromObject proto_Unmarshal d timeout w. cbv zeta.
  destruct (GetDiagnostic_account handle Pretty msg_FromObject proto_Unmarshal d timeout w)
    as (peers & wp & di & w' & Hpeers & Hown & Hrun & _ & Hlen & Hreq).
  eexists peers, wp, _, di, w'. split; [exact Hpeers |]. split; [exact Hrun |].
  split; [exact Hown |]. split; [exact Hlen | exact Hreq].
Qed.

Lemma GetDiagnostic_never_fails_witness :
  let p1 := {| peer_ID := ["a"%char] |} in
  let p2 := {| peer_ID := ["b"%char] |} in
  let p3 := {| peer_ID := ["c"%char] |} in
  let d := {| network := IpfsNetwork; self := {| peer_ID := ["Q"%char] |};
              diagMap := ∅; birth := 0%Z |} in
  exists d' di,
    fst (run (answeringOnly p2 [p1; p2; p3] (bytesOf okSnapshot))
           (GetDiagnostic plainPretty emptyEnvelope payloadOnly d 1000%Z) tt) =
    Returned (d', ([di; okSnapshot], None)).
Proof.
  intros p1 p2 p3 d.
  destruct (GetDiagnostic_never_fails unit (answeringOnly p2 [p1; p2; p3] (bytesOf okSnapshot))
              plainPretty emptyEnvelope payloadOnly d 1000%Z tt)
    as (peers & [] & d' & di & w' & Hpeers & Hrun & _).
  injection Hpeers as <-. exists d', di. rewrite Hrun. cbn [fst].
  match goal with
  | |- context [flat_map gathered ?os] =>
    replace (flat_map gathered os) with [okSnapshot] by (vm_compute; reflexivity)
  end.
  reflexivity.
Defined.

(** ** The order of a result *)



(** What is gathered when every request comes to the encodings of
    snapshots, or fails. *)
Lemma gathered_all (snap : Peer -> diagInfo) (peers : list Peer)
    (os : list (Result (list byte))) :
  Forall2 (fun p o => validSnapshot (snap p) = true /\ o = inl (bytesOf (snap p))) peers os ->
  flat_map gathered os = map snap peers.
Proof.
  induction 1 as [| p o ps os' [Hvalid ->] _ IH]; [reflexivity |].
  cbn [flat_map map gathered]. rewrite IH.
  pose proof (snapshotsIn_concat [snap p]) as Hone.
  cbn [map concat forallb] in Hone. rewrite app_nil_r, Hvalid in Hone.
  rewrite Hone by reflexivity. reflexivity.
Qed.

Lemma gathered_answered (snaps : Peer -> option (list diagInfo)) (peers : list Peer)
    (os : list (Result (list byte))) :
  Forall2 (fun p o =>
             match snaps p with
             | Some ds =>
               forallb validSnapshot ds = true /\ o = inl (concat (map bytesOf ds))
             | None => exists err, o = inr err
             end) peers os ->
  flat_map gathered os = answered snaps peers.
Proof.
  unfold answered. induction 1 as [| p o ps os' Hp _ IH]; [reflexivity |].
  cbn [flat_map]. rewrite IH. f_equal.
  destruct (snaps p) as [ds |].
  - destruct Hp as [Hvalid ->]. cbn [gathered default]. apply snapshotsIn_concat, Hvalid.
  - destruct Hp as [err ->]. reflexivity.
Qed.

(** ** More of the rounds *)

(** X3.  On a network that is not an [IpfsNetwork] the node has no peer
    list: [getPeers] returns nil without asking the swarm, and
    [GetDiagnostic] sends no request and returns one snapshot and no error.
    The snapshot is the node's own: it carries the printed identity of the
    node, no connection, no key and the version of the code. *)
Theorem GetDiagnostic_other_network :
  forall (W : Type) (handle : forall X, Event X -> W -> X * W)
         (Pretty : list byte -> string)
         (msg_FromObject : Peer -> Message -> Result NetMessage)
         (proto_Unmarshal : list byte -> Result Message)
         (self : Peer) (m : gmap string Time) (birth : Time)
         (timeout : Duration) (w : W),
  let d := {| network := OtherNetwork; self := self; diagMap := m; birth := birth |} in
  getPeers d = Ret [] /\
  exists d' di w',
    run handle (GetDiagnostic Pretty msg_FromObject proto_Unmarshal d timeout) w =
    (Returned (d', ([di], None)), w') /\
    snapshotOf Pretty handle d' di /\
    ID di = Pretty (peer_ID self) /\
    Connections di = [] /\
    Keys di = [] /\
    CodeVersion di = "github.com/jbenet/go-ipfs"%string /\
    requests (trace handle (GetDiagnostic Pretty msg_FromObject proto_Unmarshal d timeout) w) =
    [].
Proof.
  intros W handle Pretty msg_FromObject proto_Unmarshal self m birth timeout w d.
  split; [reflexivity |].
  destruct (GetDiagnostic_account handle Pretty msg_FromObject proto_Unmarshal d timeout w)
    as (peers & wp & di & w' & Hpeers & Hown & Hrun & _ & _ & Hreq).
  cbn [getPeers network d run fst] in Hpeers. injection Hpeers as <-.
  cbn [outcomes flat_map] in Hrun. cbn [envelopes flat_map] in Hreq.
  eexists _, di, w'. split; [exact Hrun |]. split; [exact Hown |].
  destruct Hown as (wa & wb & Hdi).
  match type of Hdi with
  | run _ (getDiagInfo _ ?d1) _ = _ =>
    destruct (run_getDiagInfo handle Pretty d1 wa)
      as (di' & wb' & Hdi' & HID & HKeys & HVersion & _ & peers' & Hpeers' & Hconns)
  end.
  rewrite Hdi in Hdi'. injection Hdi' as <- _.
  split; [exact HID |].
  cbn [getPeers network set_diagMap run fst] in Hpeers'. injection Hpeers' as <-.
  split; [destruct (Connections di); [reflexivity | discriminate] |].
  split; [exact HKeys |]. split; [exact HVersion | exact Hreq].
Qed.

(** X5.  When the response to the request of each peer, in order, carries
    the encoding of one snapshot, that of the peer, [GetDiagnostic] returns
    one snapshot more than there are peers: the node's own first, then the
    snapshot of each peer in the order of the peer list; and no error.  The
    condition is on the round itself: on the outcome of the request that
    was sent to each peer. *)
Theorem GetDiagnostic_all_answer :
  forall (W : Type) (handle : forall X, Event X -> W -> X * W)
         (Pretty : list byte -> string)
         (msg_FromObject : Peer -> Message -> Result NetMessage)
         (proto_Unmarshal : list byte -> Result Message)
         (d : Diagnostics) (timeout : Duration)
         (peers : list Peer) (snap : Peer -> diagInfo) (w : W),
  let diagID :=
    string_of_list_ascii (fst (handle _ (rand_Read 4) (snd (handle _ time_Now w)))) in
  (forall w0, fst (run handle (getPeers d) w0) = Returned peers) ->
  Forall2 (fun p o => validSnapshot (snap p) = true /\ o = inl (bytesOf (snap p)))
    peers
    (outcomes msg_FromObject proto_Unmarshal (newMessage diagID) peers
       (responses handle (GetDiagnostic Pretty msg_FromObject proto_Unmarshal d timeout) w)) ->
  exists d' di w',
    run handle (GetDiagnostic Pretty msg_FromObject proto_Unmarshal d timeout) w =
    (Returned (d', (di :: map snap peers, None)), w') /\
    snapshotOf Pretty handle d' di /\
    length (di :: map snap peers) = S (length peers).
Proof.
  intros W handle Pretty msg_FromObject proto_Unmarshal d timeout peers snap w.
  cbv zeta. intros Hpeers Hanswers.
  destruct (GetDiagnostic_account handle Pretty msg_FromObject proto_Unmarshal d timeout w)
    as (peers' & wp & di & w' & Hpeers' & Hown & Hrun & _).
  rewrite Hpeers in Hpeers'. injection Hpeers' as <-.
  rewrite (gathered_all _ _ _ Hanswers) in Hrun.
  eexists _, di, w'. split; [exact Hrun |]. split; [exact Hown |].
  cbn [length]. rewrite length_map. reflexivity.
Qed.

Lemma GetDiagnostic_all_answer_witness :
  let p1 := {| peer_ID := ["a"%char] |} in
  let p2 := {| peer_ID := ["b"%char] |} in
  let d := {| network := IpfsNetwork; self := {| peer_ID := ["Q"%char] |};
              diagMap := ∅; birth := 0%Z |} in
  exists d' di w',
    run (answering [p1; p2] (bytesOf okSnapshot))
      (GetDiagnostic plainPretty emptyEnvelope payloadOnly d 1000%Z) tt =
    (Returned (d', ([di; okSnapshot; okSnapshot], None)), w').
Proof.
  intros p1 p2 d.
  destruct (GetDiagnostic_all_answer unit (answering [p1; p2] (bytesOf okSnapshot))
              plainPretty emptyEnvelope payloadOnly d 1000%Z [p1; p2]
              (fun _ => okSnapshot) tt) as (d' & di & w' & Hrun & _).
  - intros []. reflexivity.
  - vm_compute. repeat constructor.
  - exists d', di, w'. exact Hrun.
Defined.

(** X14.  A round with peers that fail.  When the request of each peer
    either fails or comes to a payload that is the encodings of snapshots
    whose strings are well-formed UTF-8, [GetDiagnostic] returns its own
    snapshot followed by the snapshots of the peers whose request did not
    fail, in the order of the peer list, and no error.  The condition is on
    the round itself: on the outcome of the request that was sent to each
    peer. *)
Theorem GetDiagnostic_partial :
  forall (W : Type) (handle : forall X, Event X -> W -> X * W)
         (Pretty : list byte -> string)
         (msg_FromObject : Peer -> Message -> Result NetMessage)
         (proto_Unmarshal : list byte -> Result Message)
         (d : Diagnostics) (timeout : Duration)
         (peers : list Peer) (snaps : Peer -> option (list diagInfo)) (w : W),
  let diagID :=
    string_of_list_ascii (fst (handle _ (rand_Read 4) (snd (handle _ time_Now w)))) in
  (forall w0, fst (run handle (getPeers d) w0) = Returned peers) ->
  Forall2 (fun p o =>
             match snaps p with
             | Some ds =>
               forallb validSnapshot ds = true /\ o = inl (concat (map bytesOf ds))
             | None => exists err, o = inr err
             end)
    peers
    (outcomes msg_FromObject proto_Unmarshal (newMessage diagID) peers
       (responses handle (GetDiagnostic Pretty msg_FromObject proto_Unmarshal d timeout) w)) ->
  exists d' di w',
    run handle (GetDiagnostic Pretty msg_FromObject proto_Unmarshal d timeout) w =
    (Returned (d', (di :: answered snaps peers, None)), w') /\
    snapshotOf Pretty handle d' di.
Proof.
  intros W handle Pretty msg_FromObject proto_Unmarshal d timeout peers snaps w.
  cbv zeta. intros Hpeers Hanswers.
  destruct (GetDiagnostic_account handle Pretty msg_FromObject proto_Unmarshal d timeout w)
    as (peers' & wp & di & w' & Hpeers' & Hown & Hrun & _).
  rewrite Hpeers in Hpeers'. injection Hpeers' as <-.
  rewrite (gathered_answered _ _ _ Hanswers) in Hrun.
  eexists _, di, w'. split; [exact Hrun | exact Hown].
Qed.

Lemma GetDiagnostic_partial_witness :
  let p1 := {| peer_ID := ["a"%char] |} in
  let p2 := {| peer_ID := ["b"%char] |} in
  let p3 := {| peer_ID := ["c"%char] |} in
  let d := {| network := IpfsNetwork; self := {| peer_ID := ["Q"%char] |};
              diagMap := ∅; birth := 0%Z |} in
  exists d' di,
    fst (run (answeringOnly p2 [p1; p2; p3] (bytesOf okSnapshot ++ bytesOf new_diagInfo))
           (GetDiagnostic plainPretty emptyEnvelope payloadOnly d 1000%Z) tt) =
    Returned (d', ([di; okSnapshot; new_diagInfo], None)).
Proof.
  intros p1 p2 p3 d.
  destruct (GetDiagnostic_partial unit
              (answeringOnly p2 [p1; p2; p3] (bytesOf okSnapshot ++ bytesOf new_diagInfo))
              plainPretty emptyEnvelope payloadOnly d 1000%Z [p1; p2; p3]
              (fun p => if decide (peer_ID p = ["b"%char])
                        then Some [okSnapshot; new_diagInfo] else None) tt)
    as (d' & di & w' & Hrun & _).
  - intros []. reflexivity.
  - match goal with
    | |- Forall2 _ _ ?os =>
      let v := eval vm_compute in os in
      replace os with v by (vm_compute; reflexivity)
    end.
    constructor; [| constructor; [| constructor; [| constructor]]].
    + vm_compute. eexists. reflexivity.
    + vm_compute. split; reflexivity.
    + vm_compute. eexists. reflexivity.
  - exists d', di. rewrite Hrun. reflexivity.
Defined.

(** X19.  What [GetDiagnostic] writes to the log at the level of an error
    is told from what the sender answered.  For each peer of the peer list,
    in order: the line "GetDiagnostic error: %v" when the request fails, the
    line "error decoding diagInfo: %v" when the payload of the response
    stops decoding before its end, and nothing when the payload is read to
    its end.  Nothing else is logged at that level. *)
Theorem GetDiagnostic_logs_failures :
  forall (W : Type) (handle : forall X, Event X -> W -> X * W)
         (Pretty : list byte -> string)
         (msg_FromObject : Peer -> Message -> Result NetMessage)
         (proto_Unmarshal : list byte -> Result Message)
         (d : Diagnostics) (timeout : Duration) (w : W),
  let diagID :=
    string_of_list_ascii (fst (handle _ (rand_Read 4) (snd (handle _ time_Now w)))) in
  let answers :=
    responses handle (GetDiagnostic Pretty msg_FromObject proto_Unmarshal d timeout) w in
  exists peers w0,
    fst (run handle (getPeers d) w0) = Returned peers /\
    errorLines (trace handle (GetDiagnostic Pretty msg_FromObject proto_Unmarshal d timeout) w) =
    flat_map gatherLines
      (outcomes msg_FromObject proto_Unmarshal (newMessage diagID) peers answers) /\
    length (outcomes msg_FromObject proto_Unmarshal (newMessage diagID) peers answers) =
    length peers.
Proof.
  intros W handle Pretty msg_FromObject proto_Unmarshal d timeout w. cbv zeta.
  destruct (GetDiagnostic_account handle Pretty msg_FromObject proto_Unmarshal d timeout w)
    as (peers & wp & di & w' & Hpeers & _ & _ & Hlines & Hlen & _).
  exists peers, wp. split; [exact Hpeers |]. split; [exact Hlines | exact Hlen].
Qed.

Lemma GetDiagnostic_logs_failures_witness :
  let p1 := {| peer_ID := ["a"%char] |} in
  let p2 := {| peer_ID := ["b"%char] |} in
  let p3 := {| peer_ID := ["c"%char] |} in
  let d := {| network := IpfsNetwork; self := {| peer_ID := ["Q"%char] |};
              diagMap := ∅; birth := 0%Z |} in
  errorLines (trace (answeringOnly p2 [p1; p2; p3] (bytesOf okSnapshot ++ ["{"%char]))
                (GetDiagnostic plainPretty emptyEnvelope payloadOnly d 1000%Z) tt) =
  ["GetDiagnostic error: %v"; "error decoding diagInfo: %v"; "GetDiagnostic error: %v"]%string.
Proof.
  intros p1 p2 p3 d.
  destruct (GetDiagnostic_logs_failures unit
              (answeringOnly p2 [p1; p2; p3] (bytesOf okSnapshot ++ ["{"%char]))
              plainPretty emptyEnvelope payloadOnly d 1000%Z tt)
    as (peers & [] & Hpeers & Hlines & _).
  injection Hpeers as <-. rewrite Hlines. vm_compute. reflexivity.
Defined.

(** X12.  The payload of the response to a request that is not in the
    ledger is told from what the sender answered: the encoding of the
    node's own snapshot followed, for each peer of the peer list in order,
    by the payload of its response as it came; a peer whose request fails
    adds nothing. *)
Theorem handleDiagnostic_payload :
  forall (W : Type) (handle : forall X, Event X -> W -> X * W)
         (Pretty : list byte -> string)
         (msg_FromObject : Peer -> Message -> Result NetMessage)
         (proto_Unmarshal : list byte -> Result Message)
         (d : Diagnostics) (p : Peer) (pmes : Message) (w : W),
  GetDiagID pmes ∉ dom (diagMap d) ->
  let answers :=
    responses handle (handleDiagnostic Pretty msg_FromObject proto_Unmarshal d p pmes) w in
  exists peers w0 d' di w',
    fst (run handle (getPeers d) w0) = Returned peers /\
    run handle (handleDiagnostic Pretty msg_FromObject proto_Unmarshal d p pmes) w =
    (Returned
       (d', (Some {| DiagID := Some (GetDiagID pmes);
                     Data :=
                       bytesOf di ++
                       flat_map relayed
                         (outcomes msg_FromObject proto_Unmarshal pmes peers answers) |},
             None)), w') /\
    snapshotOf Pretty handle d' di /\
    Marshal di = Ret (bytesOf di) /\
    length (outcomes msg_FromObject proto_Unmarshal pmes peers answers) = length peers.
Proof.
  intros W handle Pretty msg_FromObject proto_Unmarshal d p pmes w Hout. cbv zeta.
  apply not_elem_of_dom in Hout.
  destruct (handleDiagnostic_account handle Pretty msg_FromObject proto_Unmarshal d p pmes w Hout)
    as (peers & wp & di & w' & Hpeers & Hown & Hrun & _ & Hlen).
  eexists peers, wp, _, di, w'. split; [exact Hpeers |]. split; [exact Hrun |].
  split; [exact Hown |]. split; [apply Marshal_bytesOf | exact Hlen].
Qed.

Lemma handleDiagnostic_payload_witness :
  let p1 := {| peer_ID := ["a"%char] |} in
  let p2 := {| peer_ID := ["b"%char] |} in
  let p3 := {| peer_ID := ["c"%char] |} in
  let d := {| network := IpfsNetwork; self := {| peer_ID := ["Q"%char] |};
              diagMap := ∅; birth := 0%Z |} in
  let pmes := {| DiagID := Some "abcd"%string; Data := [] |} in
  exists d' di,
    fst (run (answeringOnly p2 [p1; p2; p3] ["x"%char; "y"%char])
           (handleDiagnostic plainPretty emptyEnvelope payloadOnly d p1 pmes) tt) =
    Returned (d', (Some {| DiagID := Some "abcd"%string;
                           Data := bytesOf di ++ ["x"%char; "y"%char] |}, None)).
Proof.
  intros p1 p2 p3 d pmes.
  destruct (handleDiagnostic_payload unit (answeringOnly p2 [p1; p2; p3] ["x"%char; "y"%char])
              plainPretty emptyEnvelope payloadOnly d p1 pmes tt)
    as (peers & [] & d' & di & w' & Hpeers & Hrun & _).
  - rewrite not_elem_of_dom. reflexivity.
  - injection Hpeers as <-. exists d', di. rewrite Hrun. cbn [fst].
    match goal with
    | |- context [flat_map relayed ?os] =>
      replace (flat_map relayed os) with ["x"%char; "y"%char] by (vm_compute; reflexivity)
    end.
    reflexivity.
Defined.

(** X20.  What [handleDiagnostic] writes to the log at the level of an
    error, on a request that is not in the ledger, is told from what the
    sender answered: the line "getDiagnostic error: %v" for each peer of the
    peer list whose request fails, in order, and nothing else.  It still
    returns its response, with no error. *)
Theorem handleDiagnostic_logs_failures :
  forall (W : Type) (handle : forall X, Event X -> W -> X * W)
         (Pretty : list byte -> string)
         (msg_FromObject : Peer -> Message -> Result NetMessage)
         (proto_Unmarshal : list byte -> Result Message)
         (d : Diagnostics) (p : Peer) (pmes : Message) (w : W),
  GetDiagID pmes ∉ dom (diagMap d) ->
  let answers :=
    responses handle (handleDiagnostic Pretty msg_FromObject proto_Unmarshal d p pmes) w in
  exists peers w0,
    fst (run handle (getPeers d) w0) = Returned peers /\
    errorLines (trace handle (handleDiagnostic Pretty msg_FromObject proto_Unmarshal d p pmes) w) =
    flat_map relayLines (outcomes msg_FromObject proto_Unmarshal pmes peers answers) /\
    length (outcomes msg_FromObject proto_Unmarshal pmes peers answers) = length peers /\
    exists d' resp w',
      run handle (handleDiagnostic Pretty msg_FromObject proto_Unmarshal d p pmes) w =
      (Returned (d', (Some resp, None)), w').
Proof.
  intros W handle Pretty msg_FromObject proto_Unmarshal d p pmes w Hout. cbv zeta.
  apply not_elem_of_dom in Hout.
  destruct (handleDiagnostic_account handle Pretty msg_FromObject proto_Unmarshal d p pmes w Hout)
    as (peers & wp & di & w' & Hpeers & _ & Hrun & Hlines & Hlen).
  exists peers, wp. split; [exact Hpeers |]. split; [exact Hlines |].
  split; [exact Hlen | eauto].
Qed.

Lemma handleDiagnostic_logs_failures_witness :
  let p1 := {| peer_ID := ["a"%char] |} in
  let p2 := {| peer_ID := ["b"%char] |} in
  let p3 := {| peer_ID := ["c"%char] |} in
  let d := {| network := IpfsNetwork; self := {| peer_ID := ["Q"%char] |};
              diagMap := ∅; birth := 0%Z |} in
  let pmes := {| DiagID := Some "abcd"%string; Data := [] |} in
  errorLines (trace (answeringOnly p2 [p1; p2; p3] ["x"%char])
                (handleDiagnostic plainPretty emptyEnvelope payloadOnly d p1 pmes) tt) =
  ["getDiagnostic error: %v"; "getDiagnostic error: %v"]%string.
Proof.
  intros p1 p2 p3 d pmes.
  destruct (handleDiagnostic_logs_failures unit (answeringOnly p2 [p1; p2; p3] ["x"%char])
              plainPretty emptyEnvelope payloadOnly d p1 pmes tt)
    as (peers & [] & Hpeers & Hlines & _).
  - rewrite not_elem_of_dom. reflexivity.
  - injection Hpeers as <-. rewrite Hlines. vm_compute. reflexivity.
Defined.




Lemma skipSpace_blank (s : list byte) :
  forallb json.isSpace s = true -> json.skipSpace s = [].
Proof.
  induction s as [| b s IH]; [reflexivity |].
  cbn [forallb json.skipSpace]. intros [Hb Hs]%andb_true_iff. rewrite Hb. auto.
Qed.

(** X21.  The decoding loop of [GetDiagnostic] stops at the first value
    that does not decode as a snapshot.  After the encodings of any number
    of snapshots whose strings are well-formed UTF-8, a fragment whose first
    value does not decode ends the loop: the snapshots before it are added
    to what was gathered, nothing of what follows the error in the payload
    is read, and the error is logged, once, unless it is [io.EOF], which is
    what a fragment of white space gives. *)
Theorem decodeAll_stops_at_error :
  forall (W : Type) (handle : forall X, Event X -> W -> X * W)
         (ds : list diagInfo) (fragment rest : list byte) (err : error)
         (out : list diagInfo) (w : W),
  forallb validSnapshot ds = true ->
  Decode fragment = (inr err, rest) ->
  let data := concat (map bytesOf ds) ++ fragment in
  fst (run handle (decodeAll (S (length data)) (NewDecoder data) out) w) =
  Returned (out ++ ds) /\
  trace handle (decodeAll (S (length data)) (NewDecoder data) out) w =
  (if decide (err = io_EOF) then []
   else [anEvent (Log Error_ "error decoding diagInfo: %v")]) /\
  snapshotsIn data = ds /\
  (forallb json.isSpace fragment = true -> err = io_EOF).
Proof.
  intros W handle ds fragment rest err out w Hvalid Hfragment. cbv zeta.
  assert (Hloop : forall out',
    decodeAll (S (length (concat (map bytesOf ds) ++ fragment)))
      (NewDecoder (concat (map bytesOf ds) ++ fragment)) out' =
    bind (if decide (err = io_EOF) then Ret tt
          else trigger (Log Error_ "error decoding diagInfo: %v"))
         (fun _ => Ret (out' ++ ds))).
  { intros out'. rewrite (decodeAll_prefix ds Hvalid) by lia.
    cbn [decodeAll]. unfold NewDecoder. rewrite Hfragment. reflexivity. }
  assert (Hrun : forall out',
    fst (run handle (decodeAll (S (length (concat (map bytesOf ds) ++ fragment)))
                       (NewDecoder (concat (map bytesOf ds) ++ fragment)) out') w) =
    Returned (out' ++ ds)).
  { intros out'. rewrite Hloop. destruct (decide (err = io_EOF)); [reflexivity |].
    cbn [bind trigger run]. destruct (handle unit _ w). reflexivity. }
  split; [apply Hrun |]. split; [| split].
  - rewrite Hloop. destruct (decide (err = io_EOF)); [reflexivity |].
    cbn [bind trigger trace]. destruct (handle unit _ w). reflexivity.
  - unfold snapshotsIn.
    destruct (decodeAll_account handle (S (length (concat (map bytesOf ds) ++ fragment)))
                (NewDecoder (concat (map bytesOf ds) ++ fragment)) [] w)
      as (w' & Haccount & _).
    pose proof (Hrun []) as H0. rewrite Haccount in H0. cbn [fst app] in H0.
    injection H0 as H0. exact H0.
  - intros Hblank. unfold Decode in Hfragment.
    rewrite (skipSpace_blank fragment Hblank) in Hfragment.
    injection Hfragment as <- _. reflexivity.
Qed.

Lemma decodeAll_stops_at_error_witness :
  let data := bytesOf okSnapshot ++ "5"%char :: bytesOf new_diagInfo in
  fst (run silent (decodeAll (S (length data)) (NewDecoder data) []) tt) =
  Returned [okSnapshot] /\
  trace silent (decodeAll (S (length data)) (NewDecoder data) []) tt =
  [anEvent (Log Error_ "error decoding diagInfo: %v")].
Proof.
  intros data.
  destruct (decodeAll_stops_at_error unit silent [okSnapshot]
              ("5"%char :: bytesOf new_diagInfo) (bytesOf new_diagInfo)
              (errors_New
                 "json: cannot unmarshal number 5 into Go value of type diagnostic.diagInfo")
              [] tt) as (Hrun & Htrace & _).
  - vm_compute. reflexivity.
  - vm_compute. reflexivity.
  - cbn [map concat] in Hrun, Htrace. rewrite app_nil_r in Hrun, Htrace.
    split; [exact Hrun | exact Htrace].
Defined.
